(** * test-runner: the scheduler ([TestRunner]) and the session ([Model])

    A shallow embedding of the Go program.

    - A pointer to a [TestItem] is an index into a store of allocated items;
      a slice of items is the list of its pointers.
    - The session and the goroutines of [runTest] run concurrently.  Each
      region the program guards with one mutex is one atomic step of a
      labelled transition system ([step]); the loop of [tryStartNext], which
      holds the scheduler mutex from its first turn to its last, is a step
      that takes the mutex, one step per turn, and a step that releases it, so
      that the sections of other goroutines on items come in between as they
      do in the program.  Within a turn the scan of the list is taken as a
      whole.
    - What the environment decides (the clock, the outcome of [os.Create], of
      [cmd.Run], of discovery, of [sort.Slice], the content of a log file)
      travels in the label of the step.
    - [notifyUpdate] reads the callback under the scheduler mutex and calls
      it; the callback [Init] installs does nothing, and the call is left out
      of [step], where [StopTest] is one step.  That [StopTest] waits for two
      mutexes, and what comes of it, is the matter of a second transition
      system with the sections of [StopTest] and [tryStartNext] apart ([Locks]).
    - [step] has the calls of the runner and the keys that move or filter
      the list; [sessionStep] adds the remaining messages [Update] takes. *)

From Stdlib Require Import ZArith Bool String Ascii Lia Sorted.
From stdpp Require Import base list strings.

Local Open Scope Z_scope.

(** ** Package strings *)

(** A string is the sequence of its bytes.  [isASCII] says that every byte
    is below [utf8.RuneSelf] (0x80), as the variable of that name in
    [strings.ToLower] does. *)
Definition isASCIIByte (c : ascii) : bool := (nat_of_ascii c <? 128)%nat.

Fixpoint isASCII (s : string) : bool :=
  match s with
  | EmptyString => true
  | String c s' => isASCIIByte c && isASCII s'
  end.

(** [strings.ToLower] on a string of ASCII bytes, where it maps each byte of
    [A-Z] to the byte 32 above it and leaves the others.  On a string with a
    byte from 0x80 on the Go function decodes runes and maps them by the
    tables of Unicode (U+212A to "k", U+0130 to "i"): such strings are
    outside this model, and the properties that say which strings match are
    stated for ASCII text. *)
Definition lowerByte (c : ascii) : ascii :=
  let n := nat_of_ascii c in
  if ((65 <=? n) && (n <=? 90))%nat then ascii_of_nat (n + 32) else c.

Fixpoint ToLower (s : string) : string :=
  match s with
  | EmptyString => EmptyString
  | String c s' => String (lowerByte c) (ToLower s')
  end.

(** [strings.HasPrefix s prefix]. *)
Fixpoint HasPrefix (s prefix : string) {struct prefix} : bool :=
  match prefix, s with
  | EmptyString, _ => true
  | String _ _, EmptyString => false
  | String p prefix', String c s' =>
      if Ascii.eqb c p then HasPrefix s' prefix' else false
  end.

(** [strings.Contains s substr]: [substr] occurs at some offset of [s]. *)
Fixpoint Contains (s substr : string) : bool :=
  HasPrefix s substr ||
  match s with
  | EmptyString => false
  | String _ s' => Contains s' substr
  end.

(** The test both [applyFilter] and [performSearch] make:
    [strings.Contains(strings.ToLower(s), strings.ToLower(text))]. *)
Definition containsFold (s text : string) : bool :=
  Contains (ToLower s) (ToLower text).

(** What "contains the text case-insensitively" means, said without the
    program's functions.  The letters are those of the two alphabets; a
    small letter belongs to the capital at the same place. *)
Definition capitals : string := "ABCDEFGHIJKLMNOPQRSTUVWXYZ".
Definition smalls : string := "abcdefghijklmnopqrstuvwxyz".

Definition smallOf (small capital : ascii) : Prop :=
  exists i, String.get i capitals = Some capital /\ String.get i smalls = Some small.

(** Two bytes that are equal up to case: the same byte, or a capital and its
    small letter. *)
Definition sameLetter (c d : ascii) : Prop :=
  c = d \/ smallOf c d \/ smallOf d c.

(** Two strings of one length that agree byte by byte up to case. *)
Inductive sameFold : string -> string -> Prop :=
  | sameFold_nil : sameFold EmptyString EmptyString
  | sameFold_cons c d s t :
      sameLetter c d -> sameFold s t ->
      sameFold (String c s) (String d t).

(** Some segment of [s] is [text] up to case. *)
Definition occursFold (text s : string) : Prop :=
  exists pre mid post, s = pre +:+ mid +:+ post /\ sameFold mid text.

(** ** Go's [int]

    An [int] is a [Z].  Where the program guards an operation by a comparison
    the result stays within 64 bits and the operation is that of [Z]; the two
    increments it does not guard ([m.horizontalScroll++] and
    [GetMaxParallel() + 1]) are written with the wrap-around of a 64-bit
    two's-complement integer. *)
Definition MaxInt : Z := 2 ^ 63 - 1.

(** The [int] an operation leaves whose exact result is [z]. *)
Definition wrapInt (z : Z) : Z := (z + 2 ^ 63) mod 2 ^ 64 - 2 ^ 63.

(** ** Items *)

Inductive TestStatus :=
  | StatusIdle | StatusQueued | StatusRunning | StatusPassed | StatusFailed.

(** The [iota] value of a status, which [SortByStatus] compares. *)
Definition statusValue (s : TestStatus) : Z :=
  match s with
  | StatusIdle => 0 | StatusQueued => 1 | StatusRunning => 2
  | StatusPassed => 3 | StatusFailed => 4
  end.

Definition statusEqb (a b : TestStatus) : bool := statusValue a =? statusValue b.

Record TestInfo := mkTestInfo {
  Name : string;
  Package : string;
  File : string;
  Line : Z
}.

(** [time.Time]: [None] is the zero value, [Some t] an instant read off the
    clock. *)
Definition Time := option Z.

(** The [LogFile] string.  [NoLog] is the empty string; [LogAt dir name t] is
    the path [filepath.Join(dir, name + "." + t.Format(...) + ".log")], kept in
    its parts. *)
Inductive LogPath :=
  | NoLog
  | LogAt (dir name : string) (stamp : Z).

(** A [TestItem].  [cancel] is [None] for a nil [context.CancelFunc] and
    [Some t] for the function that cancels the context of execution task [t].
    The mutex [mu] has no field: a region it guards is one step. *)
Record TestItem := mkTestItem {
  Info : TestInfo;
  Status : TestStatus;
  Selected : bool;
  LogFile : LogPath;
  QueuedAt : Time;
  StartedAt : Time;
  FinishedAt : Time;
  cancel : option nat
}.

(** [&TestItem{Info: t, Status: StatusIdle}] *)
Definition newItem (t : TestInfo) : TestItem :=
  mkTestItem t StatusIdle false NoLog None None None None.

(** The store of allocated items; a [*TestItem] is an index into it. *)
Abbreviation Heap := (list TestItem).

Definition nameOf (h : Heap) (p : nat) : string :=
  match h !! p with Some it => Name (Info it) | None => "" end.
Definition selectedOf (h : Heap) (p : nat) : bool :=
  match h !! p with Some it => Selected it | None => false end.
Definition statusValueOf (h : Heap) (p : nat) : Z :=
  match h !! p with Some it => statusValue (Status it) | None => 0 end.

Definition isQueued (h : Heap) (p : nat) : bool :=
  match h !! p with Some it => statusEqb (Status it) StatusQueued | None => false end.

(** ** The session *)

Inductive SortMode := SortByName | SortBySelection | SortByStatus.

(** [(m.sortMode + 1) % 3] *)
Definition nextSortMode (s : SortMode) : SortMode :=
  match s with
  | SortByName => SortBySelection
  | SortBySelection => SortByStatus
  | SortByStatus => SortByName
  end.

(** The fields of [Model] that the list and the search functions read or
    write.  A slice of items is the list of its pointers.  [aliased] records
    that [filteredList] and [tests] are the same slice (after
    [m.filteredList = m.tests]): a write through one is then seen through the
    other. *)
Record Model := mkModel {
  tests : list nat;
  cursor : Z;
  recursive : bool;
  sortMode : SortMode;
  filterMode : bool;
  filterText : string;
  filteredList : list nat;
  aliased : bool;
  outputLines : list string;
  outputScroll : Z;
  autoScroll : bool;
  horizontalScroll : Z;
  currentLogFile : LogPath;
  currentLogTimestamp : Time;
  searchMode : bool;
  searchText : string;
  searchMatches : list Z;
  currentMatchIdx : Z;
  height : Z
}.

(** [m.tests = l], a slice of its own. *)
Definition setTests (l : list nat) (m : Model) : Model :=
  mkModel l (cursor m) (recursive m) (sortMode m) (filterMode m) (filterText m)
    (filteredList m) false (outputLines m) (outputScroll m) (autoScroll m)
    (horizontalScroll m) (currentLogFile m) (currentLogTimestamp m) (searchMode m)
    (searchText m) (searchMatches m) (currentMatchIdx m) (height m).

Definition setCursor (c : Z) (m : Model) : Model :=
  mkModel (tests m) c (recursive m) (sortMode m) (filterMode m) (filterText m)
    (filteredList m) (aliased m) (outputLines m) (outputScroll m) (autoScroll m)
    (horizontalScroll m) (currentLogFile m) (currentLogTimestamp m) (searchMode m)
    (searchText m) (searchMatches m) (currentMatchIdx m) (height m).

Definition setRecursive (b : bool) (m : Model) : Model :=
  mkModel (tests m) (cursor m) b (sortMode m) (filterMode m) (filterText m)
    (filteredList m) (aliased m) (outputLines m) (outputScroll m) (autoScroll m)
    (horizontalScroll m) (currentLogFile m) (currentLogTimestamp m) (searchMode m)
    (searchText m) (searchMatches m) (currentMatchIdx m) (height m).

Definition setSortMode (s : SortMode) (m : Model) : Model :=
  mkModel (tests m) (cursor m) (recursive m) s (filterMode m) (filterText m)
    (filteredList m) (aliased m) (outputLines m) (outputScroll m) (autoScroll m)
    (horizontalScroll m) (currentLogFile m) (currentLogTimestamp m) (searchMode m)
    (searchText m) (searchMatches m) (currentMatchIdx m) (height m).

Definition setFilter (mode : bool) (text : string) (m : Model) : Model :=
  mkModel (tests m) (cursor m) (recursive m) (sortMode m) mode text (filteredList m)
    (aliased m) (outputLines m) (outputScroll m) (autoScroll m) (horizontalScroll m)
    (currentLogFile m) (currentLogTimestamp m) (searchMode m) (searchText m)
    (searchMatches m) (currentMatchIdx m) (height m).

(** [m.filteredList = l] with [l] a slice of its own, or [m.tests] itself when
    [same] is set. *)
Definition assignFiltered (l : list nat) (same : bool) (m : Model) : Model :=
  mkModel (tests m) (cursor m) (recursive m) (sortMode m) (filterMode m) (filterText m)
    l same (outputLines m) (outputScroll m) (autoScroll m) (horizontalScroll m)
    (currentLogFile m) (currentLogTimestamp m) (searchMode m) (searchText m)
    (searchMatches m) (currentMatchIdx m) (height m).

(** The elements of [m.filteredList] overwritten in place by those of [l]:
    [m.tests] changes with it when the two are one slice. *)
Definition writeFiltered (l : list nat) (m : Model) : Model :=
  mkModel (if aliased m then l else tests m) (cursor m) (recursive m) (sortMode m)
    (filterMode m) (filterText m) l (aliased m) (outputLines m) (outputScroll m)
    (autoScroll m) (horizontalScroll m) (currentLogFile m) (currentLogTimestamp m)
    (searchMode m) (searchText m) (searchMatches m) (currentMatchIdx m) (height m).

Definition setScroll (pos : Z) (auto : bool) (m : Model) : Model :=
  mkModel (tests m) (cursor m) (recursive m) (sortMode m) (filterMode m) (filterText m)
    (filteredList m) (aliased m) (outputLines m) pos auto (horizontalScroll m)
    (currentLogFile m) (currentLogTimestamp m) (searchMode m) (searchText m)
    (searchMatches m) (currentMatchIdx m) (height m).

Definition setHorizontalScroll (pos : Z) (m : Model) : Model :=
  mkModel (tests m) (cursor m) (recursive m) (sortMode m) (filterMode m) (filterText m)
    (filteredList m) (aliased m) (outputLines m) (outputScroll m) (autoScroll m) pos
    (currentLogFile m) (currentLogTimestamp m) (searchMode m) (searchText m)
    (searchMatches m) (currentMatchIdx m) (height m).

Definition setOutput (f : LogPath) (t : Time) (lines : list string) (m : Model) : Model :=
  mkModel (tests m) (cursor m) (recursive m) (sortMode m) (filterMode m) (filterText m)
    (filteredList m) (aliased m) lines (outputScroll m) (autoScroll m)
    (horizontalScroll m) f t (searchMode m) (searchText m) (searchMatches m)
    (currentMatchIdx m) (height m).

Definition setSearch (mode : bool) (text : string) (ms : list Z) (idx : Z) (m : Model) : Model :=
  mkModel (tests m) (cursor m) (recursive m) (sortMode m) (filterMode m) (filterText m)
    (filteredList m) (aliased m) (outputLines m) (outputScroll m) (autoScroll m)
    (horizontalScroll m) (currentLogFile m) (currentLogTimestamp m) mode text ms idx
    (height m).

(** [len(l)] as a Go [int]. *)
Definition len {A} (l : list A) : Z := Z.of_nat (length l).

(** [l[i]] for a Go [int] index: [None] is the run-time panic of an index out
    of range. *)
Definition index {A} (l : list A) (i : Z) : option A :=
  if i <? 0 then None else l !! Z.to_nat i.

(** The loop of [applyFilter]: [append] each test whose lower-cased name
    contains [filter]. *)
Definition filterLoop (h : Heap) (filter : string) (ts : list nat) : list nat :=
  fold_left
    (fun acc t => if Contains (ToLower (nameOf h t)) filter then acc ++ [t] else acc)
    ts [].

(** The two [if]s that end [applyFilter]. *)
Definition adjustCursor (c n : Z) : Z :=
  let c := if c >=? n then n - 1 else c in
  if c <? 0 then 0 else c.

Definition applyFilter (h : Heap) (m : Model) : Model :=
  let m :=
    if String.eqb (filterText m) "" then assignFiltered (tests m) true m
    else assignFiltered (filterLoop h (ToLower (filterText m)) (tests m)) false m in
  setCursor (adjustCursor (cursor m) (len (filteredList m))) m.

(** [s[:len(s)-1]] *)
Fixpoint dropLast (s : string) : string :=
  match s with
  | EmptyString => EmptyString
  | String c EmptyString => EmptyString
  | String c s' => String c (dropLast s')
  end.

(** The key "/" of the left pane. *)
Definition startFilter (m : Model) : Model := setFilter true "" m.

Definition handleFilterKey (h : Heap) (key : string) (m : Model) : Model :=
  if String.eqb key "enter" || String.eqb key "esc" then
    applyFilter h (setFilter false (filterText m) m)
  else if String.eqb key "backspace" then
    if (0 <? String.length (filterText m))%nat
    then applyFilter h (setFilter (filterMode m) (dropLast (filterText m)) m)
    else m
  else
    if (String.length key =? 1)%nat
    then applyFilter h (setFilter (filterMode m) (filterText m +:+ key) m)
    else m.

(** [l[i], l[j] = l[j], l[i]] *)
Definition swap (l : list nat) (i j : Z) : option (list nat) :=
  match index l i, index l j with
  | Some x, Some y => Some (<[Z.to_nat i := y]> (<[Z.to_nat j := x]> l))
  | _, _ => None
  end.

Definition moveItemUp (m : Model) : option Model :=
  if (cursor m <=? 0) || (len (filteredList m) =? 0) then Some m
  else
    l ← swap (filteredList m) (cursor m) (cursor m - 1);
    Some (setCursor (cursor m - 1) (writeFiltered l m)).

Definition moveItemDown (m : Model) : option Model :=
  if (cursor m >=? len (filteredList m) - 1) || (len (filteredList m) =? 0) then Some m
  else
    l ← swap (filteredList m) (cursor m) (cursor m + 1);
    Some (setCursor (cursor m + 1) (writeFiltered l m)).

(** The [less] function [applySorting] hands to [sort.Slice], on two items. *)
Definition less (h : Heap) (mode : SortMode) (a b : nat) : bool :=
  match mode with
  | SortByName => String.ltb (nameOf h a) (nameOf h b)
  | SortBySelection =>
      if negb (Bool.eqb (selectedOf h a) (selectedOf h b)) then selectedOf h a
      else String.ltb (nameOf h a) (nameOf h b)
  | SortByStatus =>
      if negb (statusValueOf h a =? statusValueOf h b)
      then statusValueOf h a >? statusValueOf h b
      else String.ltb (nameOf h a) (nameOf h b)
  end.

(** No element is [less] than the one before it. *)
Fixpoint ordered (lt : nat -> nat -> bool) (l : list nat) : bool :=
  match l with
  | x :: (y :: _) as l' => negb (lt y x) && ordered lt l'
  | _ => true
  end.

(** [sort.Slice] is not stable and does not say which order elements that
    compare equal come out in.  [out] is one of the slices it may leave: a
    rearrangement of [l] that is ordered. *)
Definition sortOutcome (lt : nat -> nat -> bool) (l out : list nat) : bool :=
  bool_decide (out ≡ₚ l) && ordered lt out.

(** One slice [sort.Slice] may leave: that of an insertion sort. *)
Fixpoint insertSorted (lt : nat -> nat -> bool) (x : nat) (l : list nat) : list nat :=
  match l with
  | [] => [x]
  | y :: l' => if lt y x then y :: insertSorted lt x l' else x :: l
  end.

Definition insertionSort (lt : nat -> nat -> bool) (l : list nat) : list nat :=
  foldr (insertSorted lt) [] l.

(** The loop that restores the cursor: the first position holding [p]. *)
Fixpoint positionOf (p : nat) (l : list nat) : option Z :=
  match l with
  | [] => None
  | x :: l' => if (x =? p)%nat then Some 0 else Z.succ <$> positionOf p l'
  end.

(** [applySorting], with [out] what [sort.Slice] left in the slice.  [None]
    when [out] is no outcome of the sort, or when the program panics. *)
Definition applySorting (h : Heap) (out : list nat) (m : Model) : option Model :=
  currentItem ←
    (if (len (filteredList m) >? 0) && (cursor m <? len (filteredList m))
     then Some <$> index (filteredList m) (cursor m)
     else Some None);
  if sortOutcome (less h (sortMode m)) (filteredList m) out then
    let m := writeFiltered out m in
    Some match currentItem with
         | Some p =>
             match positionOf p (filteredList m) with
             | Some i => setCursor i m
             | None => m
             end
         | None => m
         end
  else None.

Definition toggleSortMode (h : Heap) (out : list nat) (m : Model) : option Model :=
  applySorting h out (setSortMode (nextSortMode (sortMode m)) m).

(** What [DiscoverTestsRecursive] returned. *)
Record Discovery := mkDiscovery {
  found : list TestInfo;
  err : bool
}.

(** [rediscoverTests]: the new items are allocated at the end of the store. *)
Definition rediscoverTests (d : Discovery) (out : list nat) (h : Heap) (m : Model)
  : option (Heap * Model) :=
  if err d then Some (h, m)
  else
    let items := seq (length h) (length (found d)) in
    let h := h ++ (newItem <$> found d) in
    m ← applySorting h out (applyFilter h (setTests items m));
    Some (h, m).

Definition toggleRecursive (d : Discovery) (out : list nat) (h : Heap) (m : Model)
  : option (Heap * Model) :=
  rediscoverTests d out h (setRecursive (negb (recursive m)) m).

(** [performSearch]: the indices of the lines that contain the text. *)
Fixpoint searchLoop (searchLower : string) (i : Z) (lines : list string) (acc : list Z)
  : list Z :=
  match lines with
  | [] => acc
  | line :: rest =>
      searchLoop searchLower (i + 1) rest
        (if Contains (ToLower line) searchLower then acc ++ [i] else acc)
  end.

Definition performSearch (m : Model) : Model :=
  let m := setSearch (searchMode m) (searchText m) [] (-1) m in
  if String.eqb (searchText m) "" then m
  else
    setSearch (searchMode m) (searchText m)
      (searchLoop (ToLower (searchText m)) 0 (outputLines m) []) (-1) m.

Definition goToNextMatch (m : Model) : option Model :=
  if len (searchMatches m) =? 0 then Some m
  else
    let i := currentMatchIdx m + 1 in
    let i := if i >=? len (searchMatches m) then 0 else i in
    line ← index (searchMatches m) i;
    Some (setScroll line false (setSearch (searchMode m) (searchText m) (searchMatches m) i m)).

Definition goToPrevMatch (m : Model) : option Model :=
  if len (searchMatches m) =? 0 then Some m
  else
    let i := currentMatchIdx m - 1 in
    let i := if i <? 0 then len (searchMatches m) - 1 else i in
    line ← index (searchMatches m) i;
    Some (setScroll line false (setSearch (searchMode m) (searchText m) (searchMatches m) i m)).

(** What the file system gives one call of [refreshOutput]: the newest log
    file of the test's name with its modification time
    ([findMostRecentLogFile], [None] when there is none), and the modification
    time and the lines of the file that is opened ([None] when [os.Open]
    fails). *)
Record Reading := mkReading {
  recent : option (LogPath * Z);
  opened : option (Z * list string)
}.

Definition outputHeight (m : Model) : Z := height m - 3.

Definition maxOutputScroll (m : Model) : Z :=
  let max := len (outputLines m) - outputHeight m in
  if max <? 0 then 0 else max.

Definition clearOutput (m : Model) : Model := setOutput NoLog None [] m.

Definition refreshOutput (h : Heap) (r : Reading) (m : Model) : option Model :=
  if (len (filteredList m) =? 0) || (cursor m >=? len (filteredList m))
  then Some (clearOutput m)
  else
    p ← index (filteredList m) (cursor m);
    let '(logFile, logTimestamp) :=
      match LogFile <$> h !! p with
      | Some (LogAt d n t) => (LogAt d n t, None)
      | _ => match recent r with
             | Some (f, t) => (f, Some t)
             | None => (NoLog, None)
             end
      end in
    match logFile, opened r with
    | NoLog, _ => Some (clearOutput m)
    | _, None => Some (clearOutput m)
    | _, Some (modTime, lines) =>
        let logTimestamp :=
          match logTimestamp with None => Some modTime | Some t => Some t end in
        let m := setOutput logFile logTimestamp lines m in
        Some (if autoScroll m then setScroll (maxOutputScroll m) true m else m)
    end.

Definition resetOutputScroll (h : Heap) (r : Reading) (m : Model) : option Model :=
  refreshOutput h r (setHorizontalScroll 0 (setScroll (outputScroll m) true m)).

(** The keys "up" and "down" of the left pane. *)
Definition cursorUp (h : Heap) (r : Reading) (m : Model) : option Model :=
  if cursor m >? 0 then resetOutputScroll h r (setCursor (cursor m - 1) m) else Some m.

Definition cursorDown (h : Heap) (r : Reading) (m : Model) : option Model :=
  if cursor m <? len (filteredList m) - 1
  then resetOutputScroll h r (setCursor (cursor m + 1) m)
  else Some m.

(** ** The scheduler *)

(** [GetQueuedCount] and [tryStartNext] read the list through the pointer
    [r.tests], which [NewModel] sets to [&m.filteredList]: what they scan is
    the session's [filteredList] of the moment. *)
Record TestRunner := mkRunner {
  logDir : string;
  maxParallel : Z;
  running : Z
}.

(** Where a goroutine [runTest(item)] stands. *)
Inductive Pc :=
  | PcStart      (* created by [go r.runTest(item)], nothing done yet *)
  | PcCreate     (* the item is marked; next is [os.Create] *)
  | PcRun        (* inside [cmd.Run] *)
  | PcFinished   (* the terminal status is written; next is [testFinished] *)
  | PcRestart    (* [running] is decremented; next is its [tryStartNext] *)
  | PcDone.      (* returned *)

(** A goroutine: its item, its place, and whether its context is cancelled. *)
Record Task := mkTask {
  taskItem : nat;
  pc : Pc;
  cancelled : bool
}.

(** The session actor, or the goroutine with the given number. *)
Inductive Thread := UI | Worker (t : nat).

(** [holder] is the thread that holds [r.mu] inside [tryStartNext]; [uiBusy]
    says the session actor is inside a call that ends with [tryStartNext] and
    has not returned from it. *)
Record State := mkState {
  heap : Heap;
  model : Model;
  runner : TestRunner;
  holder : option Thread;
  uiBusy : bool;
  tasks : list Task
}.

Definition setHeap (h : Heap) (s : State) : State :=
  mkState h (model s) (runner s) (holder s) (uiBusy s) (tasks s).
Definition setModel (m : Model) (s : State) : State :=
  mkState (heap s) m (runner s) (holder s) (uiBusy s) (tasks s).
Definition setRunner (r : TestRunner) (s : State) : State :=
  mkState (heap s) (model s) r (holder s) (uiBusy s) (tasks s).
Definition setHolder (o : option Thread) (s : State) : State :=
  mkState (heap s) (model s) (runner s) o (uiBusy s) (tasks s).
Definition setUiBusy (b : bool) (s : State) : State :=
  mkState (heap s) (model s) (runner s) (holder s) b (tasks s).
Definition setTasks (ts : list Task) (s : State) : State :=
  mkState (heap s) (model s) (runner s) (holder s) (uiBusy s) ts.

Definition setPc (c : Pc) (k : Task) : Task := mkTask (taskItem k) c (cancelled k).
Definition cancelTask (k : Task) : Task := mkTask (taskItem k) (pc k) true.

(** [NewTestRunner(testDir, logDir, 3)] *)
Definition NewTestRunner (dir : string) (n : Z) : TestRunner := mkRunner dir n 0.

(** [NewModel]: one idle item per discovered test, [filteredList] and [tests]
    the same slice, default parallelism 3. *)
Definition NewModel (infos : list TestInfo) (dir : string) : State :=
  let items := seq 0 (length infos) in
  mkState (newItem <$> infos)
    (mkModel items 0 true SortByName false "" items true [] 0 true 0 NoLog None
       false "" [] 0 0)
    (NewTestRunner dir 3) None false [].

(** The item section of [QueueTest]: [None] is the early return. *)
Definition QueueTest (dir : string) (now stamp : Z) (it : TestItem) : option TestItem :=
  if statusEqb (Status it) StatusRunning || statusEqb (Status it) StatusQueued then None
  else Some (mkTestItem (Info it) StatusQueued (Selected it)
               (LogAt dir (Name (Info it)) stamp)
               (Some now) (StartedAt it) (FinishedAt it) (cancel it)).

(** [StopTest]: the item afterwards, and the task whose context it cancelled. *)
Definition StopTest (it : TestItem) : TestItem * option nat :=
  match Status it with
  | StatusQueued =>
      (mkTestItem (Info it) StatusIdle (Selected it) (LogFile it)
         (QueuedAt it) (StartedAt it) (FinishedAt it) (cancel it), None)
  | StatusRunning => (it, cancel it)
  | _ => (it, None)
  end.

(** The first section of [runTest]. *)
Definition markRunning (t : nat) (now : Z) (it : TestItem) : TestItem :=
  mkTestItem (Info it) StatusRunning (Selected it) (LogFile it)
    (QueuedAt it) (Some now) (FinishedAt it) (Some t).

(** The section of [runTest] under [if err != nil] after [os.Create]. *)
Definition markCreateFailed (now : Z) (it : TestItem) : TestItem :=
  mkTestItem (Info it) StatusFailed (Selected it) (LogFile it)
    (QueuedAt it) (StartedAt it) (Some now) (cancel it).

(** The last section of [runTest], after [cmd.Run] returned: [ctxCancelled] is
    [ctx.Err() == context.Canceled], [failed] is [err != nil]. *)
Definition markExit (ctxCancelled failed : bool) (now : Z) (it : TestItem) : TestItem :=
  mkTestItem (Info it)
    (if ctxCancelled then StatusFailed
     else if failed then StatusFailed
     else StatusPassed)
    (Selected it) (LogFile it) (QueuedAt it) (StartedAt it) (Some now) None.

(** The inner loop of [tryStartNext]: the first item of the list whose status
    is [StatusQueued]. *)
Fixpoint firstQueued (h : Heap) (l : list nat) : option nat :=
  match l with
  | [] => None
  | p :: l' => if isQueued h p then Some p else firstQueued h l'
  end.

(** One turn of the outer loop of [tryStartNext]: the item it starts, if the
    loop goes on. *)
Definition nextItem (s : State) : option nat :=
  if running (runner s) <? maxParallel (runner s)
  then firstQueued (heap s) (filteredList (model s))
  else None.

(** [r.running++; go r.runTest(nextItem)] *)
Definition startTest (p : nat) (s : State) : State :=
  setTasks (tasks s ++ [mkTask p PcStart false])
    (setRunner (mkRunner (logDir (runner s)) (maxParallel (runner s)) (running (runner s) + 1)) s).

(** [tryStartNext] when no other goroutine takes a step while it runs: the
    turns of its loop one after the other.  Each turn increments [running], so
    [maxParallel - running] turns are the most there can be. *)
Fixpoint startLoop (turns : nat) (s : State) : State :=
  match turns with
  | O => s
  | S turns' =>
      match nextItem s with
      | Some p => startLoop turns' (startTest p s)
      | None => s
      end
  end.

Definition tryStartNext (s : State) : State :=
  startLoop (Z.to_nat (maxParallel (runner s) - running (runner s))) s.

(** [GetQueuedCount] *)
Definition GetQueuedCount (s : State) : Z :=
  fold_left (fun count p => if isQueued (heap s) p then count + 1 else count)
    (filteredList (model s)) 0.

Definition GetRunningCount (s : State) : Z := running (runner s).
Definition GetMaxParallel (s : State) : Z := maxParallel (runner s).

(** ** The transition system

    A label names the thread that moves and the section it runs.  [Lock],
    [StartNext] and [Unlock] are [tryStartNext]: taking the scheduler mutex,
    one turn of [for r.running < r.maxParallel] that finds a queued item, and
    leaving the loop (by its condition or by [break]) with the deferred
    [Unlock].  [SetMaxParallel] and [testFinished] write their counter under
    the same mutex, so their steps wait while a loop holds it. *)

Inductive Label :=
  (* the session actor *)
  | DoQueueTest (p : nat) (now stamp : Z)
  | DoStopTest (p : nat)
  | DoSetMaxParallel (n : Z)
  | Tick (r : Reading)
  | KeyUp (r : Reading)
  | KeyDown (r : Reading)
  | KeySlash
  | FilterKey (key : string)
  | MoveUp
  | MoveDown
  | ToggleSort (out : list nat)
  | ToggleRecursive (d : Discovery) (out : list nat)
  (* [tryStartNext], by the thread that called it *)
  | Lock (th : Thread)
  | StartNext
  | Unlock
  (* [runTest] and [testFinished], by goroutine [t] *)
  | RunBegin (t : nat) (now : Z)
  | Create (t : nat) (ok : bool) (now : Z)
  | CmdExit (t : nat) (failed : bool) (now : Z)
  | Finished (t : nat).

(** The session actor is one thread: a step of it is enabled when it is not
    inside an earlier call.  Any sequence of calls is allowed to it, which is
    more than the key handler makes. *)
Definition uiStep (s : State) (f : State -> option State) : option State :=
  if uiBusy s then None else f s.

(** A step of goroutine [t] standing at [at_]. *)
Definition taskStep (s : State) (t : nat) (at_ : Pc) (f : Task -> option State)
  : option State :=
  k ← tasks s !! t;
  match pc k, at_ with
  | PcStart, PcStart | PcCreate, PcCreate | PcRun, PcRun
  | PcFinished, PcFinished | PcRestart, PcRestart => f k
  | _, _ => None
  end.

Definition moveTask (t : nat) (c : Pc) (s : State) : State :=
  setTasks (alter (setPc c) t (tasks s)) s.

Definition step (s : State) (l : Label) : option State :=
  match l with
  | DoQueueTest p now stamp =>
      uiStep s (fun s =>
        it ← heap s !! p;
        match QueueTest (logDir (runner s)) now stamp it with
        | None => Some s
        | Some it' => Some (setUiBusy true (setHeap (<[p := it']> (heap s)) s))
        end)
  | DoStopTest p =>
      uiStep s (fun s =>
        it ← heap s !! p;
        let '(it', c) := StopTest it in
        let s := setHeap (<[p := it']> (heap s)) s in
        Some match c with
             | Some t => setTasks (alter cancelTask t (tasks s)) s
             | None => s
             end)
  | DoSetMaxParallel n =>
      uiStep s (fun s =>
        match holder s with
        | Some _ => None
        | None =>
            Some (setUiBusy true
                    (setRunner (mkRunner (logDir (runner s)) n (running (runner s))) s))
        end)
  | Tick r =>
      uiStep s (fun s => m ← refreshOutput (heap s) r (model s); Some (setModel m s))
  | KeyUp r =>
      uiStep s (fun s => m ← cursorUp (heap s) r (model s); Some (setModel m s))
  | KeyDown r =>
      uiStep s (fun s => m ← cursorDown (heap s) r (model s); Some (setModel m s))
  | KeySlash => uiStep s (fun s => Some (setModel (startFilter (model s)) s))
  | FilterKey key =>
      uiStep s (fun s => Some (setModel (handleFilterKey (heap s) key (model s)) s))
  | MoveUp => uiStep s (fun s => m ← moveItemUp (model s); Some (setModel m s))
  | MoveDown => uiStep s (fun s => m ← moveItemDown (model s); Some (setModel m s))
  | ToggleSort out =>
      uiStep s (fun s => m ← toggleSortMode (heap s) out (model s); Some (setModel m s))
  | ToggleRecursive d out =>
      uiStep s (fun s =>
        '(h, m) ← toggleRecursive d out (heap s) (model s);
        Some (setModel m (setHeap h s)))
  | Lock th =>
      match holder s with
      | Some _ => None
      | None =>
          match th with
          | UI => if uiBusy s then Some (setHolder (Some UI) s) else None
          | Worker t =>
              taskStep s t PcRestart (fun _ => Some (setHolder (Some (Worker t)) s))
          end
      end
  | StartNext =>
      match holder s, nextItem s with
      | Some _, Some p => Some (startTest p s)
      | _, _ => None
      end
  | Unlock =>
      match holder s, nextItem s with
      | Some UI, None => Some (setUiBusy false (setHolder None s))
      | Some (Worker t), None => Some (moveTask t PcDone (setHolder None s))
      | _, _ => None
      end
  | RunBegin t now =>
      taskStep s t PcStart (fun k =>
        Some (moveTask t PcCreate
                (setHeap (alter (markRunning t now) (taskItem k) (heap s)) s)))
  | Create t ok now =>
      taskStep s t PcCreate (fun k =>
        if ok then Some (moveTask t PcRun s)
        else Some (moveTask t PcFinished
                     (setHeap (alter (markCreateFailed now) (taskItem k) (heap s)) s)))
  | CmdExit t failed now =>
      taskStep s t PcRun (fun k =>
        Some (moveTask t PcFinished
                (setHeap (alter (markExit (cancelled k) failed now) (taskItem k) (heap s)) s)))
  | Finished t =>
      taskStep s t PcFinished (fun _ =>
        match holder s with
        | Some _ => None
        | None =>
            Some (moveTask t PcRestart
                    (setRunner (mkRunner (logDir (runner s)) (maxParallel (runner s))
                                  (running (runner s) - 1)) s))
        end)
  end.

Fixpoint run (s : State) (tr : list Label) : option State :=
  match tr with
  | [] => Some s
  | l :: tr' => s' ← step s l; run s' tr'
  end.

(** The states the program reaches from [NewModel]. *)
Definition reachable (infos : list TestInfo) (dir : string) (s : State) : Prop :=
  exists tr, run (NewModel infos dir) tr = Some s.

(** ** Notions the properties are stated with *)

(** The goroutines launched for item [p] so far (a goroutine that returned
    stays in [tasks], at [PcDone]). *)
Definition startedCount (p : nat) (s : State) : nat :=
  length (filter (fun k => taskItem k = p) (tasks s)).

(** A goroutine for [p] that has not yet written a terminal status: it is
    about to mark the item, to create the log file, or inside [cmd.Run]. *)
Definition executing (p : nat) (k : Task) : bool :=
  (taskItem k =? p)%nat &&
  match pc k with PcStart | PcCreate | PcRun => true | _ => false end.

Definition inFlight (p : nat) (s : State) : nat :=
  length (filter (fun k => executing p k = true) (tasks s)).

(** A call [SetMaxParallel(n)] with [n] under the running count. *)
Definition lowersCeiling (s : State) (l : Label) : bool :=
  match l with
  | DoSetMaxParallel n => n <? running (runner s)
  | _ => false
  end.

(** No step of the trace, run from [s], is such a call. *)
Fixpoint ceilingKept (s : State) (tr : list Label) : bool :=
  match tr with
  | [] => true
  | l :: tr' =>
      negb (lowersCeiling s l) &&
      match step s l with
      | Some s' => ceilingKept s' tr'
      | None => true
      end
  end.

(** What a step does to the two counters of the runner. *)
Definition runnerAfter (s : State) (l : Label) : TestRunner :=
  match l with
  | DoSetMaxParallel n => mkRunner (logDir (runner s)) n (running (runner s))
  | StartNext =>
      mkRunner (logDir (runner s)) (maxParallel (runner s)) (running (runner s) + 1)
  | Finished _ =>
      mkRunner (logDir (runner s)) (maxParallel (runner s)) (running (runner s) - 1)
  | _ => runner s
  end.

(** Every item has a cancellation handle exactly when it is running. *)
Definition handleIffRunning (s : State) : Prop :=
  forall p it, heap s !! p = Some it ->
    (cancel it <> None <-> Status it = StatusRunning).

(** [os.Create] fails. *)
Definition createFailure (l : Label) : bool :=
  match l with
  | Create _ false _ => true
  | _ => false
  end.

(** [QueueTest] is called on [p]. *)
Definition requeues (p : nat) (l : Label) : bool :=
  match l with
  | DoQueueTest q _ _ => (q =? p)%nat
  | _ => false
  end.

(** The steps that call [applyFilter]. *)
Definition refilters (l : Label) : bool :=
  match l with
  | FilterKey _ | ToggleRecursive _ _ => true
  | _ => false
  end.

(** ** Scenarios *)

Definition testA : TestInfo := mkTestInfo "TestA" "" "a_test.go" 8.
Definition testB : TestInfo := mkTestInfo "TestB" "" "a_test.go" 14.
Definition testC : TestInfo := mkTestInfo "TestC" "" "a_test.go" 19.
Definition testD : TestInfo := mkTestInfo "TestD" "" "a_test.go" 23.

Definition noReading : Reading := mkReading None None.

(** The key "-" pressed twice: the ceiling goes from 3 to 1. *)
Definition ceilingToOne : list Label :=
  [DoSetMaxParallel 2; Lock UI; Unlock; DoSetMaxParallel 1; Lock UI; Unlock].

(** One test is queued with the default ceiling of 3, and the loop of
    [tryStartNext] runs to its end before any of the goroutines it creates is
    scheduled; then two of them start and create their log files. *)
Definition startedTwice : list Label :=
  [DoQueueTest 0 100 100; Lock UI; StartNext; StartNext; StartNext; Unlock;
   RunBegin 0 101; RunBegin 1 101; Create 0 true 102; Create 1 true 102].

(** One test is queued and the loop of [tryStartNext] has gone round once. *)
Definition startedOnce : list Label :=
  [DoQueueTest 0 100 100; Lock UI; StartNext].

(** Three tests are queued and started one after the other, each goroutine
    marking its item before the loop looks again; then "-" is pressed. *)
Definition threeRunning : list Label :=
  [DoQueueTest 0 100 100; Lock UI; StartNext; RunBegin 0 101; Unlock;
   DoQueueTest 1 102 102; Lock UI; StartNext; RunBegin 1 103; Unlock;
   DoQueueTest 2 104 104; Lock UI; StartNext; RunBegin 2 105; Unlock].

(** With the ceiling at 1, test A runs and test B waits in the queue. *)
Definition oneWaiting : list Label :=
  ceilingToOne ++
  [DoQueueTest 0 100 100; Lock UI; StartNext; RunBegin 0 101; Unlock;
   Create 0 true 102;
   DoQueueTest 1 103 103; Lock UI; Unlock].

(** With the ceiling at 1, test D runs; A, B and C are queued in that order;
    the cursor goes to C and "[" is pressed twice; then D passes and its
    goroutine takes the scheduler lock. *)
Definition reordered : list Label :=
  ceilingToOne ++
  [KeyDown noReading; KeyDown noReading; KeyDown noReading;
   DoQueueTest 3 100 100; Lock UI; StartNext; RunBegin 0 101; Unlock;
   Create 0 true 102;
   DoQueueTest 0 103 103; Lock UI; Unlock;
   DoQueueTest 1 104 104; Lock UI; Unlock;
   DoQueueTest 2 105 105; Lock UI; Unlock;
   KeyUp noReading; MoveUp; MoveUp;
   CmdExit 0 false 110; Finished 0; Lock (Worker 0)].

(** The log file of the one test cannot be created. *)
Definition createFails : list Label :=
  [DoQueueTest 0 100 100; Lock UI; StartNext; RunBegin 0 101; Unlock;
   Create 0 false 102].

(** A filter is typed while test B runs and test A waits: "/", "b", "enter". *)
Definition hidden : list Label :=
  ceilingToOne ++
  [KeyDown noReading;
   DoQueueTest 1 100 100; Lock UI; StartNext; RunBegin 0 101; Unlock;
   Create 0 true 102;
   DoQueueTest 0 103 103; Lock UI; Unlock;
   KeySlash; FilterKey "b"; FilterKey "enter"].

(** The state a trace leads to from [NewModel]; the initial state when the
    trace cannot be run. *)
Definition after (infos : list TestInfo) (tr : list Label) : State :=
  default (NewModel infos "logs") (run (NewModel infos "logs") tr).

Definition startedTwiceState : State :=
  Eval vm_compute in after [testA] startedTwice.
Definition startedOnceState : State :=
  Eval vm_compute in after [testA] startedOnce.
Definition threeRunningState : State :=
  Eval vm_compute in after [testA; testB; testC] threeRunning.
Definition oneWaitingState : State :=
  Eval vm_compute in after [testA; testB] oneWaiting.
Definition reorderedState : State :=
  Eval vm_compute in after [testA; testB; testC; testD] reordered.
Definition createFailsState : State :=
  Eval vm_compute in after [testA] createFails.
Definition hiddenState : State :=
  Eval vm_compute in after [testA; testB] hidden.

Definition hiddenLaterState : State :=
  Eval vm_compute in
    after [testA; testB]
      (hidden ++ [CmdExit 0 false 110; Finished 0; Lock (Worker 0); Unlock]).
Definition loweredState : State :=
  Eval vm_compute in
    after [testA; testB; testC] (threeRunning ++ [DoSetMaxParallel 2; Lock UI; Unlock]).

(** The scroll positions a sequence of the keys "n" ([true]) and "N"
    ([false]) of the right pane goes through. *)
Fixpoint visits (keys : list bool) (m : Model) : list Z :=
  match keys with
  | [] => []
  | key :: keys' =>
      match (if key then goToNextMatch m else goToPrevMatch m) with
      | Some m' => outputScroll m' :: visits keys' m'
      | None => []
      end
  end.

(** The output buffer of the search example. *)
Definition searchDemo : Model :=
  mkModel [] 0 true SortByName false "" [] true ["foo"; "bar"; "FOO"; "baz"]
    0 true 0 NoLog None false "foo" [] 0 24.

(** ** The keys of the two panes *)

(** [t.Selected = b] *)
Definition setSelected (b : bool) (it : TestItem) : TestItem :=
  mkTestItem (Info it) (Status it) b (LogFile it) (QueuedAt it) (StartedAt it)
    (FinishedAt it) (cancel it).

(** [t.Selected = !t.Selected] *)
Definition invertSelected (it : TestItem) : TestItem :=
  setSelected (negb (Selected it)) it.

(** The keys "a", "d" and "i" of the left pane: one assignment for each
    element of the filtered list, in the order of the list. *)
Definition selectAll (h : Heap) (m : Model) : Heap :=
  fold_left (fun h t => alter (setSelected true) t h) (filteredList m) h.

Definition deselectAll (h : Heap) (m : Model) : Heap :=
  fold_left (fun h t => alter (setSelected false) t h) (filteredList m) h.

Definition invertSelection (h : Heap) (m : Model) : Heap :=
  fold_left (fun h t => alter invertSelected t h) (filteredList m) h.

(** The key " " of the left pane. *)
Definition toggleCurrent (h : Heap) (m : Model) : option Heap :=
  if (len (filteredList m) >? 0) && (cursor m <? len (filteredList m)) then
    p ← index (filteredList m) (cursor m);
    Some (alter invertSelected p h)
  else Some h.

(** The loop [runSelectedTests] and [stopSelectedTests] share: the flag
    [hasSelected] and the items the runner was called with so far. *)
Definition selectedLoop (h : Heap) (l : list nat) : bool * list nat :=
  fold_left
    (fun '(hasSelected, calls) t =>
       if selectedOf h t then (true, calls ++ [t]) else (hasSelected, calls))
    l (false, []).

(** The items [runSelectedTests] hands to [QueueTest], one call after the
    other.  [QueueTest], [StopTest] and the goroutines leave [Selected] as it
    is, so the marks the loop reads are those of the store it started with.
    [None] is the panic of an index out of range. *)
Definition runSelectedTests (h : Heap) (m : Model) : option (list nat) :=
  let '(hasSelected, calls) := selectedLoop h (filteredList m) in
  if negb hasSelected && (len (filteredList m) >? 0) && (cursor m <? len (filteredList m))
  then p ← index (filteredList m) (cursor m); Some (calls ++ [p])
  else Some calls.

(** The items [stopSelectedTests] hands to [StopTest]. *)
Definition stopSelectedTests (h : Heap) (m : Model) : option (list nat) :=
  let '(hasSelected, calls) := selectedLoop h (filteredList m) in
  if negb hasSelected && (len (filteredList m) >? 0) && (cursor m <? len (filteredList m))
  then p ← index (filteredList m) (cursor m); Some (calls ++ [p])
  else Some calls.

(** [handleRightPaneKey]: [None] is the panic of an index out of range in
    "n" and "N". *)
Definition handleRightPaneKey (key : string) (m : Model) : option Model :=
  let maxScroll := maxOutputScroll m in
  if String.eqb key "up" || String.eqb key "k" then
    Some (if outputScroll m >? 0 then setScroll (outputScroll m - 1) false m else m)
  else if String.eqb key "down" || String.eqb key "j" then
    let m := if outputScroll m <? maxScroll
             then setScroll (outputScroll m + 1) (autoScroll m) m else m in
    Some (if outputScroll m >=? maxScroll then setScroll (outputScroll m) true m else m)
  else if String.eqb key "left" || String.eqb key "h" then
    Some (if horizontalScroll m >? 0 then setHorizontalScroll (horizontalScroll m - 1) m
          else m)
  else if String.eqb key "right" || String.eqb key "l" then
    Some (setHorizontalScroll (wrapInt (horizontalScroll m + 1)) m)
  else if String.eqb key "pgup" then
    let pos := outputScroll m - outputHeight m in
    Some (setScroll (if pos <? 0 then 0 else pos) false m)
  else if String.eqb key "pgdown" then
    let pos := outputScroll m + outputHeight m in
    let pos := if pos >? maxScroll then maxScroll else pos in
    Some (setScroll pos (if pos >=? maxScroll then true else autoScroll m) m)
  else if String.eqb key "home" then Some (setScroll 0 false m)
  else if String.eqb key "end" then Some (setScroll maxScroll true m)
  else if String.eqb key "/" then Some (setSearch true "" [] 0 m)
  else if String.eqb key "n" then goToNextMatch m
  else if String.eqb key "N" then goToPrevMatch m
  else Some m.

(** [handleSearchKey]: "enter" leaves search mode, searches and goes to the
    first match. *)
Definition handleSearchKey (key : string) (m : Model) : option Model :=
  if String.eqb key "enter" then
    goToNextMatch
      (performSearch (setSearch false (searchText m) (searchMatches m) (currentMatchIdx m) m))
  else if String.eqb key "esc" then
    Some (setSearch false (searchText m) (searchMatches m) (currentMatchIdx m) m)
  else if String.eqb key "backspace" then
    Some (if (0 <? String.length (searchText m))%nat
          then setSearch (searchMode m) (dropLast (searchText m)) (searchMatches m)
                 (currentMatchIdx m) m
          else m)
  else
    Some (if (String.length key =? 1)%nat
          then setSearch (searchMode m) (searchText m +:+ key) (searchMatches m)
                 (currentMatchIdx m) m
          else m).

(** ** The messages of the session

    [Update] handles one message at a time.  Beside the calls of the runner
    and the keys that are labels of the transition system, it takes the keys
    that mark tests, the keys of the output pane and of its search prompt,
    and the size of the window. *)

(** The keys "a", "d", "i" and " " of [handleLeftPaneKey]: the store they
    leave.  [None] is the panic of an index out of range. *)
Definition handleSelectionKey (key : string) (h : Heap) (m : Model) : option Heap :=
  if String.eqb key "a" then Some (selectAll h m)
  else if String.eqb key "d" then Some (deselectAll h m)
  else if String.eqb key "i" then Some (invertSelection h m)
  else if String.eqb key " " then toggleCurrent h m
  else Some h.

(** [m.height = msg.Height] *)
Definition setHeight (n : Z) (m : Model) : Model :=
  mkModel (tests m) (cursor m) (recursive m) (sortMode m) (filterMode m) (filterText m)
    (filteredList m) (aliased m) (outputLines m) (outputScroll m) (autoScroll m)
    (horizontalScroll m) (currentLogFile m) (currentLogTimestamp m) (searchMode m)
    (searchText m) (searchMatches m) (currentMatchIdx m) n.

(** What happens next: a step of the transition system, or one of the
    further messages to the session. *)
Inductive Event :=
  | Runs (l : Label)
  | SelectionKey (key : string)
  | RightPaneKey (key : string)
  | SearchKey (key : string)
  | WindowSizeMsg (height : Z).

(** As for the steps of [step], the session takes a message when it is not
    inside an earlier call, and any sequence of messages is allowed to it. *)
Definition sessionStep (s : State) (e : Event) : option State :=
  match e with
  | Runs l => step s l
  | SelectionKey key =>
      uiStep s (fun s => h ← handleSelectionKey key (heap s) (model s); Some (setHeap h s))
  | RightPaneKey key =>
      uiStep s (fun s => m ← handleRightPaneKey key (model s); Some (setModel m s))
  | SearchKey key =>
      uiStep s (fun s => m ← handleSearchKey key (model s); Some (setModel m s))
  | WindowSizeMsg n => uiStep s (fun s => Some (setModel (setHeight n (model s)) s))
  end.

Fixpoint sessionRun (s : State) (evs : list Event) : option State :=
  match evs with
  | [] => Some s
  | e :: evs' => s' ← sessionStep s e; sessionRun s' evs'
  end.

(** The states the program reaches from [NewModel], whatever the keys. *)
Definition sessionReachable (infos : list TestInfo) (dir : string) (s : State) : Prop :=
  exists evs, sessionRun (NewModel infos dir) evs = Some s.

(** ** What is drawn *)

(** The rows of the filtered list [renderLeftPane] draws: the half-open
    range [startIdx, endIdx).  [View] calls it with [m.height - 2] for
    [height]. *)
Definition visibleTests (m : Model) : Z * Z :=
  let height := height m - 2 in
  let listHeight := height - 3 in
  let listHeight :=
    if filterMode m || negb (String.eqb (filterText m) "") then listHeight - 1
    else listHeight in
  let startIdx := if cursor m >=? listHeight then cursor m - listHeight + 1 else 0 in
  let endIdx := startIdx + listHeight in
  let endIdx := if endIdx >? len (filteredList m) then len (filteredList m) else endIdx in
  (startIdx, endIdx).

(** The lines of the output buffer [renderRightPane] draws: the half-open
    range [startLine, endLine).  [View] calls it with [m.height - 2] for
    [height]. *)
Definition visibleOutput (m : Model) : Z * Z :=
  let height := height m - 2 in
  let outputHeight := height - 5 in
  let outputHeight := if outputHeight <? 1 then 1 else outputHeight in
  let startLine := outputScroll m in
  let endLine := startLine + outputHeight in
  let endLine := if endLine >? len (outputLines m) then len (outputLines m) else endLine in
  (startLine, endLine).

(** ** Log files of earlier runs *)

(** [findMostRecentLogFile], over what [filepath.Glob] matched: each path
    with the modification time [os.Stat] reports for it, [None] when
    [os.Stat] fails.  The result [None] is the pair of the empty string and
    the zero time, which no modification time is after. *)
Definition findMostRecentLogFile (matches : list (LogPath * option Z))
  : option (LogPath * Z) :=
  fold_left
    (fun mostRecent '(f, info) =>
       match info with
       | None => mostRecent
       | Some modTime =>
           match mostRecent with
           | None => Some (f, modTime)
           | Some (_, mostRecentTime) =>
               if modTime >? mostRecentTime then Some (f, modTime) else mostRecent
           end
       end)
    matches None.

(** ** Discovery *)

(** [strings.HasSuffix s suffix]:
    [len(s) >= len(suffix) && s[len(s)-len(suffix):] == suffix]. *)
Definition HasSuffix (s suffix : string) : bool :=
  (String.length suffix <=? String.length s)%nat &&
  String.eqb
    (substring (String.length s - String.length suffix) (String.length suffix) s)
    suffix.

(** The expressions of [go/ast] that [isTestFunc] tells apart. *)
Inductive Expr :=
  | Ident (name : string)
  | SelectorExpr (x : Expr) (sel : string)
  | StarExpr (x : Expr)
  | OtherExpr.

(** An [*ast.Field]: one group of parameter names and their type. *)
Record Field := mkField {
  fieldNames : list string;
  fieldType : Expr
}.

(** An [*ast.FuncDecl]: [fn.Name.Name], [fn.Recv], [fn.Type.Params] ([None]
    is nil, else its [List]) and the line of [fn.Pos()]. *)
Record FuncDecl := mkFuncDecl {
  funcName : string;
  funcRecv : option Field;
  funcParams : option (list Field);
  funcLine : Z
}.

(** An element of [node.Decls]. *)
Inductive Decl :=
  | FuncD (fn : FuncDecl)
  | GenDecl.

Definition isTestFunc (fn : FuncDecl) : bool :=
  if negb (HasPrefix (funcName fn) "Test") then false
  else
    match funcParams fn with
    | Some [param] =>
        match fieldType param with
        | StarExpr (SelectorExpr (Ident ident) sel) =>
            String.eqb ident "testing" && String.eqb sel "T"
        | _ => false
        end
    | _ => false
    end.

#[local] Set Warnings "-register-all".

(** What [filepath.Walk] finds below a path: a file with what
    [parser.ParseFile] makes of it ([None]: it cannot be parsed), a directory
    with its entries in the order of their names ([readable] is unset when
    the directory cannot be read), or an entry on which [os.Lstat] fails.
    [name] is [info.Name()]. *)
Inductive Node :=
  | FileNode (name : string) (parsed : option (list Decl))
  | DirNode (name : string) (readable : bool) (entries : list Node)
  | BrokenNode (name : string).

Definition nodeName (n : Node) : string :=
  match n with
  | FileNode name _ | DirNode name _ _ | BrokenNode name => name
  end.

(** What the function handed to [filepath.Walk] returns: [nil],
    [filepath.SkipDir], or the error it was called with. *)
Inductive WalkErr := WalkNil | SkipDir | WalkFailed.

(** The function handed to [filepath.Walk], on a directory that could be
    read.  [isRoot] is [path == dir]. *)
Definition visitDir (recursive isRoot : bool) (name : string) : WalkErr :=
  if String.eqb name "vendor" || HasPrefix name "." then SkipDir
  else if negb recursive && negb isRoot then SkipDir
  else WalkNil.

(** The loop over [node.Decls]. *)
Definition declLoop (pkgDir path : string) (decls : list Decl) (tests : list TestInfo)
  : list TestInfo :=
  fold_left
    (fun tests decl =>
       match decl with
       | FuncD fn =>
           if isTestFunc fn
           then tests ++ [mkTestInfo (funcName fn) pkgDir path (funcLine fn)]
           else tests
       | GenDecl => tests
       end)
    decls tests.

(** The function handed to [filepath.Walk], on a file. *)
Definition visitFile (pkgDir path name : string) (parsed : option (list Decl))
    (tests : list TestInfo) : list TestInfo :=
  if negb (HasSuffix name "_test.go") then tests
  else
    match parsed with
    | None => tests
    | Some decls => declLoop pkgDir path decls tests
    end.

(** [strings.Split(s, "/")]: the segments of [s] between its slashes. *)
Fixpoint splitPath (s : string) : list string :=
  match s with
  | EmptyString => [EmptyString]
  | String c s' =>
      if Ascii.eqb c "/" then EmptyString :: splitPath s'
      else
        match splitPath s' with
        | seg :: segs => String c seg :: segs
        | [] => [String c EmptyString]
        end
  end.

(** One turn of the loop of [filepath.Clean], on the path element [elem]:
    [out] holds the elements written so far, the last one first.  An empty
    element and "." are dropped; ".." takes the last element away when there
    is one that is not "..", is dropped at the root of a rooted path, and is
    written otherwise; any other element is written. *)
Definition cleanElem (rooted : bool) (out : list string) (elem : string) : list string :=
  if String.eqb elem "" || String.eqb elem "." then out
  else if String.eqb elem ".." then
    match out with
    | last :: out' => if String.eqb last ".." then elem :: out else out'
    | [] => if rooted then [] else [elem]
    end
  else elem :: out.

(** [filepath.Clean] with "/" for the separator: the elements that are left,
    joined by single slashes, after the slash of a rooted path; "." when
    nothing is left of a path that is not rooted. *)
Definition Clean (path : string) : string :=
  let rooted := HasPrefix path "/" in
  let out := String.concat "/" (reverse (fold_left (cleanElem rooted) (splitPath path) [])) in
  if rooted then "/" +:+ out
  else if String.eqb out "" then "." else out.

(** [filepath.Join(path, name)]: the elements that are not empty, joined by
    a slash and cleaned. *)
Definition Join (path name : string) : string :=
  if String.eqb path "" then (if String.eqb name "" then "" else Clean name)
  else Clean (path +:+ "/" +:+ name).

(** [filepath.Rel(dir, filepath.Dir(path))] for a file below [dir], with "."
    replaced by the empty string: the names of the directories from [dir]
    down to the file. *)
Definition pkgDirOf (dirs : list string) : string := String.concat "/" dirs.

(** The loop of [walk] over the entries of a directory, [walkOne] being the
    walk of one entry: an error other than [SkipDir] ends it. *)
Definition walkEntries (walkOne : Node -> list TestInfo -> list TestInfo * WalkErr) :=
  fix loop (es : list Node) (tests : list TestInfo) : list TestInfo * WalkErr :=
    match es with
    | [] => (tests, WalkNil)
    | e :: es' =>
        let '(tests, err) := walkOne e tests in
        match err with
        | WalkFailed => (tests, WalkFailed)
        | _ => loop es' tests
        end
    end.

(** [walk] of [path/filepath], with the function [DiscoverTestsRecursive]
    hands to it: [dirs] are the directories from the root down to the one
    that holds the node, [tests] the slice the closure appends to.  The
    directory is read before the function is called, and a failure to read it
    is the error the function returns at once.  When the root itself is a
    file, [filepath.Dir(path)] is the directory that holds [dir], and
    [filepath.Rel] gives "..". *)
Fixpoint walk (recursive isRoot : bool) (dirs : list string) (path : string) (n : Node)
    (tests : list TestInfo) : list TestInfo * WalkErr :=
  match n with
  | BrokenNode _ => (tests, WalkFailed)
  | FileNode name parsed =>
      (visitFile (if isRoot then ".." else pkgDirOf dirs) path name parsed tests, WalkNil)
  | DirNode name readable entries =>
      if negb readable then (tests, WalkFailed)
      else
        match visitDir recursive isRoot name with
        | WalkNil =>
            let below := if isRoot then dirs else dirs ++ [name] in
            walkEntries
              (fun e tests => walk recursive false below (Join path (nodeName e)) e tests)
              entries tests
        | err => (tests, err)
        end
  end.

(** [DiscoverTestsRecursive(dir, recursive)] when [root] is what is found at
    [dir]: [filepath.Walk] turns [SkipDir] from the root into [nil]. *)
Definition DiscoverTestsRecursive (dir : string) (recursive : bool) (root : Node)
  : Discovery :=
  let '(tests, err) := walk recursive true [] dir root [] in
  mkDiscovery tests match err with WalkFailed => true | _ => false end.

Definition DiscoverTests (dir : string) (root : Node) : Discovery :=
  DiscoverTestsRecursive dir true root.

(** The function [fn] is declared in the file of name [fname] that the walk
    of the tree [n], found at [path], comes to at [file]. *)
Inductive declared : string -> Node -> string -> string -> FuncDecl -> Prop :=
  | declared_file path fname decls fn :
      FuncD fn ∈ decls -> declared path (FileNode fname (Some decls)) path fname fn
  | declared_dir path name readable entries e file fname fn :
      e ∈ entries -> declared (Join path (nodeName e)) e file fname fn ->
      declared path (DirNode name readable entries) file fname fn.

(** Induction on a tree, with the property known of the entries of a
    directory. *)
Section NodeInduction.
Variable P : Node -> Prop.
Hypothesis Pfile : forall name parsed, P (FileNode name parsed).
Hypothesis Pdir : forall name readable entries,
  Forall P entries -> P (DirNode name readable entries).
Hypothesis Pbroken : forall name, P (BrokenNode name).

Fixpoint Node_forall_ind (n : Node) : P n :=
  match n with
  | FileNode name parsed => Pfile name parsed
  | DirNode name readable entries =>
      Pdir name readable entries
        ((fix entries_ind (es : list Node) : Forall P es :=
            match es with
            | [] => Forall_nil_2 P
            | e :: es' => Forall_cons_2 P e es' (Node_forall_ind e) (entries_ind es')
            end) entries)
  | BrokenNode name => Pbroken name
  end.
End NodeInduction.

(** ** The two mutexes

    The transition system takes [StopTest] as one step and leaves out
    [notifyUpdate].  Here the sections of [StopTest] and of [tryStartNext]
    are separate, with the mutexes they take: [StopTest] holds [item.mu] from
    its first statement to its return and calls [notifyUpdate], which takes
    [r.mu]; [tryStartNext] holds [r.mu] and takes [item.mu] of each item it
    looks at. *)

(** Where the session stands in [StopTest(item)]. *)
Inductive StopPc :=
  | StopEntry      (* before [item.mu.Lock()] *)
  | StopLocked     (* holds [item.mu]; next is the [switch] *)
  | StopNotify     (* the status is reset; next is [r.mu.Lock()] of [notifyUpdate] *)
  | StopInNotify   (* holds [item.mu] and [r.mu] *)
  | StopUnlock     (* next is the deferred [item.mu.Unlock()] *)
  | StopDone.

(** Where a goroutine stands in [tryStartNext]. *)
Inductive ScanPc :=
  | ScanEntry            (* before [r.mu.Lock()] *)
  | ScanAt (i : nat)     (* holds [r.mu]; next is [item.mu.Lock()] of element [i] *)
  | ScanLocked (i : nat) (* holds [r.mu] and the mutex of element [i] *)
  | ScanDone.

Record Locks := mkLocks {
  lockHeap : Heap;
  lockList : list nat;
  lockRunner : TestRunner;
  stopItem : nat;
  stopPc : StopPc;
  scanPc : ScanPc;
  launchedFor : list nat
}.

(** The session holds the mutex of the item it stops. *)
Definition stopHoldsItem (s : Locks) : bool :=
  match stopPc s with
  | StopLocked | StopNotify | StopInNotify | StopUnlock => true
  | StopEntry | StopDone => false
  end.

(** The goroutine holds [r.mu]. *)
Definition scanHoldsRunner (s : Locks) : bool :=
  match scanPc s with
  | ScanAt _ | ScanLocked _ => true
  | ScanEntry | ScanDone => false
  end.

(** The next section of the session; [None] when it waits for a mutex or has
    returned.  What [StopTest] writes to the item is the first component of
    [StopTest] above; the [cancel()] of the running case takes no mutex. *)
Definition stopStep (s : Locks) : option Locks :=
  let move c h :=
    mkLocks h (lockList s) (lockRunner s) (stopItem s) c (scanPc s) (launchedFor s) in
  match stopPc s with
  | StopEntry =>
      match scanPc s with
      | ScanLocked i =>
          if bool_decide (lockList s !! i = Some (stopItem s)) then None
          else Some (move StopLocked (lockHeap s))
      | _ => Some (move StopLocked (lockHeap s))
      end
  | StopLocked =>
      it ← lockHeap s !! stopItem s;
      Some (move (if statusEqb (Status it) StatusQueued then StopNotify else StopUnlock)
              (<[stopItem s := (StopTest it).1]> (lockHeap s)))
  | StopNotify =>
      if scanHoldsRunner s then None else Some (move StopInNotify (lockHeap s))
  | StopInNotify => Some (move StopUnlock (lockHeap s))
  | StopUnlock => Some (move StopDone (lockHeap s))
  | StopDone => None
  end.

(** The next section of the goroutine: the condition of the outer loop is
    tested before element 0, a queued element is launched
    ([r.running++; go r.runTest(nextItem)]) and the scan starts again, and the
    end of the list without a queued element is the [break]. *)
Definition scanStep (s : Locks) : option Locks :=
  let move c r started :=
    mkLocks (lockHeap s) (lockList s) r (stopItem s) (stopPc s) c started in
  match scanPc s with
  | ScanEntry =>
      match stopPc s with
      | StopInNotify => None
      | _ => Some (move (ScanAt 0) (lockRunner s) (launchedFor s))
      end
  | ScanAt i =>
      if bool_decide (i = 0%nat)
         && negb (running (lockRunner s) <? maxParallel (lockRunner s))
      then Some (move ScanDone (lockRunner s) (launchedFor s))
      else
        match lockList s !! i with
        | None => Some (move ScanDone (lockRunner s) (launchedFor s))
        | Some q =>
            if stopHoldsItem s && bool_decide (q = stopItem s) then None
            else Some (move (ScanLocked i) (lockRunner s) (launchedFor s))
        end
  | ScanLocked i =>
      q ← lockList s !! i;
      if isQueued (lockHeap s) q
      then Some (move (ScanAt 0)
                   (mkRunner (logDir (lockRunner s)) (maxParallel (lockRunner s))
                      (running (lockRunner s) + 1))
                   (launchedFor s ++ [q]))
      else Some (move (ScanAt (S i)) (lockRunner s) (launchedFor s))
  | ScanDone => None
  end.

(** [true] is a step of the session, [false] one of the goroutine. *)
Definition lockStep (s : Locks) (session : bool) : option Locks :=
  if session then stopStep s else scanStep s.

Fixpoint lockRun (s : Locks) (tr : list bool) : option Locks :=
  match tr with
  | [] => Some s
  | th :: tr' => s' ← lockStep s th; lockRun s' tr'
  end.

(** The session calls [StopTest(p)] while a goroutine enters
    [tryStartNext]. *)
Definition stopping (h : Heap) (l : list nat) (r : TestRunner) (p : nat) : Locks :=
  mkLocks h l r p StopEntry ScanEntry [].

(** Neither has returned, and neither can take a step. *)
Definition deadlocked (s : Locks) : Prop :=
  stopPc s <> StopDone /\ scanPc s <> ScanDone
  /\ stopStep s = None /\ scanStep s = None.

(** ** Notions of the further properties *)

(** The cursor is on a row of the filtered list, or at 0 when the list is
    empty. *)
Definition cursorInRange (m : Model) : Prop :=
  0 <= cursor m <= Z.max 0 (len (filteredList m) - 1).

(** The two lists of the session, with [n] items allocated: the filtered
    list holds tests of [tests], each once, it is [tests] itself when the two
    are one slice, and every pointer is allocated. *)
Definition listsOk (n : nat) (m : Model) : Prop :=
  cursorInRange m
  /\ (aliased m = true -> filteredList m = tests m)
  /\ filteredList m ⊆+ tests m
  /\ NoDup (tests m)
  /\ forall p, p ∈ tests m -> (p < n)%nat.

Definition wellFormed (s : State) : Prop := listsOk (length (heap s)) (model s).

(** A goroutine that [running] still counts: it has not yet decremented the
    counter in [testFinished]. *)
Definition counted (k : Task) : bool :=
  match pc k with
  | PcStart | PcCreate | PcRun | PcFinished => true
  | PcRestart | PcDone => false
  end.

Definition countedTasks (s : State) : Z :=
  len (filter (fun k => counted k = true) (tasks s)).

(** [running] is the number of goroutines that have not yet decremented it,
    and a goroutine that holds the scheduler mutex is inside the
    [tryStartNext] of its [testFinished]. *)
Definition accounted (s : State) : Prop :=
  running (runner s) = countedTasks s
  /\ forall t, holder s = Some (Worker t) ->
       exists k, tasks s !! t = Some k /\ pc k = PcRestart.

(** A goroutine that has marked item [p] running and has not yet written a
    terminal status. *)
Definition marked (p : nat) (k : Task) : Prop :=
  taskItem k = p /\ (pc k = PcCreate \/ pc k = PcRun).

(** Every running item has a goroutine that will write its terminal
    status. *)
Definition runningHasTask (s : State) : Prop :=
  forall p it, heap s !! p = Some it -> Status it = StatusRunning ->
    exists t k, tasks s !! t = Some k /\ marked p k.

(** The tests a successful discovery returned, when the event is one. *)
Definition discovers (e : Event) : option (list TestInfo) :=
  match e with
  | Runs (ToggleRecursive d _) => if err d then None else Some (found d)
  | _ => None
  end.

(** The tests of the latest successful discovery: those [NewModel] was
    given, or those of the last "r" that found some without an error. *)
Definition lastFound (infos : list TestInfo) (evs : list Event) : list TestInfo :=
  fold_left (fun F e => default F (discovers e)) evs infos.

(** The tests of the session are those of the discovery [F], one item for
    each, that holds what was discovered of it: [tests] is a rearrangement of
    the [length F] pointers from [base] on, which the discovery allocated. *)
Definition holdsFound (F : list TestInfo) (s : State) : Prop :=
  exists base,
    tests (model s) ≡ₚ seq base (length F)
    /\ forall i info, F !! i = Some info -> Info <$> heap s !! (base + i)%nat = Some info.

(** Outside the filter prompt, the filtered list is a rearrangement of the
    tests that pass the test of [applyFilter] for the filter text. *)
Definition viewFiltered (s : State) : Prop :=
  filterMode (model s) = false ->
  filteredList (model s)
  ≡ₚ filter (fun p => containsFold (nameOf (heap s) p) (filterText (model s)) = true)
       (tests (model s)).

(** [m'] is [m] with the filtered list rearranged at most, and with it
    [tests] when the two are one slice. *)
Definition rearranged (m m' : Model) : Prop :=
  filteredList m' ≡ₚ filteredList m
  /\ tests m' = (if aliased m then filteredList m' else tests m)
  /\ aliased m' = aliased m
  /\ filterMode m' = filterMode m /\ filterText m' = filterText m.

(** A call of [SetMaxParallel] is one the keys "+" and "-" make:
    [SetMaxParallel(max + 1)], the sum being that of two [int]s, or
    [SetMaxParallel(max - 1)] when [max > 1]. *)
Definition setByKey (s : State) (l : Label) : bool :=
  match l with
  | DoSetMaxParallel n =>
      (n =? wrapInt (GetMaxParallel s + 1))
      || ((GetMaxParallel s >? 1) && (n =? GetMaxParallel s - 1))
  | _ => true
  end.

(** Every call of [SetMaxParallel] in the trace, run from [s], is made by a
    key. *)
Fixpoint setByKeys (s : State) (tr : list Label) : bool :=
  match tr with
  | [] => true
  | l :: tr' =>
      setByKey s l &&
      match step s l with
      | Some s' => setByKeys s' tr'
      | None => true
      end
  end.

(** ** Further scenarios *)

(** The view of [hiddenState] after the filter "test" was typed, which both
    tests match, with the cursor on the second. *)
Definition twoMatches : Model :=
  Eval vm_compute in
    setCursor 1 (applyFilter (heap hiddenState) (setFilter false "test" (model hiddenState))).

(** A window of 11 rows on a log of 12 lines, in tail mode. *)
Definition scrollDemo : Model :=
  mkModel [] 0 true SortByName false "" [] true
    ["l0"; "l1"; "l2"; "l3"; "l4"; "l5"; "l6"; "l7"; "l8"; "l9"; "ok"; "PASS"]
    4 true 0 NoLog None false "" [] 0 11.

(** A window of 8 rows on four tests, the cursor on the last. *)
Definition listDemo : Model :=
  mkModel [0; 1; 2; 3]%nat 3 true SortByName false "" [0; 1; 2; 3]%nat true []
    0 true 0 NoLog None false "" [] 0 8.

(** After [reordered], " " is pressed: the test under the cursor, C, is
    marked. *)
Definition markedEvents : list Event := (Runs <$> reordered) ++ [SelectionKey " "].

Definition markedState : State :=
  Eval vm_compute in
    default reorderedState
      (sessionRun (NewModel [testA; testB; testC; testD] "logs") markedEvents).

(** With the ceiling at 1, test A is queued and a goroutine is launched for
    it, which has not been scheduled yet. *)
Definition launched : list Label :=
  ceilingToOne ++ [DoQueueTest 0 100 100; Lock UI; StartNext; Unlock].

Definition launchedState : State :=
  Eval vm_compute in after [testA; testB] launched.

(** Then "t" is pressed on A. *)
Definition stoppedState : State :=
  Eval vm_compute in after [testA; testB] (launched ++ [DoStopTest 0]).

(** The log of test A is read while A runs. *)
Definition logReading : Reading := mkReading None (Some (200, ["=== RUN   TestA"; "PASS"])).

Definition refreshedModel : Model :=
  Eval vm_compute in
    default (model oneWaitingState)
      (refreshOutput (heap oneWaitingState) logReading (model oneWaitingState)).

(** A directory with one test file (a helper and two tests), a sub-directory,
    a vendored package and a hidden directory. *)
Definition testingT : Field := mkField ["t"] (StarExpr (SelectorExpr (Ident "testing") "T")).

Definition sampleFile : list Decl :=
  [GenDecl;
   FuncD (mkFuncDecl "TestQuickPass" None (Some [testingT]) 8);
   FuncD (mkFuncDecl "helper" None (Some []) 12);
   FuncD (mkFuncDecl "TestFail" None (Some [testingT]) 19)].

Definition sampleTree : Node :=
  DirNode "testdata" true
    [DirNode ".git" true [FileNode "x_test.go" (Some sampleFile)];
     FileNode "sample_test.go" (Some sampleFile);
     DirNode "sub" true [FileNode "deep_test.go" (Some sampleFile)];
     DirNode "vendor" true [FileNode "v_test.go" (Some sampleFile)]].

(** ** Tactics *)

(** Case analysis of a step that was taken. *)
Ltac step_inv H :=
  unfold step, uiStep, taskStep in H;
  repeat (first
    [ progress simplify_option_eq
    | match type of H with
      | context [match ?x with _ => _ end] => destruct x eqn:?
      | context [if ?x then _ else _] => destruct x eqn:?
      end ]).

(** * Properties *)

(** ** Package strings *)

Section GoStrings.
Local Arguments String.append !_ _ / : simpl nomatch.
Implicit Types s t pre post : string.

(** [HasPrefix] and [Contains] decide what their names say. *)
Lemma HasPrefix_app s prefix :
  HasPrefix s prefix = true <-> exists post, s = prefix +:+ post.
Proof.
  revert s. induction prefix as [|p prefix IH]; intros s; simpl.
  - split; [intros _; by exists s | done].
  - destruct s as [|c s].
    + split; [done | intros [post H]; discriminate H].
    + destruct (Ascii.eqb_spec c p) as [->|Hne].
      * rewrite IH. split; intros [post H]; exists post; simpl in *; congruence.
      * split; [done | intros [post H]; simpl in H; congruence].
Qed.

Lemma Contains_app s substr :
  Contains s substr = true <->
  exists pre post, s = pre +:+ substr +:+ post.
Proof.
  induction s as [|c s IH]; simpl; rewrite orb_true_iff, HasPrefix_app.
  - split.
    + intros [[post H]|H]; [|done]. by exists EmptyString, post.
    + intros (pre & post & H). left. destruct pre; [by exists post | discriminate H].
  - rewrite IH. split.
    + intros [[post H]|(pre & post & H)].
      * by exists EmptyString, post.
      * exists (String c pre), post. simpl. by rewrite H.
    + intros (pre & post & H). destruct pre as [|d pre]; simpl in H.
      * left. by exists post.
      * right. exists pre, post. congruence.
Qed.

(** [ToLower] works byte by byte: it commutes with splitting a string. *)
Lemma ToLower_app s t : ToLower (s +:+ t) = ToLower s +:+ ToLower t.
Proof. induction s as [|c s IH]; simpl; [done | by rewrite IH]. Qed.

Lemma ToLower_split s a b :
  ToLower s = a +:+ b ->
  exists s1 s2, s = s1 +:+ s2 /\ ToLower s1 = a /\ ToLower s2 = b.
Proof.
  revert s. induction a as [|c a IH]; intros s H; simpl in H.
  - by exists EmptyString, s.
  - destruct s as [|d s]; [discriminate H |]. simpl in H.
    injection H as Hc H. destruct (IH _ H) as (s1 & s2 & -> & <- & <-).
    exists (String d s1), s2. simpl. by rewrite Hc.
Qed.

(** The small letter of a capital is the byte 32 above it. *)
Lemma smallOf_spec small capital :
  smallOf small capital <->
  (65 <= nat_of_ascii capital <= 90)%nat
  /\ nat_of_ascii small = (nat_of_ascii capital + 32)%nat.
Proof.
  split.
  - intros (i & Hc & Hs).
    do 26 (destruct i as [|i]; [injection Hc as <-; injection Hs as <-; vm_compute; lia |]).
    discriminate Hc.
  - intros [Hc Hs]. exists (nat_of_ascii capital - 65)%nat.
    assert (small = ascii_of_nat (nat_of_ascii capital + 32)) as ->.
    { rewrite <- Hs. by rewrite ascii_nat_embedding. }
    destruct capital as [[] [] [] [] [] [] [] []]; cbv in Hc; try lia; by vm_compute.
Qed.

(** [lowerByte] sends two bytes to the same byte exactly when they are equal
    up to case. *)
Lemma lowerByte_sameLetter c d : lowerByte c = lowerByte d <-> sameLetter c d.
Proof.
  unfold sameLetter. rewrite !smallOf_spec. unfold lowerByte.
  assert (forall a b : ascii, a = b <-> nat_of_ascii a = nat_of_ascii b) as Hinj.
  { intros a b. split; [by intros -> |]. intros H.
    rewrite <- (ascii_nat_embedding a), <- (ascii_nat_embedding b). by rewrite H. }
  pose proof (nat_ascii_bounded c). pose proof (nat_ascii_bounded d).
  destruct (Nat.leb_spec 65 (nat_of_ascii c)), (Nat.leb_spec (nat_of_ascii c) 90),
    (Nat.leb_spec 65 (nat_of_ascii d)), (Nat.leb_spec (nat_of_ascii d) 90); cbn [andb];
    rewrite !Hinj, ?nat_ascii_embedding by lia; lia.
Qed.

Lemma sameFold_ToLower s t : sameFold s t <-> ToLower s = ToLower t.
Proof.
  split.
  - induction 1 as [|c d s t Hc%lowerByte_sameLetter _ IH]; simpl; congruence.
  - revert t. induction s as [|c s IH]; intros [|d t] H; try discriminate H.
    + constructor.
    + simpl in H. injection H as Hc%lowerByte_sameLetter H. constructor; auto.
Qed.

(** The program's test is containment up to case. *)
Lemma containsFold_occursFold s text :
  containsFold s text = true <-> occursFold text s.
Proof.
  unfold containsFold, occursFold. rewrite Contains_app. split.
  - intros (pre & post & H).
    apply ToLower_split in H as (s1 & s' & -> & <- & H).
    apply ToLower_split in H as (s2 & s3 & -> & H & <-).
    exists s1, s2, s3. split; [done | by apply sameFold_ToLower].
  - intros (pre & mid & post & -> & H%sameFold_ToLower).
    exists (ToLower pre), (ToLower post). by rewrite !ToLower_app, H.
Qed.
End GoStrings.

(** ** The session: filter, cursor, sort *)

Section Session.
Implicit Types (h : Heap) (m : Model) (l out : list nat) (p : nat).

Lemma len_nonneg {A} (l : list A) : 0 <= len l.
Proof. unfold len. lia. Qed.

Lemma index_Some {A} (l : list A) i x :
  index l i = Some x <-> 0 <= i /\ l !! Z.to_nat i = Some x.
Proof.
  unfold index. destruct (Z.ltb_spec i 0); split; try done; intros []; try done; lia.
Qed.

Lemma index_lt_len {A} (l : list A) i x : index l i = Some x -> 0 <= i < len l.
Proof.
  intros [? H%lookup_lt_Some]%index_Some. unfold len. lia.
Qed.

Lemma index_elem_of {A} (l : list A) i x : index l i = Some x -> x ∈ l.
Proof. intros [_ H]%index_Some. by eapply list_elem_of_lookup_2. Qed.

(** The loop of [applyFilter] is a filter that keeps the order. *)
Lemma filterLoop_acc h f ts acc :
  fold_left
    (fun acc t => if Contains (ToLower (nameOf h t)) f then acc ++ [t] else acc) ts acc
  = acc ++ filter (fun t => Contains (ToLower (nameOf h t)) f = true) ts.
Proof.
  revert acc. induction ts as [|t ts IH]; intros acc; simpl.
  - by rewrite app_nil_r.
  - rewrite IH, filter_cons. destruct (Contains _ f) eqn:E.
    + rewrite decide_True by done. by rewrite <- app_assoc.
    + rewrite decide_False by done. done.
Qed.

Lemma filterLoop_filter h f ts :
  filterLoop h f ts = filter (fun t => Contains (ToLower (nameOf h t)) f = true) ts.
Proof. apply (filterLoop_acc h f ts []). Qed.

Lemma Contains_empty s : Contains s "" = true.
Proof. by destruct s. Qed.

Lemma applyFilter_list h m :
  filteredList (applyFilter h m)
  = filter (fun p => containsFold (nameOf h p) (filterText m) = true) (tests m).
Proof.
  unfold applyFilter. destruct (String.eqb_spec (filterText m) "") as [E|E]; simpl.
  - rewrite E. symmetry. induction (tests m) as [|p l IH]; [done |].
    rewrite filter_cons_True by apply Contains_empty. by rewrite IH.
  - apply filterLoop_filter.
Qed.

(** The cursor after [applyFilter] is inside the list, and is not moved
    when it was. *)
Lemma adjustCursor_bounds c n :
  0 <= n ->
  0 <= adjustCursor c n /\
  (0 < n -> adjustCursor c n < n) /\
  (0 <= c < n -> adjustCursor c n = c) /\
  (n <= c -> adjustCursor c n = Z.max 0 (n - 1)).
Proof.
  intros Hn. unfold adjustCursor.
  destruct (Z.geb_spec c n); [destruct (Z.ltb_spec (n - 1) 0) | destruct (Z.ltb_spec c 0)]; lia.
Qed.

Lemma applyFilter_cursor h m :
  cursor (applyFilter h m)
  = adjustCursor (cursor m) (len (filteredList (applyFilter h m))).
Proof. unfold applyFilter. by destruct (String.eqb _ _). Qed.

(** The loop that restores the cursor finds a position of the item. *)
Lemma positionOf_index p l :
  p ∈ l -> exists i, positionOf p l = Some i /\ index l i = Some p.
Proof.
  induction l as [|x l IH]; [by intros ?%elem_of_nil |]. simpl.
  destruct (Nat.eqb_spec x p) as [->|Hne]; intros Hin.
  - by exists 0.
  - apply elem_of_cons in Hin as [->|Hin]; [done |].
    destruct (IH Hin) as (i & -> & Hi). exists (Z.succ i). split; [done |].
    apply index_Some in Hi as [? Hi]. apply index_Some. split; [lia |].
    by replace (Z.to_nat (Z.succ i)) with (S (Z.to_nat i)) by lia.
Qed.

Lemma sortOutcome_perm lt l out : sortOutcome lt l out = true -> out ≡ₚ l.
Proof. unfold sortOutcome. intros [H _]%andb_true_iff. by apply bool_decide_eq_true in H. Qed.

(** [applySorting] leaves the cursor on the item it was on. *)
Lemma applySorting_follows h out m p :
  index (filteredList m) (cursor m) = Some p ->
  sortOutcome (less h (sortMode m)) (filteredList m) out = true ->
  exists i, applySorting h out m = Some (setCursor i (writeFiltered out m))
            /\ index out i = Some p.
Proof.
  intros Hp Hout. unfold applySorting.
  pose proof (index_lt_len _ _ _ Hp) as Hc.
  replace (len (filteredList m) >? 0) with true by (symmetry; apply Z.gtb_lt; lia).
  replace (cursor m <? len (filteredList m)) with true by (symmetry; apply Z.ltb_lt; lia).
  simpl. rewrite Hp. simpl. rewrite Hout.
  assert (p ∈ out) as Hin.
  { rewrite (sortOutcome_perm _ _ _ Hout). by eapply index_elem_of. }
  destruct (positionOf_index p out Hin) as (i & Hi & Hi').
  exists i. by rewrite Hi.
Qed.
End Session.

(** ** [sort.Slice] leaves some outcome *)

Section Sorting.
Variable lt : nat -> nat -> bool.
Hypothesis lt_asym : forall x y, lt x y = true -> lt y x = false.

(** Insertion sort rearranges its input and leaves it ordered, for a
    comparison that is asymmetric. *)
Lemma insertSorted_perm x l : insertSorted lt x l ≡ₚ x :: l.
Proof.
  induction l as [|y l IH]; simpl; [done |].
  destruct (lt y x); [| done]. rewrite IH. apply Permutation_swap.
Qed.

Lemma insertionSort_perm l : insertionSort lt l ≡ₚ l.
Proof.
  induction l as [|x l IH]; simpl; [done |].
  fold (insertionSort lt l). by rewrite insertSorted_perm, IH.
Qed.

Lemma ordered_cons x l :
  ordered lt (x :: l) = match l with [] => true | y :: _ => negb (lt y x) && ordered lt l end.
Proof. by destruct l. Qed.

Lemma insertSorted_ordered x l :
  ordered lt l = true -> ordered lt (insertSorted lt x l) = true.
Proof.
  induction l as [|y l IH]; [done |]. intros Hl.
  cbn [insertSorted]. destruct (lt y x) eqn:Hyx.
  - rewrite ordered_cons in Hl. rewrite ordered_cons.
    destruct l as [|z l]; cbn [insertSorted] in *.
    + by rewrite (lt_asym _ _ Hyx).
    + apply andb_true_iff in Hl as [Hzy Hl]. specialize (IH Hl).
      destruct (lt z x); rewrite IH, ?andb_true_r; [done |].
      by rewrite (lt_asym _ _ Hyx).
  - rewrite ordered_cons. by rewrite Hyx, Hl.
Qed.

Lemma insertionSort_outcome l : sortOutcome lt l (insertionSort lt l) = true.
Proof.
  unfold sortOutcome. apply andb_true_iff. split.
  - apply bool_decide_eq_true, insertionSort_perm.
  - induction l as [|x l IH]; [done |]. by apply insertSorted_ordered.
Qed.
End Sorting.

(** The three comparisons of [applySorting] are asymmetric. *)
Lemma ltb_asym s t : String.ltb s t = true -> String.ltb t s = false.
Proof.
  unfold String.ltb. rewrite (String.compare_antisym t s).
  by destruct (String.compare s t).
Qed.

Lemma less_asym h mode a b : less h mode a b = true -> less h mode b a = false.
Proof.
  unfold less. destruct mode.
  - apply ltb_asym.
  - destruct (selectedOf h a), (selectedOf h b); simpl; try done; apply ltb_asym.
  - rewrite (Z.eqb_sym (statusValueOf h b)).
    destruct (Z.eqb_spec (statusValueOf h a) (statusValueOf h b)); simpl.
    + apply ltb_asym.
    + rewrite !Z.gtb_ltb. intros H%Z.ltb_lt. apply Z.ltb_ge. lia.
Qed.

Lemma sortOutcome_exists h mode l : exists out, sortOutcome (less h mode) l out = true.
Proof. exists (insertionSort (less h mode) l). apply insertionSort_outcome, less_asym. Qed.

(** ** Search *)

Section Search.
Implicit Types (m : Model) (lines : list string) (acc : list Z).

(** The loop of [performSearch] appends, in order, the index of every line
    that contains the text. *)
Lemma searchLoop_acc f i lines acc :
  searchLoop f i lines acc = acc ++ searchLoop f i lines [].
Proof.
  revert i acc. induction lines as [|line lines IH]; intros i acc; simpl.
  - by rewrite app_nil_r.
  - rewrite IH. rewrite (IH _ (if Contains _ f then _ else _)).
    destruct (Contains _ f); by rewrite ?app_nil_r, <- ?app_assoc.
Qed.

Lemma searchLoop_cons f i line lines :
  searchLoop f i (line :: lines) []
  = (if Contains (ToLower line) f then [i] else []) ++ searchLoop f (i + 1) lines [].
Proof. simpl. rewrite searchLoop_acc. by destruct (Contains _ f). Qed.

Lemma searchLoop_elem f lines i j :
  j ∈ searchLoop f i lines [] <->
  exists k line, lines !! k = Some line /\ j = i + Z.of_nat k
                 /\ Contains (ToLower line) f = true.
Proof.
  revert i. induction lines as [|line lines IH]; intros i.
  - simpl. split; [by intros ?%elem_of_nil | by intros (k & ? & ? & _)].
  - rewrite searchLoop_cons, elem_of_app, IH. split.
    + intros [H|(k & l' & Hk & -> & Hc)].
      * destruct (Contains (ToLower line) f) eqn:E; [| by apply elem_of_nil in H].
        apply list_elem_of_singleton in H as ->. exists 0%nat, line. split_and!; [done | lia | done].
      * exists (S k), l'. split_and!; [done | lia | done].
    + intros ([|k] & l' & Hk & -> & Hc); simpl in Hk.
      * injection Hk as ->. left. rewrite Hc.
        apply list_elem_of_singleton. lia.
      * right. exists k, l'. split_and!; [done | lia | done].
Qed.

Lemma searchLoop_sorted f lines i :
  StronglySorted Z.lt (searchLoop f i lines []).
Proof.
  revert i. induction lines as [|line lines IH]; intros i.
  - constructor.
  - rewrite searchLoop_cons. destruct (Contains _ f); simpl; [| apply IH].
    constructor; [apply IH |]. apply Forall_forall. intros j Hj.
    apply searchLoop_elem in Hj as (k & _ & _ & -> & _). lia.
Qed.

Lemma performSearch_matches m :
  searchText m <> "" ->
  searchMatches (performSearch m)
  = searchLoop (ToLower (searchText m)) 0 (outputLines m) [].
Proof.
  intros H. unfold performSearch. simpl.
  by destruct (String.eqb_spec (searchText m) "").
Qed.

Lemma performSearch_idx m : currentMatchIdx (performSearch m) = -1.
Proof. unfold performSearch. simpl. by destruct (String.eqb _ _). Qed.

Lemma index_is_Some {A} (l : list A) i : 0 <= i < len l -> is_Some (index l i).
Proof.
  intros H. unfold index. destruct (Z.ltb_spec i 0); [lia |].
  apply lookup_lt_is_Some. unfold len in H. lia.
Qed.
End Search.

(** ** Steps of the scheduler *)

Section Scheduler.
Implicit Types (s : State) (l : Label) (p q t : nat) (h : Heap) (it : TestItem)
  (ps pre post : list nat).

(** The counters change as [runnerAfter] says. *)
Lemma step_runner s l s' : step s l = Some s' -> runner s' = runnerAfter s l.
Proof.
  intros H. destruct l; simpl in H; step_inv H; repeat case_match; done.
Qed.

Lemma nextItem_Some s p :
  nextItem s = Some p ->
  running (runner s) < maxParallel (runner s)
  /\ firstQueued (heap s) (filteredList (model s)) = Some p.
Proof.
  unfold nextItem. destruct (Z.ltb_spec (running (runner s)) (maxParallel (runner s))); by intros.
Qed.

Lemma step_StartNext s s' :
  step s StartNext = Some s' ->
  exists p, nextItem s = Some p /\ s' = startTest p s.
Proof. intros H. step_inv H. eauto. Qed.

(** The scan returns the first queued item of the list. *)
Lemma firstQueued_Some h ps p :
  firstQueued h ps = Some p ->
  exists pre post, ps = pre ++ p :: post /\ isQueued h p = true
                   /\ forall q, q ∈ pre -> isQueued h q = false.
Proof.
  induction ps as [|x ps IH]; [done |]. simpl. destruct (isQueued h x) eqn:E.
  - intros [= ->]. exists [], ps. split_and!; [done.. |]. by intros q ?%elem_of_nil.
  - intros (pre & post & -> & Hp & Hpre)%IH. exists (x :: pre), post.
    split_and!; [done.. |]. intros q [->|?]%elem_of_cons; auto.
Qed.

Lemma firstQueued_first h pre p post :
  (forall q, q ∈ pre -> isQueued h q = false) -> isQueued h p = true ->
  firstQueued h (pre ++ p :: post) = Some p.
Proof.
  intros Hpre Hp. induction pre as [|x pre IH]; simpl.
  - by rewrite Hp.
  - rewrite (Hpre x) by apply list_elem_of_here. apply IH.
    intros q Hq. apply Hpre. by apply list_elem_of_further.
Qed.

Lemma firstQueued_not h ps p : isQueued h p = false -> firstQueued h ps <> Some p.
Proof. intros Hp (? & ? & _ & Hq & _)%firstQueued_Some. congruence. Qed.

Lemma firstQueued_elem h ps p : firstQueued h ps = Some p -> p ∈ ps.
Proof.
  intros (pre & post & -> & _)%firstQueued_Some.
  apply elem_of_app. right. apply list_elem_of_here.
Qed.

(** Writing to one item leaves the status of the others. *)
Lemma isQueued_insert h q it p :
  isQueued (<[q := it]> h) p
  = if decide (q = p /\ (q < length h)%nat) then statusEqb (Status it) StatusQueued
    else isQueued h p.
Proof.
  unfold isQueued. case_decide as H.
  - destruct H as [-> H]. by rewrite list_lookup_insert_eq.
  - destruct (decide (q = p)) as [->|Hne].
    + by rewrite list_insert_ge by lia.
    + by rewrite list_lookup_insert_ne.
Qed.

Lemma isQueued_alter h f q p :
  (forall it, statusEqb (Status (f it)) StatusQueued = false) ->
  isQueued h p = false -> isQueued (alter f q h) p = false.
Proof.
  intros Hf. unfold isQueued. destruct (decide (q = p)) as [->|Hne].
  - rewrite list_lookup_alter_eq. destruct (h !! p); simpl; auto.
  - by rewrite list_lookup_alter_ne.
Qed.

Lemma isQueued_app_new h infos p :
  isQueued (h ++ (newItem <$> infos)) p = isQueued h p.
Proof.
  unfold isQueued. destruct (decide (p < length h)%nat).
  - by rewrite lookup_app_l.
  - rewrite lookup_app_r, (lookup_ge_None_2 h) by lia.
    rewrite list_lookup_fmap. by destruct (infos !! _).
Qed.

Lemma StopTest_not_queued it :
  statusEqb (Status (StopTest it).1) StatusQueued = false.
Proof. unfold StopTest. by destruct (Status it) eqn:E; simpl; rewrite ?E. Qed.

Lemma QueueTest_Some dir now stamp it it' :
  QueueTest dir now stamp it = Some it' ->
  it' = mkTestItem (Info it) StatusQueued (Selected it) (LogAt dir (Name (Info it)) stamp)
          (Some now) (StartedAt it) (FinishedAt it) (cancel it)
  /\ Status it <> StatusRunning /\ Status it <> StatusQueued.
Proof. unfold QueueTest. destruct (Status it); simpl; intros [= <-]; done. Qed.

Lemma rediscoverTests_heap d out h m h' m' :
  rediscoverTests d out h m = Some (h', m') ->
  h' = if err d then h else h ++ (newItem <$> found d).
Proof.
  unfold rediscoverTests. destruct (err d); [by intros [= <- _] |].
  intros H. simplify_option_eq. done.
Qed.

(** Only [QueueTest] makes an item queued. *)
Lemma step_isQueued s l s' p :
  step s l = Some s' -> requeues p l = false ->
  isQueued (heap s) p = false -> isQueued (heap s') p = false.
Proof.
  intros H Hl Hp. destruct l; simpl in H, Hl; step_inv H;
    repeat case_match; simpl; try done;
    try (apply isQueued_alter; [intros ?; simpl; by repeat case_match | done]).
  - rewrite isQueued_insert. case_decide as Hq; [| done].
    destruct Hq as [-> _]. by rewrite Nat.eqb_refl in Hl.
  - rewrite isQueued_insert. case_decide; [| done].
    match goal with E : StopTest ?x = _ |- _ =>
      pose proof (StopTest_not_queued x) as Hs; by rewrite E in Hs end.
  - rewrite isQueued_insert. case_decide; [| done].
    match goal with E : StopTest ?x = _ |- _ =>
      pose proof (StopTest_not_queued x) as Hs; by rewrite E in Hs end.
  - match goal with E : toggleRecursive _ _ _ _ = _ |- _ =>
      apply rediscoverTests_heap in E as -> end.
    destruct (err d); [done |]. by rewrite isQueued_app_new.
Qed.
End Scheduler.

(** ** Moves and sorts rearrange the list *)

Section Lists.
Implicit Types (m : Model) (h : Heap) (ps pre post : list nat) (p q : nat).

(** Exchanging two neighbours of a slice. *)
Lemma swap_neighbours ps (i : nat) x y :
  ps !! i = Some x -> ps !! S i = Some y ->
  exists pre post,
    ps = pre ++ x :: y :: post /\ length pre = i /\
    <[i := y]> (<[S i := x]> ps) = pre ++ y :: x :: post /\
    <[S i := x]> (<[i := y]> ps) = pre ++ y :: x :: post.
Proof.
  revert ps. induction i as [|i IH]; intros [|a ps] Hx Hy; try done.
  - destruct ps as [|b ps]; [done |]. simpl in *. simplify_eq.
    by exists [], ps.
  - simpl in Hx, Hy. destruct (IH ps Hx Hy) as (pre & post & -> & <- & E1 & E2).
    exists (a :: pre), post. simpl. by rewrite E1, E2.
Qed.

Lemma moveItemUp_shape m pre q p post :
  filteredList m = pre ++ q :: p :: post -> cursor m = len pre + 1 ->
  moveItemUp m
  = Some (setCursor (len pre) (writeFiltered (pre ++ p :: q :: post) m)).
Proof.
  intros Hl Hc. unfold moveItemUp.
  assert (len (filteredList m) = len pre + 2 + len post) as Hlen.
  { rewrite Hl. unfold len. rewrite length_app. simpl. lia. }
  pose proof (len_nonneg pre). pose proof (len_nonneg post).
  replace (cursor m <=? 0) with false by (symmetry; apply Z.leb_gt; lia).
  replace (len (filteredList m) =? 0) with false by (symmetry; apply Z.eqb_neq; lia).
  simpl. unfold swap, index.
  replace (cursor m <? 0) with false by (symmetry; apply Z.ltb_ge; lia).
  replace (cursor m - 1 <? 0) with false by (symmetry; apply Z.ltb_ge; lia).
  replace (Z.to_nat (cursor m)) with (S (length pre)) by (unfold len in *; lia).
  replace (Z.to_nat (cursor m - 1)) with (length pre) by (unfold len in *; lia).
  assert (filteredList m !! length pre = Some q) as Hq.
  { rewrite Hl. by rewrite list_lookup_middle. }
  assert (filteredList m !! S (length pre) = Some p) as Hp.
  { rewrite Hl. rewrite (lookup_app_r pre) by lia.
    by replace (S (length pre) - length pre)%nat with 1%nat by lia. }
  rewrite Hp, Hq. simpl.
  destruct (swap_neighbours _ _ _ _ Hq Hp) as (pre' & post' & E & Elen & _ & E2).
  rewrite Hl in E. apply app_inj_1 in E as [<- [= <-]]; [| done].
  rewrite E2. by replace (cursor m - 1) with (len pre) by lia.
Qed.

Lemma swap_perm ps i j ps' :
  (j = i - 1 \/ j = i + 1) -> swap ps i j = Some ps' -> ps' ≡ₚ ps.
Proof.
  intros Hj. unfold swap. destruct (index ps i) as [x|] eqn:Hx; [| done].
  destruct (index ps j) as [y|] eqn:Hy; [| done]. intros [= <-].
  apply index_Some in Hx as [? Hx]. apply index_Some in Hy as [? Hy].
  destruct Hj as [-> | ->].
  - replace (Z.to_nat i) with (S (Z.to_nat (i - 1))) in * by lia.
    destruct (swap_neighbours _ _ _ _ Hy Hx) as (pre & post & E & _ & _ & ->).
    rewrite E. apply Permutation_app_head, Permutation_swap.
  - replace (Z.to_nat (i + 1)) with (S (Z.to_nat i)) in * by lia.
    destruct (swap_neighbours _ _ _ _ Hx Hy) as (pre & post & E & _ & -> & _).
    rewrite E. apply Permutation_app_head, Permutation_swap.
Qed.

Lemma moveItemUp_perm m m' :
  moveItemUp m = Some m' -> filteredList m' ≡ₚ filteredList m.
Proof.
  unfold moveItemUp. case_match; [by intros [= <-] |].
  destruct (swap _ _ _) as [ps|] eqn:E; [| done]. intros [= <-]. simpl.
  eapply swap_perm; [| done]. lia.
Qed.

Lemma moveItemDown_perm m m' :
  moveItemDown m = Some m' -> filteredList m' ≡ₚ filteredList m.
Proof.
  unfold moveItemDown. case_match; [by intros [= <-] |].
  destruct (swap _ _ _) as [ps|] eqn:E; [| done]. intros [= <-]. simpl.
  eapply swap_perm; [| done]. lia.
Qed.

Lemma applySorting_perm h out m m' :
  applySorting h out m = Some m' -> filteredList m' ≡ₚ filteredList m.
Proof.
  unfold applySorting. intros H. simplify_option_eq.
  destruct (sortOutcome _ _ _) eqn:E; [| done].
  apply sortOutcome_perm in E. simplify_eq. by repeat case_match.
Qed.

Lemma refreshOutput_list h r m m' :
  refreshOutput h r m = Some m' ->
  filteredList m' = filteredList m /\ cursor m' = cursor m.
Proof.
  unfold refreshOutput, clearOutput. intros H.
  repeat (simplify_option_eq || case_match); done.
Qed.

Lemma cursorUp_list h r m m' :
  cursorUp h r m = Some m' -> filteredList m' = filteredList m.
Proof.
  unfold cursorUp, resetOutputScroll. case_match; [| by intros [= <-]].
  by intros [-> _]%refreshOutput_list.
Qed.

Lemma cursorDown_list h r m m' :
  cursorDown h r m = Some m' -> filteredList m' = filteredList m.
Proof.
  unfold cursorDown, resetOutputScroll. case_match; [| by intros [= <-]].
  by intros [-> _]%refreshOutput_list.
Qed.
End Lists.

(** ** Runs *)

Section Traces.
Implicit Types (s : State) (l : Label) (tr : list Label) (p q t : nat) (h : Heap)
  (it : TestItem) (ps : list nat).

(** A step that does not call [applyFilter] rearranges the filtered list at
    most. *)
Lemma step_filtered s l s' :
  step s l = Some s' -> refilters l = false ->
  filteredList (model s') ≡ₚ filteredList (model s).
Proof.
  intros H Hl. destruct l; simpl in H, Hl; try done; step_inv H;
    repeat case_match; simpl; try done.
  - by match goal with E : refreshOutput _ _ _ = _ |- _ =>
      apply refreshOutput_list in E as [-> _] end.
  - by match goal with E : cursorUp _ _ _ = _ |- _ => apply cursorUp_list in E as -> end.
  - by match goal with E : cursorDown _ _ _ = _ |- _ => apply cursorDown_list in E as -> end.
  - by apply moveItemUp_perm.
  - by apply moveItemDown_perm.
  - match goal with E : toggleSortMode _ _ _ = _ |- _ =>
      unfold toggleSortMode in E; by apply applySorting_perm in E end.
Qed.

Lemma filter_alter_length (P : Task -> Prop) `{!forall k, Decision (P k)} f t (ks : list Task) :
  (forall k, P (f k) <-> P k) ->
  length (filter P (alter f t ks)) = length (filter P ks).
Proof.
  intros Hf. revert t. induction ks as [|k ks IH]; intros [|t]; try done.
  - change (alter f 0%nat (k :: ks)) with (f k :: ks). rewrite !filter_cons.
    destruct (decide (P (f k))), (decide (P k)); try done; destruct (Hf k); tauto.
  - change (alter f (S t) (k :: ks)) with (k :: alter f t ks). rewrite !filter_cons.
    destruct (decide (P k)); rewrite ?length_cons; by rewrite IH.
Qed.

Lemma startedCount_alter p f t s :
  (forall k, taskItem (f k) = taskItem k) ->
  startedCount p (setTasks (alter f t (tasks s)) s) = startedCount p s.
Proof.
  intros Hf. unfold startedCount. simpl. apply filter_alter_length.
  intros k. by rewrite Hf.
Qed.

Lemma startedCount_startTest p q s :
  startedCount p (startTest q s)
  = (startedCount p s + if decide (q = p) then 1 else 0)%nat.
Proof.
  unfold startedCount, startTest. simpl. rewrite filter_app, length_app.
  f_equal. rewrite filter_cons, filter_nil. simpl. by destruct (decide (q = p)).
Qed.

(** Only [StartNext] creates a goroutine, and it creates it for the item
    its scan found. *)
Lemma step_startedCount s l s' p :
  step s l = Some s' ->
  startedCount p s'
  = (startedCount p s +
     match l with
     | StartNext => if decide (nextItem s = Some p) then 1 else 0
     | _ => 0
     end)%nat.
Proof.
  intros H. destruct l; simpl in H; step_inv H; repeat case_match;
    simplify_eq; rewrite ?Nat.add_0_r;
    try done;
    try (unfold moveTask; by rewrite startedCount_alter);
    try (by rewrite (startedCount_alter p cancelTask _ (setHeap _ s))).
  all: rewrite startedCount_startTest; repeat case_decide; simplify_eq; done || lia.
Qed.

(** [GetQueuedCount] counts the queued items of the filtered list. *)
Lemma GetQueuedCount_acc h ps n :
  fold_left (fun count p => if isQueued h p then count + 1 else count) ps n
  = n + len (filter (fun p => isQueued h p = true) ps).
Proof.
  revert n. induction ps as [|p ps IH]; intros n; simpl.
  - unfold len. simpl. lia.
  - rewrite IH, filter_cons. case_decide as E.
    + rewrite E. unfold len. simpl. lia.
    + apply not_true_is_false in E. by rewrite E.
Qed.

Lemma GetQueuedCount_filter s :
  GetQueuedCount s = len (filter (fun p => isQueued (heap s) p = true) (filteredList (model s))).
Proof. unfold GetQueuedCount. by rewrite GetQueuedCount_acc. Qed.

Lemma GetQueuedCount_outside s p it :
  p ∉ filteredList (model s) ->
  GetQueuedCount (setHeap (<[p := it]> (heap s)) s) = GetQueuedCount s.
Proof.
  intros Hp. rewrite !GetQueuedCount_filter. simpl. f_equal.
  induction (filteredList (model s)) as [|q ps IH]; [done |].
  apply not_elem_of_cons in Hp as [Hne Hp]. rewrite !filter_cons, IH by done.
  replace (isQueued (<[p:=it]> (heap s)) q) with (isQueued (heap s) q); [done |].
  unfold isQueued. by rewrite list_lookup_insert_ne.
Qed.

(** *** Runs *)

(** A property of states kept by every step of a class of labels is kept
    by every run of such labels. *)
Lemma run_invariant (ok : Label -> bool) (I : State -> Prop) :
  (forall s l s', step s l = Some s' -> ok l = true -> I s -> I s') ->
  forall tr s s', forallb ok tr = true -> run s tr = Some s' -> I s -> I s'.
Proof.
  intros Hstep. induction tr as [|l tr IH]; intros s s' Hok Hrun HI; simpl in *.
  - by simplify_eq.
  - apply andb_true_iff in Hok as [Hl Hok].
    destruct (step s l) as [s1|] eqn:E; [| done]. simpl in Hrun. eauto.
Qed.

(** The ceiling is respected as long as it is not put under the running
    count. *)
Lemma run_ceiling tr s s' :
  running (runner s) <= maxParallel (runner s) ->
  run s tr = Some s' -> ceilingKept s tr = true ->
  running (runner s') <= maxParallel (runner s').
Proof.
  revert s. induction tr as [|l tr IH]; intros s Hs Hrun Hk; simpl in *.
  - by simplify_eq.
  - destruct (step s l) as [s1|] eqn:E; [| done]. simpl in Hrun.
    apply andb_true_iff in Hk as [Hl Hk]. apply (IH s1); [| done..].
    rewrite (step_runner _ _ _ E). destruct l; cbn [runnerAfter running maxParallel]; try lia.
    + cbn [lowersCeiling] in Hl. apply negb_true_iff, Z.ltb_ge in Hl. lia.
    + apply step_StartNext in E as (p & [? _]%nextItem_Some & _). lia.
Qed.
End Traces.

(** * The claims *)

Section Claims.
Implicit Types (s : State) (l : Label) (tr : list Label) (p q t : nat) (h : Heap)
  (it : TestItem) (ps pre post out : list nat) (k : Task) (m : Model).

(** ** Enqueueing and the loop of [tryStartNext] *)

(** [QueueTest] on a job that is queued or running returns at once and
    changes nothing. *)
Lemma QueueTest_queued_or_running s p it now stamp :
  uiBusy s = false -> heap s !! p = Some it ->
  Status it = StatusQueued \/ Status it = StatusRunning ->
  step s (DoQueueTest p now stamp) = Some s.
Proof.
  intros Hui Hp Hst. unfold step, uiStep. rewrite Hui, Hp. simpl.
  unfold QueueTest. by destruct Hst as [-> | ->].
Qed.

(** C1: "the scheduler never starts the same job twice concurrently; every
    admission pass of tryStartNext admits distinct jobs".  The code does not
    keep this.  One test is queued under the default ceiling of 3; the loop of
    [tryStartNext] finds it [StatusQueued] on each of its three turns, because
    only the goroutine it launches writes [StatusRunning]; three goroutines
    are created for the one item, [running] is 3, and two of them are inside
    [cmd.Run] at the same time.  ([tryStartNext_same_item] below says it of
    every state; that [QueueTest] itself is a no-op on a queued or running job
    is [QueueTest_queued_or_running].) *)
Theorem C1_same_job_started_twice :
  run (NewModel [testA] "logs") startedTwice = Some startedTwiceState
  /\ running (runner startedTwiceState) = 3
  /\ maxParallel (runner startedTwiceState) = 3
  /\ tasks startedTwiceState !! 0%nat = Some (mkTask 0 PcRun false)
  /\ tasks startedTwiceState !! 1%nat = Some (mkTask 0 PcRun false)
  /\ tasks startedTwiceState !! 2%nat = Some (mkTask 0 PcStart false)
  /\ inFlight 0 startedTwiceState = 3%nat.
Proof. by vm_compute. Qed.

(** The loop of [tryStartNext], left alone, starts the first queued item
    again on every turn: the item stays queued, so the scan finds it each
    time, until [running] reaches the ceiling. *)
Lemma startLoop_same_item n s p :
  firstQueued (heap s) (filteredList (model s)) = Some p ->
  Z.of_nat n <= maxParallel (runner s) - running (runner s) ->
  startLoop n s
  = setTasks (tasks s ++ replicate n (mkTask p PcStart false))
      (setRunner (mkRunner (logDir (runner s)) (maxParallel (runner s))
                    (running (runner s) + Z.of_nat n)) s).
Proof.
  revert s. induction n as [|n IH]; intros s Hp Hn.
  - simpl. rewrite app_nil_r, Z.add_0_r. by destruct s as [? ? []].
  - cbn [startLoop]. unfold nextItem.
    replace (_ <? _) with true by (symmetry; apply Z.ltb_lt; lia).
    rewrite Hp, IH; [| done | simpl; lia]. unfold startTest, setTasks, setRunner. simpl.
    rewrite <- app_assoc. f_equal. f_equal. lia.
Qed.

Lemma tryStartNext_same_item s p :
  firstQueued (heap s) (filteredList (model s)) = Some p ->
  running (runner s) <= maxParallel (runner s) ->
  tryStartNext s
  = setTasks (tasks s ++ replicate (Z.to_nat (maxParallel (runner s) - running (runner s)))
                           (mkTask p PcStart false))
      (setRunner (mkRunner (logDir (runner s)) (maxParallel (runner s))
                    (maxParallel (runner s))) s).
Proof.
  intros Hp Hr. unfold tryStartNext. rewrite (startLoop_same_item _ _ p) by (done || lia).
  unfold setRunner. do 2 f_equal. f_equal. lia.
Qed.

(** The turns of [startLoop] are [StartNext] steps of the thread that holds
    the mutex. *)
Lemma startLoop_run n s p :
  holder s <> None ->
  firstQueued (heap s) (filteredList (model s)) = Some p ->
  Z.of_nat n <= maxParallel (runner s) - running (runner s) ->
  run s (replicate n StartNext) = Some (startLoop n s).
Proof.
  revert s. induction n as [|n IH]; intros s Hh Hp Hn; [done |].
  cbn [replicate run startLoop].
  assert (nextItem s = Some p) as Hnext.
  { unfold nextItem. replace (_ <? _) with true by (symmetry; apply Z.ltb_lt; lia).
    done. }
  unfold step. rewrite Hnext. destruct (holder s) eqn:E; [| done]. simpl.
  apply IH; simpl; [by rewrite E | done | lia].
Qed.

(** The scan of one turn of the loop: when the list is [pre ++ p :: post], no
    item of [pre] is queued and [p] is, the turn launches a goroutine for [p]
    and increments [running]; the first section of that goroutine marks [p]
    running and stamps [StartedAt]. *)
Lemma admission_follows_display_order s pre p post it :
  holder s <> None ->
  running (runner s) < maxParallel (runner s) ->
  filteredList (model s) = pre ++ p :: post ->
  (forall q, q ∈ pre -> isQueued (heap s) q = false) ->
  heap s !! p = Some it -> Status it = StatusQueued ->
  exists s1,
    step s StartNext = Some s1
    /\ running (runner s1) = running (runner s) + 1
    /\ tasks s1 = tasks s ++ [mkTask p PcStart false]
    /\ heap s1 = heap s
    /\ forall now, exists s2,
         step s1 (RunBegin (length (tasks s)) now) = Some s2
         /\ heap s2 !! p = Some (markRunning (length (tasks s)) now it)
         /\ running (runner s2) = running (runner s) + 1.
Proof.
  intros Hh Hr Hl Hpre Hp Hq.
  assert (nextItem s = Some p) as Hnext.
  { unfold nextItem. replace (_ <? _) with true by (symmetry; by apply Z.ltb_lt).
    rewrite Hl. apply firstQueued_first; [done |].
    unfold isQueued. by rewrite Hp, Hq. }
  exists (startTest p s). split_and!; try done.
  { unfold step. rewrite Hnext. by destruct (holder s). }
  intros now. eexists. split_and!.
  - unfold step, taskStep. cbn [tasks startTest setTasks setRunner].
    rewrite list_lookup_middle by done. simpl. reflexivity.
  - unfold moveTask. simpl. by rewrite list_lookup_alter_eq, Hp.
  - reflexivity.
Qed.

(** [moveItemUp] exchanges the item under the cursor with the one above it,
    in the list the scheduler scans. *)
Lemma MoveUp_exchanges s pre q p post :
  uiBusy s = false ->
  filteredList (model s) = pre ++ q :: p :: post ->
  cursor (model s) = len pre + 1 ->
  exists s1,
    step s MoveUp = Some s1
    /\ filteredList (model s1) = pre ++ p :: q :: post
    /\ cursor (model s1) = len pre
    /\ heap s1 = heap s /\ runner s1 = runner s /\ tasks s1 = tasks s.
Proof.
  intros Hui Hl Hc. eexists. split.
  { unfold step, uiStep. rewrite Hui, (moveItemUp_shape _ _ _ _ _ Hl Hc).
    simpl. reflexivity. }
  done.
Qed.

(** A, B and C are queued in that order while D runs under a ceiling of 1,
    and C is moved above A; when D passes, the scan starts C. *)
Lemma reordered_job_runs_first :
  run (NewModel [testA; testB; testC; testD] "logs") reordered = Some reorderedState
  /\ filteredList (model reorderedState) = [2; 0; 1; 3]%nat
  /\ exists s1,
       step reorderedState StartNext = Some s1
       /\ tasks s1 = tasks reorderedState ++ [mkTask 2 PcStart false].
Proof.
  split; [by vm_compute |]. split; [reflexivity |].
  destruct (admission_follows_display_order reorderedState [] 2%nat [0; 1; 3]%nat
              (mkTestItem testC StatusQueued false (LogAt "logs" "TestC" 105)
                 (Some 105) None None None))
    as (s1 & H1 & _ & H2 & _); try done.
  - intros q Hq. inversion Hq.
  - by exists s1.
Qed.

(** C3: "tryStartNext admits the first queued job of the list, marking it
    Running with startedAt stamped and the running count incremented".  The
    code picks the first queued job in display order
    ([admission_follows_display_order], [reordered_job_runs_first]) and
    increments [running], but it does not mark the job: after a turn of the
    loop the job it started is still [StatusQueued] with no [StartedAt], one
    goroutine exists for it, and the scan of the next turn finds the same job
    again. *)
Theorem C3_started_job_left_queued :
  run (NewModel [testA] "logs") startedOnce = Some startedOnceState
  /\ heap startedOnceState !! 0%nat
     = Some (mkTestItem testA StatusQueued false (LogAt "logs" "TestA" 100)
               (Some 100) None None None)
  /\ running (runner startedOnceState) = 1
  /\ tasks startedOnceState = [mkTask 0 PcStart false]
  /\ holder startedOnceState = Some UI
  /\ nextItem startedOnceState = Some 0%nat
  /\ step startedOnceState Unlock = None.
Proof. by vm_compute. Qed.

(** ** The ceiling *)

(** C2, as stated: "in every reachable state running <= maxParallel".  It
    fails: with three tests running under the ceiling 3, the key "-" calls
    [SetMaxParallel(2)]; its [tryStartNext] starts nothing and returns, and
    the three go on running. *)
Lemma C2_ceiling_lowered_under_running :
  reachable [testA; testB; testC] "logs" loweredState
  /\ ~ running (runner loweredState) <= maxParallel (runner loweredState).
Proof.
  split.
  - exists (threeRunning ++ [DoSetMaxParallel 2; Lock UI; Unlock]). by vm_compute.
  - by vm_compute.
Qed.

(** C2, amended: [running <= maxParallel] is kept by every run in which no
    call of [SetMaxParallel] puts the ceiling under the running count; such a
    call changes the ceiling and nothing else (no task, no item, not the
    running count); and a job is started only while [running < maxParallel]. *)
Theorem C2_admission_keeps_ceiling s tr s' :
  (running (runner s) <= maxParallel (runner s) ->
   run s tr = Some s' -> ceilingKept s tr = true ->
   running (runner s') <= maxParallel (runner s'))
  /\ (forall n s1, step s (DoSetMaxParallel n) = Some s1 ->
        maxParallel (runner s1) = n /\ running (runner s1) = running (runner s)
        /\ heap s1 = heap s /\ tasks s1 = tasks s)
  /\ (forall s1, step s StartNext = Some s1 ->
        running (runner s) < maxParallel (runner s)
        /\ running (runner s1) = running (runner s) + 1).
Proof.
  split_and!.
  - apply run_ceiling.
  - intros n s1 H. step_inv H. done.
  - intros s1 (p & [? _]%nextItem_Some & ->)%step_StartNext. done.
Qed.

Lemma C2_three_running_under_ceiling :
  running (runner threeRunningState) <= maxParallel (runner threeRunningState).
Proof.
  apply (proj1 (C2_admission_keeps_ceiling
                  (NewModel [testA; testB; testC] "logs") threeRunning threeRunningState)).
  - vm_compute. discriminate.
  - by vm_compute.
  - by vm_compute.
Defined.

(** ** Stopping a queued job *)

(** C4, as stated: "StopTest returns a queued job to Idle with no timestamps
    set (the queued timestamp cleared)".  It fails: test B waits in the queue
    with [QueuedAt] 103, and after [StopTest] it is idle with [QueuedAt] still
    103. *)
Lemma C4_queued_timestamp_survives_stop :
  reachable [testA; testB] "logs" oneWaitingState
  /\ (Status <$> heap oneWaitingState !! 1%nat) = Some StatusQueued
  /\ exists s' it',
       step oneWaitingState (DoStopTest 1) = Some s'
       /\ heap s' !! 1%nat = Some it'
       /\ Status it' = StatusIdle
       /\ QueuedAt it' = Some 103.
Proof.
  split; [exists oneWaiting; by vm_compute |].
  split; [reflexivity |]. by do 2 eexists.
Qed.

Lemma run_not_requeued p tr s s' :
  forallb (fun l => negb (requeues p l)) tr = true ->
  run s tr = Some s' ->
  isQueued (heap s) p = false ->
  isQueued (heap s') p = false /\ startedCount p s' = startedCount p s.
Proof.
  intros Htr Hrun Hp.
  eapply (run_invariant (fun l => negb (requeues p l))
            (fun s1 => isQueued (heap s1) p = false
                       /\ startedCount p s1 = startedCount p s));
    [| exact Htr | exact Hrun | done].
  intros s1 l s2 Hstep Hl [Hq Hc]. apply negb_true_iff in Hl. split.
  - by eapply step_isQueued.
  - rewrite (step_startedCount _ _ _ p Hstep), <- Hc.
    destruct l; rewrite ?Nat.add_0_r; try done.
    rewrite decide_False; [lia |].
    intros [_ H]%nextItem_Some. by eapply firstQueued_not.
Qed.

(** C4, amended: [StopTest] on a queued job sets its status to
    [StatusIdle] and changes nothing else (the timestamps and the log file
    name stay); from then on, until [QueueTest] is called on the job again, it
    is not queued, no scan of [tryStartNext] selects it and no goroutine is
    created for it. *)
Theorem C4_stop_queued_resets_status_only s p it :
  uiBusy s = false -> heap s !! p = Some it -> Status it = StatusQueued ->
  exists s',
    step s (DoStopTest p) = Some s'
    /\ heap s'
       = <[p := mkTestItem (Info it) StatusIdle (Selected it) (LogFile it)
                  (QueuedAt it) (StartedAt it) (FinishedAt it) (cancel it)]> (heap s)
    /\ model s' = model s /\ runner s' = runner s /\ tasks s' = tasks s
    /\ forall tr s'',
         forallb (fun l => negb (requeues p l)) tr = true ->
         run s' tr = Some s'' ->
         isQueued (heap s'') p = false
         /\ (forall ps, firstQueued (heap s'') ps <> Some p)
         /\ startedCount p s'' = startedCount p s'.
Proof.
  intros Hui Hp Hq. eexists. split.
  { unfold step, uiStep. rewrite Hui, Hp. simpl. unfold StopTest. rewrite Hq. reflexivity. }
  split_and!; try done.
  intros tr s'' Htr Hrun.
  destruct (run_not_requeued p tr _ s'' Htr Hrun) as [H1 H2].
  { simpl. unfold isQueued.
    rewrite list_lookup_insert_eq by by eapply lookup_lt_Some. done. }
  split_and!; try done. intros ps. by apply firstQueued_not.
Qed.

Lemma C4_stopped_job_stays_out :
  exists s',
    step oneWaitingState (DoStopTest 1) = Some s'
    /\ heap s'
       = <[1%nat := mkTestItem testB StatusIdle false (LogAt "logs" "TestB" 103)
                      (Some 103) None None None]> (heap oneWaitingState)
    /\ model s' = model oneWaitingState /\ runner s' = runner oneWaitingState
    /\ tasks s' = tasks oneWaitingState
    /\ forall tr s'',
         forallb (fun l => negb (requeues 1 l)) tr = true ->
         run s' tr = Some s'' ->
         isQueued (heap s'') 1 = false
         /\ (forall ps, firstQueued (heap s'') ps <> Some 1%nat)
         /\ startedCount 1 s'' = startedCount 1 s'.
Proof.
  apply (C4_stop_queued_resets_status_only oneWaitingState 1%nat
           (mkTestItem testB StatusQueued false (LogAt "logs" "TestB" 103)
              (Some 103) None None None)); reflexivity.
Defined.

(** ** Completion of a task *)

Lemma taskStep_at s t k f :
  tasks s !! t = Some k ->
  taskStep s t (pc k) f = match pc k with PcDone => None | _ => f k end.
Proof. intros H. unfold taskStep. rewrite H. simpl. by destruct (pc k). Qed.

(** C5: when [cmd.Run] returns, the task writes [StatusFailed] if its context
    was cancelled or the command failed and [StatusPassed] otherwise, stamps
    [FinishedAt] and sets the handle to nil; when [os.Create] fails it writes
    [StatusFailed] and stamps [FinishedAt] at once, so the job does not stay
    running; on both paths [testFinished] follows, which decrements [running]
    and calls [tryStartNext] (the task takes the scheduler lock, and the loop
    starts the next queued item if there is one). *)
Theorem C5_completion_writes_terminal_status s t k it :
  tasks s !! t = Some k -> heap s !! taskItem k = Some it ->
  (pc k = PcRun -> forall failed now, exists s1,
      step s (CmdExit t failed now) = Some s1
      /\ heap s1 !! taskItem k = Some (markExit (cancelled k) failed now it)
      /\ Status (markExit (cancelled k) failed now it)
         = (if cancelled k || failed then StatusFailed else StatusPassed)
      /\ FinishedAt (markExit (cancelled k) failed now it) = Some now
      /\ cancel (markExit (cancelled k) failed now it) = None
      /\ tasks s1 !! t = Some (setPc PcFinished k)
      /\ runner s1 = runner s /\ holder s1 = holder s)
  /\ (pc k = PcCreate -> forall now, exists s1,
      step s (Create t false now) = Some s1
      /\ heap s1 !! taskItem k = Some (markCreateFailed now it)
      /\ Status (markCreateFailed now it) = StatusFailed
      /\ FinishedAt (markCreateFailed now it) = Some now
      /\ tasks s1 !! t = Some (setPc PcFinished k)
      /\ runner s1 = runner s /\ holder s1 = holder s)
  /\ (pc k = PcFinished -> holder s = None -> exists s2 s3,
      step s (Finished t) = Some s2
      /\ running (runner s2) = running (runner s) - 1
      /\ maxParallel (runner s2) = maxParallel (runner s)
      /\ heap s2 = heap s
      /\ step s2 (Lock (Worker t)) = Some s3
      /\ holder s3 = Some (Worker t)
      /\ nextItem s3 = nextItem s2
      /\ forall p, nextItem s3 = Some p -> step s3 StartNext = Some (startTest p s3)).
Proof.
  intros Ht Hp. split_and!.
  - intros Hpc failed now. eexists. split.
    { unfold step. rewrite <- Hpc at 1. rewrite (taskStep_at _ _ _ _ Ht), Hpc. reflexivity. }
    unfold moveTask. simpl. rewrite !list_lookup_alter_eq, Ht, Hp. split_and!; try done.
    by destruct (cancelled k), failed.
  - intros Hpc now. eexists. split.
    { unfold step. rewrite <- Hpc at 1. rewrite (taskStep_at _ _ _ _ Ht), Hpc. reflexivity. }
    unfold moveTask. simpl. rewrite !list_lookup_alter_eq, Ht, Hp. done.
  - intros Hpc Hh.
    set (s2 := moveTask t PcRestart
                 (setRunner (mkRunner (logDir (runner s)) (maxParallel (runner s))
                               (running (runner s) - 1)) s)).
    exists s2, (setHolder (Some (Worker t)) s2). split.
    { unfold step. rewrite <- Hpc at 1. rewrite (taskStep_at _ _ _ _ Ht), Hpc, Hh.
      reflexivity. }
    split_and!; try done.
    + unfold step, taskStep, s2, moveTask. simpl.
      rewrite Hh, list_lookup_alter_eq, Ht. reflexivity.
    + intros p Hn. unfold step. simpl holder. cbv iota. by rewrite Hn.
Qed.

Lemma C5_running_task_exits :
  exists s1,
    step oneWaitingState (CmdExit 0 false 110) = Some s1
    /\ heap s1 !! 0%nat
       = Some (markExit false false 110
                 (mkTestItem testA StatusRunning false (LogAt "logs" "TestA" 100)
                    (Some 100) (Some 101) None (Some 0%nat)))
    /\ Status (markExit false false 110
                 (mkTestItem testA StatusRunning false (LogAt "logs" "TestA" 100)
                    (Some 100) (Some 101) None (Some 0%nat)))
       = StatusPassed
    /\ FinishedAt (markExit false false 110
                 (mkTestItem testA StatusRunning false (LogAt "logs" "TestA" 100)
                    (Some 100) (Some 101) None (Some 0%nat))) = Some 110
    /\ cancel (markExit false false 110
                 (mkTestItem testA StatusRunning false (LogAt "logs" "TestA" 100)
                    (Some 100) (Some 101) None (Some 0%nat))) = None
    /\ tasks s1 !! 0%nat = Some (setPc PcFinished (mkTask 0 PcRun false))
    /\ runner s1 = runner oneWaitingState /\ holder s1 = holder oneWaitingState.
Proof.
  apply (proj1 (C5_completion_writes_terminal_status oneWaitingState 0
                  (mkTask 0 PcRun false)
                  (mkTestItem testA StatusRunning false (LogAt "logs" "TestA" 100)
                     (Some 100) (Some 101) None (Some 0%nat))
                  eq_refl eq_refl) eq_refl false 110).
Defined.

(** ** The cancellation handle *)

(** C6: "the cancellation handle is non-null iff the status is Running, also
    on the path where log-file creation fails".  The code does not keep this
    on that path: [runTest] has stored the handle before [os.Create], and the
    branch for its failure writes [StatusFailed] without [item.cancel = nil],
    which the normal exit does write. *)
Theorem C6_handle_survives_create_failure :
  run (NewModel [testA] "logs") createFails = Some createFailsState
  /\ heap createFailsState !! 0%nat
     = Some (mkTestItem testA StatusFailed false (LogAt "logs" "TestA" 100)
               (Some 100) (Some 101) (Some 102) (Some 0%nat))
  /\ tasks createFailsState !! 0%nat = Some (mkTask 0 PcFinished false).
Proof. by vm_compute. Qed.

Lemma handleIffRunning_insert s p it' :
  handleIffRunning s -> (cancel it' <> None <-> Status it' = StatusRunning) ->
  forall q it, <[p := it']> (heap s) !! q = Some it ->
    (cancel it <> None <-> Status it = StatusRunning).
Proof.
  intros Hs Hit q it. destruct (decide (p = q)) as [->|Hne].
  - intros H. apply list_lookup_insert_Some in H as [(_ & <- & _) | [? _]]; done.
  - rewrite list_lookup_insert_ne by done. apply Hs.
Qed.

Lemma handleIffRunning_alter s f p :
  handleIffRunning s ->
  (forall it, cancel (f it) <> None <-> Status (f it) = StatusRunning) ->
  forall q it, alter f p (heap s) !! q = Some it ->
    (cancel it <> None <-> Status it = StatusRunning).
Proof.
  intros Hs Hf q it. destruct (decide (p = q)) as [->|Hne].
  - rewrite list_lookup_alter_eq. destruct (heap s !! q); [| done].
    intros [= <-]. apply Hf.
  - rewrite list_lookup_alter_ne by done. apply Hs.
Qed.

Lemma step_handleIffRunning s l s' :
  step s l = Some s' -> createFailure l = false ->
  handleIffRunning s -> handleIffRunning s'.
Proof.
  intros H Hl Hs. destruct l; simpl in H, Hl; step_inv H;
    repeat case_match; simplify_eq; try done; unfold handleIffRunning; simpl.
  - match goal with E : QueueTest _ _ _ ?x = Some _, E' : _ !! _ = Some ?x |- _ =>
      apply QueueTest_Some in E as (-> & Hr & _); pose proof (Hs _ _ E') end.
    apply handleIffRunning_insert; [done |]. simpl. split; [tauto | done].
  - match goal with E : StopTest ?x = _, E' : _ !! _ = Some ?x |- _ =>
      pose proof (Hs _ _ E'); unfold StopTest in E;
      apply handleIffRunning_insert; [done |];
      destruct (Status x) eqn:Est; simplify_eq; simpl; rewrite ?Est;
      intuition congruence end.
  - match goal with E : StopTest ?x = _, E' : _ !! _ = Some ?x |- _ =>
      pose proof (Hs _ _ E'); unfold StopTest in E;
      apply handleIffRunning_insert; [done |];
      destruct (Status x) eqn:Est; simplify_eq; simpl; rewrite ?Est;
      intuition congruence end.
  - match goal with E : toggleRecursive _ _ _ _ = _ |- _ =>
      apply rediscoverTests_heap in E as -> end.
    destruct (err d); [done |]. intros q it [H|[_ H]]%lookup_app_Some; [by eapply Hs |].
    apply list_lookup_fmap_Some in H as (info & -> & _). simpl. split; done.
  - apply handleIffRunning_alter; [done |]. intros it. simpl. split; done.
  - apply handleIffRunning_alter; [done |]. intros it. simpl.
    split; [done |]. by repeat case_match.
Qed.

(** On every run in which no log file fails to be created, each item has a
    handle exactly while it is running. *)
Lemma handleIffRunning_unless_create_fails infos dir tr s :
  forallb (fun l => negb (createFailure l)) tr = true ->
  run (NewModel infos dir) tr = Some s -> handleIffRunning s.
Proof.
  intros Htr Hrun.
  eapply (run_invariant (fun l => negb (createFailure l)) handleIffRunning);
    [| exact Htr | exact Hrun |].
  - intros s1 l s2 Hstep Hl. apply negb_true_iff in Hl. by eapply step_handleIffRunning.
  - intros p it H. simpl in H. apply list_lookup_fmap_Some in H as (info & -> & _).
    simpl. split; done.
Qed.

(** ** The filtered view *)

Lemma applyFilter_hides h m p :
  containsFold (nameOf h p) (filterText m) = false ->
  p ∉ filteredList (applyFilter h m).
Proof.
  intros Hp. rewrite applyFilter_list. intros [Hc _]%list_elem_of_filter. congruence.
Qed.

(** C7: the scheduler scans the filtered view.  After [applyFilter], for as
    long as no step calls [applyFilter] again, a job whose name does not match
    the filter text is not in the list [tryStartNext] scans, so it is not the
    item a turn of the loop starts, no goroutine is created for it, and
    [GetQueuedCount] is the same whatever its status is. *)
Theorem C7_filtered_out_job_not_started s m0 p tr s' :
  model s = applyFilter (heap s) m0 ->
  containsFold (nameOf (heap s) p) (filterText m0) = false ->
  forallb (fun l => negb (refilters l)) tr = true ->
  run s tr = Some s' ->
  (p ∉ filteredList (model s'))
  /\ nextItem s' <> Some p
  /\ startedCount p s' = startedCount p s
  /\ forall it, GetQueuedCount (setHeap (<[p := it]> (heap s')) s') = GetQueuedCount s'.
Proof.
  intros Hm Hp Htr Hrun.
  assert ((p ∉ filteredList (model s')) /\ startedCount p s' = startedCount p s)
    as [H1 H2].
  { eapply (run_invariant (fun l => negb (refilters l))
              (fun s1 => (p ∉ filteredList (model s1))
                         /\ startedCount p s1 = startedCount p s));
      [| exact Htr | exact Hrun |].
    - intros s1 l s2 Hstep Hl [Hout Hc]. apply negb_true_iff in Hl. split.
      + by rewrite (step_filtered _ _ _ Hstep Hl).
      + rewrite (step_startedCount _ _ _ p Hstep), <- Hc.
        destruct l; rewrite ?Nat.add_0_r; try done.
        rewrite decide_False; [lia |].
        intros [_ H%firstQueued_elem]%nextItem_Some. done.
    - split; [| done]. rewrite Hm. by apply applyFilter_hides. }
  split_and!; try done.
  - intros [_ H%firstQueued_elem]%nextItem_Some. done.
  - intros it. by apply GetQueuedCount_outside.
Qed.

Lemma C7_hidden_job_waits :
  (0%nat ∉ filteredList (model hiddenLaterState))
  /\ nextItem hiddenLaterState <> Some 0%nat
  /\ startedCount 0 hiddenLaterState = startedCount 0 hiddenState
  /\ forall it,
       GetQueuedCount (setHeap (<[0%nat := it]> (heap hiddenLaterState)) hiddenLaterState)
       = GetQueuedCount hiddenLaterState.
Proof.
  apply (C7_filtered_out_job_not_started hiddenState
           (setFilter false "b" (model hiddenState)) 0
           [CmdExit 0 false 110; Finished 0; Lock (Worker 0); Unlock]).
  - by vm_compute.
  - by vm_compute.
  - reflexivity.
  - by vm_compute.
Defined.

(** ** Filter, cursor and sort *)

Lemma adjustCursor_clamp c n : adjustCursor c n = Z.max 0 (Z.min c (n - 1)).
Proof.
  unfold adjustCursor.
  destruct (Z.geb_spec c n); [destruct (Z.ltb_spec (n - 1) 0) | destruct (Z.ltb_spec c 0)];
    lia.
Qed.

Lemma applyFilter_fields h m :
  tests (applyFilter h m) = tests m
  /\ filterText (applyFilter h m) = filterText m
  /\ sortMode (applyFilter h m) = sortMode m
  /\ aliased (applyFilter h m) = String.eqb (filterText m) "".
Proof. unfold applyFilter. by destruct (String.eqb (filterText m) ""). Qed.

Lemma applyFilter_elem h m p :
  p ∈ filteredList (applyFilter h m)
  <-> p ∈ tests m /\ occursFold (filterText m) (nameOf h p).
Proof.
  rewrite applyFilter_list, list_elem_of_filter, containsFold_occursFold. tauto.
Qed.

Lemma applyFilter_all h m : filterText m = "" -> filteredList (applyFilter h m) = tests m.
Proof. intros E. unfold applyFilter. by rewrite E. Qed.

(** C9: after [applyFilter], for a filter text and test names of ASCII
    bytes, the filtered list is the full list restricted, in its order, to
    the jobs whose name contains the filter text case-insensitively (some
    segment of the name is the text up to the case of its letters), and it is
    all of the list for the empty text; the cursor is clamped to
    [0 .. len-1] (0 for an empty list); and after [toggleSortMode], whatever
    order [sort.Slice] leaves, the cursor is on the job it was on before. *)
Theorem C9_filter_and_sort_keep_cursor h m :
  (isASCII (filterText m) = true ->
   (forall p, p ∈ tests m -> isASCII (nameOf h p) = true) ->
   filteredList (applyFilter h m)
   = filter (fun p => containsFold (nameOf h p) (filterText m) = true) (tests m)
   /\ forall p, p ∈ filteredList (applyFilter h m)
                <-> p ∈ tests m /\ occursFold (filterText m) (nameOf h p))
  /\ (filterText m = "" -> filteredList (applyFilter h m) = tests m)
  /\ cursor (applyFilter h m)
     = Z.max 0 (Z.min (cursor m) (len (filteredList (applyFilter h m)) - 1))
  /\ (forall out p,
        index (filteredList m) (cursor m) = Some p ->
        sortOutcome (less h (nextSortMode (sortMode m))) (filteredList m) out = true ->
        exists m',
          toggleSortMode h out m = Some m'
          /\ sortMode m' = nextSortMode (sortMode m)
          /\ filteredList m' = out
          /\ index (filteredList m') (cursor m') = Some p)
  /\ (exists out,
        sortOutcome (less h (nextSortMode (sortMode m))) (filteredList m) out = true).
Proof.
  split_and!.
  - intros _ _. split; [apply applyFilter_list | apply applyFilter_elem].
  - apply applyFilter_all.
  - rewrite applyFilter_cursor. apply adjustCursor_clamp.
  - intros out p Hp Hout. unfold toggleSortMode.
    destruct (applySorting_follows h out (setSortMode (nextSortMode (sortMode m)) m) p)
      as (i & -> & Hi); [done.. |].
    eexists. split_and!; done.
  - apply sortOutcome_exists.
Qed.

Lemma C9_cursor_follows_job :
  (forall p,
     p ∈ filteredList (applyFilter (heap hiddenState)
                         (setFilter false "testb" (model hiddenState)))
     <-> p ∈ tests (model hiddenState)
         /\ occursFold "testb" (nameOf (heap hiddenState) p))
  /\ exists m',
       toggleSortMode (heap reorderedState) [0; 1; 2; 3]%nat (model reorderedState) = Some m'
       /\ sortMode m' = nextSortMode (sortMode (model reorderedState))
       /\ filteredList m' = [0; 1; 2; 3]%nat
       /\ index (filteredList m') (cursor m') = Some 2%nat.
Proof.
  split.
  - apply (proj1 (C9_filter_and_sort_keep_cursor (heap hiddenState)
                    (setFilter false "testb" (model hiddenState)))).
    + reflexivity.
    + intros p Hp. vm_compute in Hp.
      repeat (apply elem_of_cons in Hp as [->|Hp]; [reflexivity |]).
      by apply elem_of_nil in Hp.
  - apply (proj1 (proj2 (proj2 (proj2
             (C9_filter_and_sort_keep_cursor (heap reorderedState) (model reorderedState)))))).
    + reflexivity.
    + by vm_compute.
Defined.

(** ** Re-discovery *)

(** On success the list is replaced and the filter and the sort are applied
    to the new items. *)
Lemma rediscoverTests_replaces d out h m :
  err d = false ->
  sortOutcome (less (h ++ (newItem <$> found d)) (sortMode m))
    (filter (fun p => containsFold (nameOf (h ++ (newItem <$> found d)) p)
                        (filterText m) = true)
       (seq (length h) (length (found d))))
    out = true ->
  exists m',
    rediscoverTests d out h m = Some (h ++ (newItem <$> found d), m')
    /\ tests m' ≡ₚ seq (length h) (length (found d))
    /\ filteredList m' = out
    /\ filterText m' = filterText m /\ sortMode m' = sortMode m
    /\ 0 <= cursor m' /\ (out <> [] -> cursor m' < len out).
Proof.
  intros E Hout. unfold rediscoverTests. rewrite E.
  set (items := seq (length h) (length (found d))) in *.
  set (h' := h ++ (newItem <$> found d)) in *.
  set (m1 := applyFilter h' (setTests items m)).
  destruct (applyFilter_fields h' (setTests items m)) as (Ht & Hf & Hs & Ha).
  change (applyFilter h' (setTests items m)) with m1 in Ht, Hf, Hs, Ha.
  change (tests (setTests items m)) with items in Ht.
  change (filterText (setTests items m)) with (filterText m) in Hf, Ha.
  change (sortMode (setTests items m)) with (sortMode m) in Hs.
  assert (filteredList m1
          = filter (fun p => containsFold (nameOf h' p) (filterText m) = true) items)
    as Hl.
  { unfold m1. by rewrite applyFilter_list. }
  assert (cursor m1 = adjustCursor (cursor m) (len (filteredList m1))) as Hc.
  { unfold m1. by rewrite applyFilter_cursor. }
  assert (filterText m = "" -> filteredList m1 = items) as Hall.
  { intros E'. unfold m1. by rewrite applyFilter_all. }
  clearbody m1.
  pose proof (adjustCursor_bounds (cursor m) _ (len_nonneg (filteredList m1)))
    as (Hc0 & Hc1 & _).
  rewrite <- Hc in Hc0, Hc1. rewrite <- Hl, <- Hs in Hout.
  pose proof (sortOutcome_perm _ _ _ Hout) as Hperm.
  assert (tests (writeFiltered out m1) ≡ₚ items) as Htests.
  { simpl. rewrite Ha, Ht. destruct (String.eqb_spec (filterText m) ""); [| done].
    by rewrite Hperm, Hall. }
  destruct (decide (filteredList m1 = [])) as [Hnil|Hne].
  - unfold applySorting. rewrite Hnil. simpl. rewrite Hnil in Hout, Hperm.
    rewrite Hout. simpl.
    apply Permutation_nil_r in Hperm. subst out.
    eexists. split; [reflexivity |]. split_and!; done.
  - assert (0 < len (filteredList m1)) as Hpos.
    { unfold len. destruct (filteredList m1); [done | simpl; lia]. }
    destruct (index_is_Some (filteredList m1) (cursor m1)) as [p Hp]; [lia |].
    destruct (applySorting_follows h' out m1 p Hp Hout) as (i & -> & Hi).
    exists (setCursor i (writeFiltered out m1)). split; [done |]. split_and!; try done.
    + simpl. apply index_lt_len in Hi. lia.
    + intros _. simpl. apply index_lt_len in Hi. lia.
Qed.

(** C8: when discovery returns an error [rediscoverTests] changes nothing
    (not the list, not the filtered view, not the cursor); when it succeeds,
    and only then, the list is replaced by new idle items, one per discovered
    test, the filter text and the sort mode are kept and applied to them, and
    the cursor is inside the new view; and on success [sort.Slice] does leave
    some order, so the call returns. *)
Theorem C8_rediscover_all_or_nothing d h m :
  (err d = true -> forall out, rediscoverTests d out h m = Some (h, m))
  /\ (err d = false ->
      forall out,
        sortOutcome (less (h ++ (newItem <$> found d)) (sortMode m))
          (filter (fun p => containsFold (nameOf (h ++ (newItem <$> found d)) p)
                              (filterText m) = true)
             (seq (length h) (length (found d))))
          out = true ->
        exists m',
          rediscoverTests d out h m = Some (h ++ (newItem <$> found d), m')
          /\ tests m' ≡ₚ seq (length h) (length (found d))
          /\ filteredList m' = out
          /\ filterText m' = filterText m /\ sortMode m' = sortMode m
          /\ 0 <= cursor m' /\ (out <> [] -> cursor m' < len out))
  /\ (err d = false ->
      exists out m',
        rediscoverTests d out h m = Some (h ++ (newItem <$> found d), m')
        /\ filteredList m' = out).
Proof.
  split_and!.
  - intros E out. unfold rediscoverTests. by rewrite E.
  - intros E out. by apply rediscoverTests_replaces.
  - intros E.
    destruct (sortOutcome_exists (h ++ (newItem <$> found d)) (sortMode m)
                (filter (fun p => containsFold (nameOf (h ++ (newItem <$> found d)) p)
                                    (filterText m) = true)
                   (seq (length h) (length (found d))))) as [out Hout].
    destruct (rediscoverTests_replaces d out h m E Hout) as (m' & H & _ & H' & _).
    by exists out, m'.
Qed.

Lemma C8_failed_discovery_keeps_list :
  rediscoverTests (mkDiscovery [testD] true) [] (heap reorderedState) (model reorderedState)
  = Some (heap reorderedState, model reorderedState).
Proof.
  apply (proj1 (C8_rediscover_all_or_nothing (mkDiscovery [testD] true)
                  (heap reorderedState) (model reorderedState))).
  reflexivity.
Defined.

(** ** Search *)

Lemma performSearch_elem m j :
  searchText m <> "" ->
  j ∈ searchMatches (performSearch m)
  <-> exists line, index (outputLines m) j = Some line /\ occursFold (searchText m) line.
Proof.
  intros Ht. rewrite performSearch_matches, searchLoop_elem by done. split.
  - intros (i & line & Hi & -> & Hc). exists line. split.
    + apply index_Some. split; [lia |].
      by replace (Z.to_nat (0 + Z.of_nat i)) with i by lia.
    + by apply containsFold_occursFold.
  - intros (line & [? Hi]%index_Some & Hc%containsFold_occursFold).
    exists (Z.to_nat j), line. split_and!; [done | lia | done].
Qed.

Lemma goToNextMatch_cycles m :
  searchMatches m <> [] -> -1 <= currentMatchIdx m < len (searchMatches m) ->
  exists m',
    goToNextMatch m = Some m'
    /\ currentMatchIdx m' = (currentMatchIdx m + 1) mod len (searchMatches m)
    /\ index (searchMatches m) (currentMatchIdx m') = Some (outputScroll m')
    /\ autoScroll m' = false
    /\ searchMatches m' = searchMatches m.
Proof.
  intros Hne Hi. unfold goToNextMatch.
  assert (0 < len (searchMatches m)) as Hpos.
  { unfold len. destruct (searchMatches m); [done | simpl; lia]. }
  replace (len (searchMatches m) =? 0) with false by (symmetry; apply Z.eqb_neq; lia).
  set (i := if currentMatchIdx m + 1 >=? len (searchMatches m) then 0
            else currentMatchIdx m + 1).
  assert (i = (currentMatchIdx m + 1) mod len (searchMatches m)) as Hmod.
  { unfold i. destruct (Z.geb_spec (currentMatchIdx m + 1) (len (searchMatches m))).
    - replace (currentMatchIdx m + 1) with (len (searchMatches m)) by lia.
      by rewrite Z.mod_same by lia.
    - by rewrite Z.mod_small by lia. }
  assert (0 <= i < len (searchMatches m)) as Hin.
  { rewrite Hmod. apply Z.mod_pos_bound. lia. }
  destruct (index_is_Some (searchMatches m) i Hin) as [line Hline].
  rewrite Hline. simpl. eexists. split; [reflexivity |]. simpl.
  by rewrite <- Hmod.
Qed.

Lemma goToPrevMatch_cycles m :
  searchMatches m <> [] -> -1 <= currentMatchIdx m < len (searchMatches m) ->
  exists m',
    goToPrevMatch m = Some m'
    /\ currentMatchIdx m'
       = (Z.max 0 (currentMatchIdx m) - 1) mod len (searchMatches m)
    /\ index (searchMatches m) (currentMatchIdx m') = Some (outputScroll m')
    /\ autoScroll m' = false
    /\ searchMatches m' = searchMatches m.
Proof.
  intros Hne Hi. unfold goToPrevMatch.
  assert (0 < len (searchMatches m)) as Hpos.
  { unfold len. destruct (searchMatches m); [done | simpl; lia]. }
  replace (len (searchMatches m) =? 0) with false by (symmetry; apply Z.eqb_neq; lia).
  set (i := if currentMatchIdx m - 1 <? 0 then len (searchMatches m) - 1
            else currentMatchIdx m - 1).
  assert (i = (Z.max 0 (currentMatchIdx m) - 1) mod len (searchMatches m)) as Hmod.
  { unfold i. destruct (Z.ltb_spec (currentMatchIdx m - 1) 0).
    - replace (Z.max 0 (currentMatchIdx m) - 1)
        with (len (searchMatches m) - 1 + (-1) * len (searchMatches m)) by lia.
      rewrite Z.mod_add by lia. by rewrite Z.mod_small by lia.
    - rewrite Z.mod_small by lia. lia. }
  assert (0 <= i < len (searchMatches m)) as Hin.
  { rewrite Hmod. apply Z.mod_pos_bound. lia. }
  destruct (index_is_Some (searchMatches m) i Hin) as [line Hline].
  rewrite Hline. simpl. eexists. split; [reflexivity |]. simpl.
  by rewrite <- Hmod.
Qed.

(** C10: for a non-empty search text, [performSearch] leaves in
    [searchMatches] the indices of the lines that contain the text
    case-insensitively (for a text and lines of ASCII bytes: some segment of
    the line is the text up to the case of its letters), in increasing order,
    and no current match; [goToNextMatch] and [goToPrevMatch] move the
    current match one place forward and backward modulo the number of matches
    (from "no current match" to the first and to the last), set the scroll
    position to its line and clear [autoScroll]; on the buffer foo, bar, FOO,
    baz with the text foo the matches are 0 and 2, "n" three times visits 0,
    2, 0, and "n", "N", "N" visits 0, 2, 0. *)
Theorem C10_search_matches_and_cycling m :
  (searchText m <> "" ->
   isASCII (searchText m) = true ->
   (forall line, line ∈ outputLines m -> isASCII line = true) ->
     (forall j, j ∈ searchMatches (performSearch m)
                <-> exists line, index (outputLines m) j = Some line
                                 /\ occursFold (searchText m) line)
     /\ StronglySorted Z.lt (searchMatches (performSearch m))
     /\ currentMatchIdx (performSearch m) = -1)
  /\ (searchMatches m <> [] ->
      -1 <= currentMatchIdx m < len (searchMatches m) ->
      (exists m',
         goToNextMatch m = Some m'
         /\ currentMatchIdx m' = (currentMatchIdx m + 1) mod len (searchMatches m)
         /\ index (searchMatches m) (currentMatchIdx m') = Some (outputScroll m')
         /\ autoScroll m' = false
         /\ searchMatches m' = searchMatches m)
      /\ (exists m',
         goToPrevMatch m = Some m'
         /\ currentMatchIdx m'
            = (Z.max 0 (currentMatchIdx m) - 1) mod len (searchMatches m)
         /\ index (searchMatches m) (currentMatchIdx m') = Some (outputScroll m')
         /\ autoScroll m' = false
         /\ searchMatches m' = searchMatches m))
  /\ searchMatches (performSearch searchDemo) = [0; 2]
  /\ visits [true; true; true] (performSearch searchDemo) = [0; 2; 0]
  /\ visits [true; false; false] (performSearch searchDemo) = [0; 2; 0].
Proof.
  split_and!.
  - intros Ht _ _. split_and!.
    + intros j. by apply performSearch_elem.
    + rewrite performSearch_matches by done. apply searchLoop_sorted.
    + apply performSearch_idx.
  - intros Hne Hi. split; [by apply goToNextMatch_cycles | by apply goToPrevMatch_cycles].
  - reflexivity.
  - reflexivity.
  - reflexivity.
Qed.

Lemma C10_search_demo :
  (forall j, j ∈ searchMatches (performSearch searchDemo)
             <-> exists line, index (outputLines searchDemo) j = Some line
                              /\ occursFold (searchText searchDemo) line)
  /\ StronglySorted Z.lt (searchMatches (performSearch searchDemo))
  /\ currentMatchIdx (performSearch searchDemo) = -1.
Proof.
  apply (proj1 (C10_search_matches_and_cycling searchDemo)).
  - discriminate.
  - reflexivity.
  - intros line Hl. vm_compute in Hl.
    repeat (apply elem_of_cons in Hl as [->|Hl]; [reflexivity |]).
    by apply elem_of_nil in Hl.
Defined.

End Claims.

(** * Further properties *)

(** ** The keys of the filter *)

Section FilterKeys.
Local Arguments String.append !_ _ / : simpl nomatch.
Implicit Types (h : Heap) (m : Model) (s t key : string).

Lemma length_one key : String.length key = 1%nat -> exists c, key = String c "".
Proof. destruct key as [|c [|? ?]]; try done. by exists c. Qed.

Lemma dropLast_app s c : dropLast (s +:+ String c "") = s.
Proof.
  induction s as [|a s IH]; [done |]. simpl.
  rewrite IH. by destruct s.
Qed.

Lemma length_app_one s c : String.length (s +:+ String c "") = S (String.length s).
Proof. induction s as [|a s IH]; simpl; [done | by rewrite IH]. Qed.

Lemma applyFilter_tests h m : tests (applyFilter h m) = tests m.
Proof. unfold applyFilter. by destruct (String.eqb _ _). Qed.

Lemma applyFilter_text h m : filterText (applyFilter h m) = filterText m.
Proof. unfold applyFilter. by destruct (String.eqb _ _). Qed.

(** A key of one byte is none of the named keys. *)
Lemma handleFilterKey_typed h c m :
  handleFilterKey h (String c "") m
  = applyFilter h (setFilter (filterMode m) (filterText m +:+ String c "") m).
Proof. unfold handleFilterKey. simpl. by destruct (Ascii.eqb c _), (Ascii.eqb c _). Qed.

Lemma handleFilterKey_backspace h m :
  (0 < String.length (filterText m))%nat ->
  handleFilterKey h "backspace" m
  = applyFilter h (setFilter (filterMode m) (dropLast (filterText m)) m).
Proof.
  intros H. unfold handleFilterKey. cbn [String.eqb Ascii.eqb Bool.eqb orb].
  by replace (0 <? _)%nat with true by (symmetry; by apply Nat.ltb_lt).
Qed.

Lemma Contains_app_l s a b : Contains s (a +:+ b) = true -> Contains s a = true.
Proof.
  rewrite !Contains_app. intros (pre & post & ->).
  exists pre, (b +:+ post). f_equal. clear.
  induction a as [|c a IH]; simpl; [done | by rewrite IH].
Qed.

Lemma filter_filter_impl {A} (P Q : A -> Prop) `{!forall x, Decision (P x)}
    `{!forall x, Decision (Q x)} (l : list A) :
  (forall x, P x -> Q x) -> filter P l = filter P (filter Q l).
Proof.
  intros HPQ. induction l as [|x l IH]; [done |].
  rewrite !filter_cons. destruct (decide (P x)) as [HP|HP].
  - rewrite decide_True by auto. rewrite filter_cons, decide_True by done. by rewrite IH.
  - destruct (decide (Q x)); [rewrite filter_cons, decide_False by done |]; apply IH.
Qed.

(** X1: in filter mode, a key of one byte followed by "backspace" leaves the
    filter text as it was, and the filtered list is the one [applyFilter]
    computes for that text from [tests], which the two keys do not touch. *)
Theorem typed_key_taken_back h key m :
  String.length key = 1%nat ->
  filterText (handleFilterKey h "backspace" (handleFilterKey h key m)) = filterText m
  /\ filteredList (handleFilterKey h "backspace" (handleFilterKey h key m))
     = filteredList (applyFilter h m)
  /\ tests (handleFilterKey h "backspace" (handleFilterKey h key m)) = tests m.
Proof.
  intros [c ->]%length_one. rewrite handleFilterKey_typed.
  rewrite handleFilterKey_backspace
    by (rewrite applyFilter_text; cbn [filterText setFilter]; rewrite length_app_one; lia).
  rewrite !applyFilter_text, !applyFilter_list, !applyFilter_tests.
  cbn [tests filterText setFilter].
  by rewrite ?applyFilter_text, ?applyFilter_tests, ?dropLast_app.
Qed.

Lemma typed_key_taken_back_witness :
  filterText (handleFilterKey (heap hiddenState) "backspace"
                (handleFilterKey (heap hiddenState) "a" (model hiddenState)))
  = filterText (model hiddenState)
  /\ filteredList (handleFilterKey (heap hiddenState) "backspace"
                     (handleFilterKey (heap hiddenState) "a" (model hiddenState)))
     = filteredList (applyFilter (heap hiddenState) (model hiddenState))
  /\ tests (handleFilterKey (heap hiddenState) "backspace"
              (handleFilterKey (heap hiddenState) "a" (model hiddenState)))
     = tests (model hiddenState).
Proof. apply typed_key_taken_back. reflexivity. Defined.

(** X2: a key typed into the filter can only narrow the view: the filtered
    list after a key of one byte is a sublist, in the same order, of the list
    [applyFilter] gives for the text before the key. *)
Theorem typing_narrows_view h key m :
  String.length key = 1%nat ->
  filteredList (handleFilterKey h key m) `sublist_of` filteredList (applyFilter h m).
Proof.
  intros [c ->]%length_one. rewrite handleFilterKey_typed, !applyFilter_list.
  cbn [tests filterText setFilter].
  rewrite (filter_filter_impl _
             (fun p => containsFold (nameOf h p) (filterText m) = true)).
  - apply sublist_filter.
  - intros p. unfold containsFold. rewrite ToLower_app. apply Contains_app_l.
Qed.

Lemma typing_narrows_view_witness :
  filteredList (handleFilterKey (heap oneWaitingState) "b" (model oneWaitingState))
  `sublist_of` filteredList (applyFilter (heap oneWaitingState) (model oneWaitingState)).
Proof. apply typing_narrows_view. reflexivity. Defined.

(** X3: the key "/" opens the filter prompt with an empty text and leaves
    the filtered list as it is; leaving the prompt with "esc" or "enter"
    without typing then applies the empty filter: the filter that was in
    force is removed and the filtered list is [tests] itself again. *)
Theorem leaving_the_prompt_clears_the_filter h key m :
  key = "esc" \/ key = "enter" ->
  filterMode (handleFilterKey h key (startFilter m)) = false
  /\ filterText (handleFilterKey h key (startFilter m)) = ""
  /\ filteredList (handleFilterKey h key (startFilter m)) = tests m
  /\ aliased (handleFilterKey h key (startFilter m)) = true
  /\ filteredList (startFilter m) = filteredList m.
Proof.
  intros [-> | ->]; unfold handleFilterKey, startFilter, applyFilter; simpl; done.
Qed.

Lemma leaving_the_prompt_clears_the_filter_witness :
  filterMode (handleFilterKey (heap hiddenState) "esc" (startFilter (model hiddenState))) = false
  /\ filterText (handleFilterKey (heap hiddenState) "esc" (startFilter (model hiddenState))) = ""
  /\ filteredList (handleFilterKey (heap hiddenState) "esc" (startFilter (model hiddenState)))
     = tests (model hiddenState)
  /\ aliased (handleFilterKey (heap hiddenState) "esc" (startFilter (model hiddenState))) = true
  /\ filteredList (startFilter (model hiddenState)) = filteredList (model hiddenState).
Proof. apply leaving_the_prompt_clears_the_filter. by left. Defined.
End FilterKeys.

(** ** The shape of the two lists *)

Section Shape.
Implicit Types (s : State) (l : Label) (h : Heap) (m : Model) (p : nat) (n : nat)
  (ps out : list nat).

Lemma len_perm ps out : out ≡ₚ ps -> len out = len ps.
Proof. intros H. unfold len. by rewrite H. Qed.

Lemma positionOf_range p ps i : positionOf p ps = Some i -> 0 <= i < len ps.
Proof.
  revert i. induction ps as [|x ps IH]; intros i; [done |]. simpl.
  destruct (x =? p)%nat.
  - intros [= <-]. unfold len. simpl. lia.
  - destruct (positionOf p ps) as [j|]; [| done]. intros [= <-].
    specialize (IH j eq_refl). unfold len in *. simpl. lia.
Qed.

Lemma filter_all {A} (P : A -> Prop) `{!forall x, Decision (P x)} (l : list A) :
  (forall x, P x) -> filter P l = l.
Proof.
  intros HP. induction l as [|x l IH]; [done |]. by rewrite filter_cons_True, IH.
Qed.

Lemma submseteq_NoDup {A} (l k : list A) : l ⊆+ k -> NoDup k -> NoDup l.
Proof.
  intros [k' E]%submseteq_Permutation. rewrite E. by intros [? _]%NoDup_app.
Qed.

(** Writing a rearrangement of the filtered list into it. *)
Lemma listsOk_write n m out c :
  out ≡ₚ filteredList m ->
  0 <= c <= Z.max 0 (len out - 1) ->
  listsOk n m -> listsOk n (setCursor c (writeFiltered out m)).
Proof.
  intros Hout Hc (_ & Hal & Hsub & Hnd & Hv). unfold listsOk, cursorInRange. simpl.
  split_and!; [lia.. | | | |].
  - by destruct (aliased m).
  - destruct (aliased m); [done |]. by rewrite Hout.
  - destruct (aliased m) eqn:E; [| done].
    rewrite Hout, Hal by done. done.
  - intros p Hp. apply Hv. destruct (aliased m) eqn:E; [| done].
    rewrite Hout, Hal in Hp by done. done.
Qed.

Lemma listsOk_applyFilter n h m :
  NoDup (tests m) -> (forall p, p ∈ tests m -> (p < n)%nat) ->
  listsOk n (applyFilter h m).
Proof.
  intros Hnd Hv. unfold listsOk, cursorInRange.
  rewrite applyFilter_cursor, applyFilter_list.
  set (fl := filter _ _).
  assert (tests (applyFilter h m) = tests m) as Ht.
  { unfold applyFilter. by destruct (String.eqb _ _). }
  rewrite Ht.
  pose proof (adjustCursor_bounds (cursor m) (len fl) (len_nonneg fl)) as (H1 & H2 & _).
  split_and!; try done.
  - destruct (decide (0 < len fl)); [specialize (H2 ltac:(done)); lia |].
    pose proof (len_nonneg fl). unfold adjustCursor in *.
    repeat case_match; lia.
  - unfold applyFilter. destruct (String.eqb_spec (filterText m) ""); simpl; [| done].
    intros _. subst fl. rewrite e. apply filter_all. intros p. apply Contains_empty.
  - apply sublist_submseteq, sublist_filter.
Qed.

Lemma refreshOutput_lists h r m m' :
  refreshOutput h r m = Some m' ->
  tests m' = tests m /\ filteredList m' = filteredList m /\ aliased m' = aliased m
  /\ cursor m' = cursor m.
Proof.
  unfold refreshOutput, clearOutput. intros H.
  repeat (simplify_option_eq || case_match); done.
Qed.

Lemma listsOk_same n m m' :
  tests m' = tests m -> filteredList m' = filteredList m -> aliased m' = aliased m ->
  0 <= cursor m' <= Z.max 0 (len (filteredList m) - 1) ->
  listsOk n m -> listsOk n m'.
Proof.
  intros Ht Hf Ha Hc (_ & ? & ? & ? & ?). unfold listsOk, cursorInRange.
  rewrite Ht, Hf, Ha. done.
Qed.

Lemma listsOk_mono n n' m : (n <= n')%nat -> listsOk n m -> listsOk n' m.
Proof.
  intros Hn (? & ? & ? & ? & Hv). split_and!; try done.
  intros p Hp. specialize (Hv p Hp). lia.
Qed.

Lemma listsOk_moveItemUp n m m' : moveItemUp m = Some m' -> listsOk n m -> listsOk n m'.
Proof.
  unfold moveItemUp. case_match eqn:E; [by intros [= <-] |].
  destruct (swap _ _ _) as [ps|] eqn:Hs; [| done]. intros [= <-] Hm.
  apply orb_false_iff in E as [E1%Z.leb_gt E2%Z.eqb_neq].
  assert (ps ≡ₚ filteredList m) as Hp by (eapply swap_perm; [| done]; lia).
  apply listsOk_write; [done | | done].
  rewrite (len_perm _ _ Hp). destruct Hm as ([? ?] & _). lia.
Qed.

Lemma listsOk_moveItemDown n m m' : moveItemDown m = Some m' -> listsOk n m -> listsOk n m'.
Proof.
  unfold moveItemDown. case_match eqn:E; [by intros [= <-] |].
  destruct (swap _ _ _) as [ps|] eqn:Hs; [| done]. intros [= <-] Hm.
  apply orb_false_iff in E as [E1 E2%Z.eqb_neq].
  rewrite Z.geb_leb in E1. apply Z.leb_gt in E1.
  assert (ps ≡ₚ filteredList m) as Hp by (eapply swap_perm; [| done]; lia).
  apply listsOk_write; [done | | done].
  rewrite (len_perm _ _ Hp). destruct Hm as ([? ?] & _). lia.
Qed.

Lemma listsOk_applySorting n h out m m' :
  applySorting h out m = Some m' -> listsOk n m -> listsOk n m'.
Proof.
  unfold applySorting. intros H Hm.
  destruct (_ && _) eqn:E.
  - destruct (index (filteredList m) (cursor m)) as [p|] eqn:Hp; [| done]. simpl in H.
    destruct (sortOutcome _ _ _) eqn:Ho; [| done]. apply sortOutcome_perm in Ho.
    injection H as <-. cbn [filteredList writeFiltered].
    destruct (positionOf p out) as [i|] eqn:Hi.
    + apply listsOk_write; [done | | done].
      apply positionOf_range in Hi. lia.
    + replace (writeFiltered out m) with (setCursor (cursor m) (writeFiltered out m)) by done.
      apply listsOk_write; [done | | done].
      rewrite (len_perm _ _ Ho). by destruct Hm as (? & _).
  - simpl in H. destruct (sortOutcome _ _ _) eqn:Ho; [| done]. apply sortOutcome_perm in Ho.
    injection H as <-.
    replace (writeFiltered out m) with (setCursor (cursor m) (writeFiltered out m)) by done.
    apply listsOk_write; [done | | done].
    rewrite (len_perm _ _ Ho). by destruct Hm as (? & _).
Qed.

Lemma listsOk_rediscoverTests d out h m h' m' :
  rediscoverTests d out h m = Some (h', m') ->
  tests m = tests m -> listsOk (length h) m -> listsOk (length h') m'.
Proof.
  unfold rediscoverTests. destruct (err d); [by intros [= <- <-] |].
  intros H _ _. destruct (applySorting _ _ _) as [m1|] eqn:E; [| done].
  injection H as <- <-. eapply listsOk_applySorting; [done |].
  apply listsOk_applyFilter; cbn [tests setTests].
  - apply NoDup_seq.
  - intros p Hp%elem_of_seq. rewrite length_app, length_fmap. lia.
Qed.

Lemma step_wellFormed s l s' : step s l = Some s' -> wellFormed s -> wellFormed s'.
Proof.
  unfold wellFormed. intros H Hs.
  destruct l; simpl in H; step_inv H; repeat case_match; simpl;
    rewrite ?length_insert, ?length_alter; try done.
  - (* Tick *)
    match goal with E : refreshOutput _ _ _ = _ |- _ =>
      apply refreshOutput_lists in E as (? & ? & ? & Hc) end.
    apply (listsOk_same _ (model s)); [done.. | | done].
    rewrite Hc. by destruct Hs as (? & _).
  - (* KeyUp *)
    match goal with E : cursorUp _ _ _ = _ |- _ => unfold cursorUp, resetOutputScroll in E;
      destruct (Z.gtb_spec (cursor (model s)) 0); [| by simplify_eq];
      apply refreshOutput_lists in E as (? & ? & ? & Hc) end.
    apply (listsOk_same _ (model s)); [done.. | | done].
    rewrite Hc. simpl. destruct Hs as ([? ?] & _). lia.
  - (* KeyDown *)
    match goal with E : cursorDown _ _ _ = _ |- _ => unfold cursorDown, resetOutputScroll in E;
      destruct (Z.ltb_spec (cursor (model s)) (len (filteredList (model s)) - 1));
        [| by simplify_eq];
      apply refreshOutput_lists in E as (? & ? & ? & Hc) end.
    apply (listsOk_same _ (model s)); [done.. | | done].
    rewrite Hc. simpl. destruct Hs as ([? ?] & _). lia.
  - (* a key of the filter *)
    destruct Hs as (Hc & Ha & Hsub & Hnd & Hv).
    unfold handleFilterKey. repeat case_match; try done; by apply listsOk_applyFilter.
  - by eapply listsOk_moveItemUp.
  - by eapply listsOk_moveItemDown.
  - match goal with E : toggleSortMode _ _ _ = _ |- _ => unfold toggleSortMode in E;
      eapply listsOk_applySorting; [exact E |] end.
    apply (listsOk_same _ (model s)); [done.. | | done]. by destruct Hs as (? & _).
  - match goal with E : toggleRecursive _ _ _ _ = _ |- _ => unfold toggleRecursive in E;
      eapply listsOk_rediscoverTests; [exact E | done |] end.
    apply (listsOk_same _ (model s)); [done.. | | done]. by destruct Hs as (? & _).
Qed.

Lemma NewModel_wellFormed infos dir : wellFormed (NewModel infos dir).
Proof.
  unfold wellFormed, listsOk, cursorInRange. simpl. split_and!; try done.
  - lia.
  - apply NoDup_seq.
  - intros p Hp%elem_of_seq. rewrite length_fmap. lia.
Qed.

Lemma run_wellFormed tr s s' : run s tr = Some s' -> wellFormed s -> wellFormed s'.
Proof.
  revert s. induction tr as [|l tr IH]; intros s Hrun Hs; simpl in Hrun.
  - by simplify_eq.
  - destruct (step s l) as [s1|] eqn:E; [| done]. simpl in Hrun.
    eauto using step_wellFormed.
Qed.

Lemma reachable_wellFormed infos dir s : reachable infos dir s -> wellFormed s.
Proof. intros [tr H]. eapply run_wellFormed; [done |]. apply NewModel_wellFormed. Qed.
End Shape.

(** ** Cursor, moves and list keys *)

Section Moves.
Implicit Types (s : State) (l : Label) (h : Heap) (m : Model) (p q : nat) (n : nat)
  (ps pre post out : list nat).

(** X4: in every state the program reaches, the cursor is a row of the
    filtered list: it is never negative, it is below the length of the list
    when the list has an element, and it is 0 when the list is empty. *)
Theorem cursor_stays_in_list infos dir s :
  reachable infos dir s ->
  0 <= cursor (model s)
  /\ (filteredList (model s) <> [] -> cursor (model s) < len (filteredList (model s)))
  /\ (filteredList (model s) = [] -> cursor (model s) = 0).
Proof.
  intros ([Hc1 Hc2] & _)%reachable_wellFormed. split_and!; [done | |].
  - intros Hne. destruct (filteredList (model s)); [done |].
    unfold len in *. simpl in *. lia.
  - intros E. rewrite E in Hc2. unfold len in Hc2. simpl in Hc2. lia.
Qed.

Lemma cursor_stays_in_list_witness :
  0 <= cursor (model reorderedState)
  /\ (filteredList (model reorderedState) <> [] ->
      cursor (model reorderedState) < len (filteredList (model reorderedState)))
  /\ (filteredList (model reorderedState) = [] -> cursor (model reorderedState) = 0).
Proof.
  apply (cursor_stays_in_list [testA; testB; testC; testD] "logs").
  exists reordered. by vm_compute.
Defined.

Lemma moveItemDown_shape m pre p q post :
  filteredList m = pre ++ p :: q :: post -> cursor m = len pre ->
  moveItemDown m
  = Some (setCursor (len pre + 1) (writeFiltered (pre ++ q :: p :: post) m)).
Proof.
  intros Hl Hc. unfold moveItemDown.
  assert (len (filteredList m) = len pre + 2 + len post) as Hlen.
  { rewrite Hl. unfold len. rewrite length_app. simpl. lia. }
  pose proof (len_nonneg pre). pose proof (len_nonneg post).
  replace (cursor m >=? len (filteredList m) - 1) with false
    by (symmetry; rewrite Z.geb_leb; apply Z.leb_gt; lia).
  replace (len (filteredList m) =? 0) with false by (symmetry; apply Z.eqb_neq; lia).
  simpl. unfold swap, index.
  replace (cursor m <? 0) with false by (symmetry; apply Z.ltb_ge; lia).
  replace (cursor m + 1 <? 0) with false by (symmetry; apply Z.ltb_ge; lia).
  replace (Z.to_nat (cursor m)) with (length pre) by (unfold len in *; lia).
  replace (Z.to_nat (cursor m + 1)) with (S (length pre)) by (unfold len in *; lia).
  assert (filteredList m !! length pre = Some p) as Hp.
  { rewrite Hl. by rewrite list_lookup_middle. }
  assert (filteredList m !! S (length pre) = Some q) as Hq.
  { rewrite Hl. rewrite (lookup_app_r pre) by lia.
    by replace (S (length pre) - length pre)%nat with 1%nat by lia. }
  rewrite Hp, Hq. simpl.
  destruct (swap_neighbours _ _ _ _ Hp Hq) as (pre' & post' & E & Elen & E1 & _).
  rewrite Hl in E. apply app_inj_1 in E as [<- [= <-]]; [| done].
  rewrite E1. by replace (cursor m + 1) with (len pre + 1) by lia.
Qed.

(** The list around a position that has a predecessor. *)
Lemma split_at_cursor ps c :
  0 < c < len ps ->
  exists pre q p post, ps = pre ++ q :: p :: post /\ c = len pre + 1.
Proof.
  intros Hc.
  destruct (lookup_lt_is_Some_2 ps (Z.to_nat (c - 1))) as [q Hq];
    [unfold len in Hc; lia |].
  destruct (lookup_lt_is_Some_2 ps (S (Z.to_nat (c - 1)))) as [p Hp];
    [unfold len in Hc; lia |].
  destruct (swap_neighbours _ _ _ _ Hq Hp) as (pre & post & E & Elen & _).
  exists pre, q, p, post. split; [done |]. unfold len. lia.
Qed.

(** X6: when the cursor is on a row other than the first, "[" exchanges the
    test under it with the one above and follows it, and "]" pressed next
    puts the session back exactly as it was (also [tests], when the two lists
    are one slice). *)
Theorem move_up_then_down m :
  0 < cursor m < len (filteredList m) ->
  (aliased m = true -> filteredList m = tests m) ->
  exists m', moveItemUp m = Some m'
             /\ cursor m' = cursor m - 1
             /\ index (filteredList m') (cursor m') = index (filteredList m) (cursor m)
             /\ moveItemDown m' = Some m.
Proof.
  intros Hc Ha. destruct (split_at_cursor _ _ Hc) as (pre & q & p & post & Hl & Hcur).
  eexists. split; [by apply (moveItemUp_shape m pre q p post) |].
  split_and!.
  - simpl. lia.
  - cbn [filteredList cursor setCursor writeFiltered]. rewrite Hl, Hcur.
    unfold index. pose proof (len_nonneg pre).
    replace (len pre <? 0) with false by (symmetry; apply Z.ltb_ge; lia).
    replace (len pre + 1 <? 0) with false by (symmetry; apply Z.ltb_ge; lia).
    replace (Z.to_nat (len pre)) with (length pre) by (unfold len; lia).
    replace (Z.to_nat (len pre + 1)) with (S (length pre)) by (unfold len; lia).
    rewrite list_lookup_middle by done. rewrite (lookup_app_r pre) by lia.
    by replace (S (length pre) - length pre)%nat with 1%nat by lia.
  - rewrite (moveItemDown_shape _ pre p q post) by done. f_equal.
    destruct m as [ts c rec sm fm ft fl al ol os au hs clf clt smd st sms cmi ht].
    simpl in *. subst. destruct al; [rewrite (Ha eq_refl) |]; done.
Qed.

Lemma move_up_then_down_witness :
  exists m', moveItemUp (setCursor 2 (model reorderedState)) = Some m'
             /\ cursor m' = cursor (setCursor 2 (model reorderedState)) - 1
             /\ index (filteredList m') (cursor m')
                = index (filteredList (setCursor 2 (model reorderedState)))
                    (cursor (setCursor 2 (model reorderedState)))
             /\ moveItemDown m' = Some (setCursor 2 (model reorderedState)).
Proof.
  apply move_up_then_down; [by vm_compute | by vm_compute].
Defined.

(** X7: while a filter is applied the filtered list is a slice of its own,
    and "[" and "]" reorder that slice only: [tests] keeps its order, and
    the next [applyFilter] computes the list it would have computed without
    the move. *)
Theorem move_under_filter_forgotten h m m' :
  aliased m = false ->
  moveItemUp m = Some m' \/ moveItemDown m = Some m' ->
  tests m' = tests m
  /\ filteredList (applyFilter h m') = filteredList (applyFilter h m).
Proof.
  intros Ha H.
  assert (m' = m \/ exists ps c, m' = setCursor c (writeFiltered ps m)) as [-> | (ps & c & ->)].
  { unfold moveItemUp, moveItemDown in H.
    destruct H as [H|H]; case_match; simplify_option_eq; eauto. }
  - done.
  - rewrite !applyFilter_list. cbn [tests filterText setCursor writeFiltered].
    by rewrite Ha.
Qed.

Lemma move_under_filter_forgotten_witness :
  tests (setCursor 0 (writeFiltered [1; 0]%nat twoMatches)) = tests twoMatches
  /\ filteredList (applyFilter (heap hiddenState)
                     (setCursor 0 (writeFiltered [1; 0]%nat twoMatches)))
     = filteredList (applyFilter (heap hiddenState) twoMatches).
Proof.
  apply move_under_filter_forgotten; [reflexivity | left; reflexivity].
Defined.

Lemma moveItemUp_is_Some m : cursorInRange m -> is_Some (moveItemUp m).
Proof.
  intros [H1 H2]. unfold moveItemUp.
  destruct (Z.leb_spec (cursor m) 0); [done |].
  destruct (Z.eqb_spec (len (filteredList m)) 0); [done |]. simpl.
  pose proof (len_nonneg (filteredList m)).
  unfold swap.
  destruct (index_is_Some (filteredList m) (cursor m)) as [x ->]; [lia |].
  destruct (index_is_Some (filteredList m) (cursor m - 1)) as [y ->]; [lia |]. done.
Qed.

Lemma moveItemDown_is_Some m : cursorInRange m -> is_Some (moveItemDown m).
Proof.
  intros [H1 H2]. unfold moveItemDown.
  destruct (Z.geb_spec (cursor m) (len (filteredList m) - 1)); [done |].
  destruct (Z.eqb_spec (len (filteredList m)) 0); [done |]. simpl.
  unfold swap.
  destruct (index_is_Some (filteredList m) (cursor m)) as [x ->]; [lia |].
  destruct (index_is_Some (filteredList m) (cursor m + 1)) as [y ->]; [lia |]. done.
Qed.

Lemma refreshOutput_is_Some h r m : 0 <= cursor m -> is_Some (refreshOutput h r m).
Proof.
  intros Hc. unfold refreshOutput.
  destruct (Z.eqb_spec (len (filteredList m)) 0); [done |].
  destruct (Z.geb_spec (cursor m) (len (filteredList m))); [done |]. simpl.
  destruct (index_is_Some (filteredList m) (cursor m)) as [p ->]; [lia |]. simpl.
  repeat case_match; done.
Qed.

Lemma applySorting_is_Some h out m :
  0 <= cursor m ->
  sortOutcome (less h (sortMode m)) (filteredList m) out = true ->
  is_Some (applySorting h out m).
Proof.
  intros Hc Ho. unfold applySorting. rewrite Ho.
  destruct (Z.gtb_spec (len (filteredList m)) 0); simpl; [| done].
  destruct (Z.ltb_spec (cursor m) (len (filteredList m))); simpl; [| done].
  destruct (index_is_Some (filteredList m) (cursor m)) as [p ->]; [lia |]. done.
Qed.

End Moves.

(** ** Selection *)

Section Selection.
Implicit Types (s : State) (l : Label) (h : Heap) (m : Model) (p q : nat)
  (ps : list nat) (it : TestItem) (f : TestItem -> TestItem).

(** A loop that assigns to the items of a list, one [alter] per element. *)
Lemma fold_alter_notin f ps h p :
  p ∉ ps -> fold_left (fun h t => alter f t h) ps h !! p = h !! p.
Proof.
  revert h. induction ps as [|q ps IH]; intros h Hp; [done |]. simpl.
  apply not_elem_of_cons in Hp as [Hne Hp]. rewrite IH by done.
  by rewrite list_lookup_alter_ne.
Qed.

Lemma fold_alter_in f ps h p :
  (forall it, f (f it) = f it) -> p ∈ ps ->
  fold_left (fun h t => alter f t h) ps h !! p = f <$> h !! p.
Proof.
  intros Hf. revert h. induction ps as [|q ps IH]; intros h Hp; [by apply elem_of_nil in Hp |].
  simpl. destruct (decide (p ∈ ps)) as [Hin|Hnin].
  - rewrite IH by done. destruct (decide (q = p)) as [->|Hne].
    + rewrite list_lookup_alter_eq. destruct (h !! p); simpl; [by rewrite Hf | done].
    + by rewrite list_lookup_alter_ne.
  - apply elem_of_cons in Hp as [->|?]; [| done].
    rewrite fold_alter_notin by done. by rewrite list_lookup_alter_eq.
Qed.

Lemma fold_alter_commute f q ps h :
  fold_left (fun h t => alter f t h) ps (alter f q h)
  = alter f q (fold_left (fun h t => alter f t h) ps h).
Proof.
  revert h. induction ps as [|p ps IH]; intros h; [done |]. simpl.
  rewrite <- IH. f_equal. destruct (decide (p = q)) as [->|Hne]; [done |].
  by apply list_alter_alter_ne.
Qed.

Lemma invertSelected_twice it : invertSelected (invertSelected it) = it.
Proof. destruct it as [? ? []]; done. Qed.

(** X9: "a" and "d" set, respectively clear, the mark of every test of the
    filtered list and write nothing else: a test outside the list keeps its
    mark, and no other field of any item changes. *)
Theorem select_all_marks_the_view h m p :
  selectAll h m !! p
  = (if decide (p ∈ filteredList m) then setSelected true <$> h !! p else h !! p)
  /\ deselectAll h m !! p
     = (if decide (p ∈ filteredList m) then setSelected false <$> h !! p else h !! p).
Proof.
  unfold selectAll, deselectAll. case_decide.
  - by rewrite !fold_alter_in.
  - by rewrite !fold_alter_notin.
Qed.

(** X10: "i" pressed twice restores every mark, whatever the filtered list
    holds. *)
Theorem invert_selection_twice h m :
  invertSelection (invertSelection h m) m = h.
Proof.
  unfold invertSelection. revert h.
  induction (filteredList m) as [|p ps IH]; intros h; [done |]. simpl.
  rewrite !fold_alter_commute, IH.
  rewrite list_alter_alter_eq. apply list_alter_id. intros it.
  apply invertSelected_twice.
Qed.

Lemma fold_alter_once f ps h p :
  NoDup ps -> p ∈ ps ->
  fold_left (fun h t => alter f t h) ps h !! p = f <$> h !! p.
Proof.
  revert h. induction ps as [|q ps IH]; intros h Hnd Hp; [by apply elem_of_nil in Hp |].
  apply NoDup_cons in Hnd as [Hq Hnd]. simpl.
  apply elem_of_cons in Hp as [->|Hp].
  - rewrite fold_alter_notin by done. by rewrite list_lookup_alter_eq.
  - rewrite IH by done. rewrite list_lookup_alter_ne; [done |]. by intros ->.
Qed.

(** The loop of [runSelectedTests] collects the marked items of the list. *)
Lemma selectedLoop_acc h ps b calls :
  fold_left
    (fun '(hasSelected, calls) t =>
       if selectedOf h t then (true, calls ++ [t]) else (hasSelected, calls))
    ps (b, calls)
  = (b || negb (bool_decide (filter (fun p => selectedOf h p = true) ps = [])),
     calls ++ filter (fun p => selectedOf h p = true) ps).
Proof.
  revert b calls. induction ps as [|p ps IH]; intros b calls; simpl.
  - by rewrite orb_false_r, app_nil_r.
  - rewrite filter_cons. destruct (selectedOf h p) eqn:E.
    + rewrite IH, decide_True by done. simpl. rewrite orb_true_r.
      by rewrite <- app_assoc.
    + rewrite IH, decide_False by done. done.
Qed.

Lemma selectedLoop_filter h ps :
  selectedLoop h ps
  = (negb (bool_decide (filter (fun p => selectedOf h p = true) ps = [])),
     filter (fun p => selectedOf h p = true) ps).
Proof. unfold selectedLoop. by rewrite selectedLoop_acc. Qed.

(** X12: "g" hands to [QueueTest] the marked tests of the filtered list, in
    the order of the list, whenever one of them is marked.  When none is
    marked it hands over the test under the cursor and no other, and nothing
    when the list is empty or the cursor is past its end; with a negative
    cursor on a list that is not empty it panics (the session never has one,
    X4).  It never hands over a test outside the filtered list, and "t"
    hands the same tests to [StopTest]. *)
Theorem selection_overrides_cursor h m :
  (filter (fun p => selectedOf h p = true) (filteredList m) <> [] ->
   runSelectedTests h m
   = Some (filter (fun p => selectedOf h p = true) (filteredList m)))
  /\ (filter (fun p => selectedOf h p = true) (filteredList m) = [] ->
      (forall p, index (filteredList m) (cursor m) = Some p ->
                 runSelectedTests h m = Some [p])
      /\ (filteredList m = [] \/ len (filteredList m) <= cursor m ->
          runSelectedTests h m = Some [])
      /\ (filteredList m <> [] -> cursor m < 0 -> runSelectedTests h m = None))
  /\ (forall calls p, runSelectedTests h m = Some calls -> p ∈ calls -> p ∈ filteredList m)
  /\ stopSelectedTests h m = runSelectedTests h m.
Proof.
  unfold stopSelectedTests, runSelectedTests. rewrite selectedLoop_filter.
  set (marked := filter _ _).
  assert (len (filteredList m) = 0 <-> filteredList m = []) as Hnil.
  { unfold len. destruct (filteredList m); simpl; split; (done || lia). }
  pose proof (len_nonneg (filteredList m)) as Hlen.
  split_and!.
  - intros Hne. by rewrite bool_decide_eq_false_2 by done.
  - intros ->. simpl. split_and!.
    + intros p Hp. pose proof (index_lt_len _ _ _ Hp).
      replace (len (filteredList m) >? 0) with true by (symmetry; apply Z.gtb_lt; lia).
      replace (cursor m <? len (filteredList m)) with true by (symmetry; apply Z.ltb_lt; lia).
      by rewrite Hp.
    + intros [E%Hnil | Hc].
      * by replace (len (filteredList m) >? 0) with false
          by (symmetry; rewrite Z.gtb_ltb; apply Z.ltb_ge; lia).
      * replace (cursor m <? len (filteredList m)) with false by (symmetry; apply Z.ltb_ge; lia).
        by rewrite andb_false_r.
    + intros Hne Hc.
      assert (len (filteredList m) <> 0) by (by intros ?%Hnil).
      replace (len (filteredList m) >? 0) with true by (symmetry; apply Z.gtb_lt; lia).
      replace (cursor m <? len (filteredList m)) with true by (symmetry; apply Z.ltb_lt; lia).
      simpl. unfold index. by replace (cursor m <? 0) with true by (symmetry; apply Z.ltb_lt; lia).
  - intros calls p H Hp. destruct (decide (marked = [])) as [E|E].
    + rewrite E in H. simpl in H. destruct (_ && _).
      * destruct (index (filteredList m) (cursor m)) as [q|] eqn:Hq; [| done].
        simpl in H. injection H as <-.
        apply list_elem_of_singleton in Hp as ->. by eapply index_elem_of.
      * injection H as <-. by apply elem_of_nil in Hp.
    + rewrite bool_decide_eq_false_2 in H by done. simpl in H. injection H as <-.
      by apply list_elem_of_filter in Hp as [_ ?].
  - done.
Qed.

(** No step of the scheduler or of a goroutine writes [Selected]. *)
Lemma selectedOf_insert h q it p :
  (forall it0, h !! q = Some it0 -> Selected it = Selected it0) ->
  selectedOf (<[q := it]> h) p = selectedOf h p.
Proof.
  intros Hq. unfold selectedOf. destruct (decide (q = p)) as [->|Hne].
  - destruct (h !! p) as [it0|] eqn:E.
    + rewrite list_lookup_insert_eq by apply (lookup_lt_Some _ _ _ E). by apply Hq.
    + rewrite list_insert_ge by (by apply lookup_ge_None). by rewrite E.
  - by rewrite list_lookup_insert_ne.
Qed.

Lemma selectedOf_alter h f q p :
  (forall it, Selected (f it) = Selected it) ->
  selectedOf (alter f q h) p = selectedOf h p.
Proof.
  intros Hf. unfold selectedOf. destruct (decide (q = p)) as [->|Hne].
  - rewrite list_lookup_alter_eq. destruct (h !! p); simpl; [apply Hf | done].
  - by rewrite list_lookup_alter_ne.
Qed.

(** X13: no call of the runner and no goroutine writes a mark: every step
    of the transition system leaves [Selected] of every allocated item as it
    is (so the marks "g" and "t" read during their loop are those the loop
    started with). *)
Theorem steps_keep_selection s l s' p :
  step s l = Some s' -> (p < length (heap s))%nat ->
  selectedOf (heap s') p = selectedOf (heap s) p.
Proof.
  intros H Hp. destruct l; simpl in H; step_inv H; repeat case_match; simpl;
    try done; try (by apply selectedOf_alter).
  - apply selectedOf_insert. intros it0 E. simplify_eq.
    match goal with E : QueueTest _ _ _ _ = _ |- _ => apply QueueTest_Some in E as [-> _] end.
    done.
  - apply selectedOf_insert. intros it0 E. simplify_eq.
    match goal with E : StopTest ?x = _ |- _ => unfold StopTest in E;
      destruct (Status x); by simplify_eq end.
  - apply selectedOf_insert. intros it0 E. simplify_eq.
    match goal with E : StopTest ?x = _ |- _ => unfold StopTest in E;
      destruct (Status x); by simplify_eq end.
  - match goal with E : toggleRecursive _ _ _ _ = _ |- _ =>
      apply rediscoverTests_heap in E as -> end.
    destruct (err d); [done |]. unfold selectedOf. by rewrite lookup_app_l.
Qed.

Lemma steps_keep_selection_witness :
  selectedOf (heap stoppedState) 0 = selectedOf (heap launchedState) 0.
Proof.
  apply (steps_keep_selection launchedState (DoStopTest 0)); [by vm_compute | simpl; lia].
Defined.
End Selection.

(** ** The output pane and what is drawn *)

Section RightPane.
Implicit Types (m : Model) (key : string).

(** The scroll keys leave the buffer and the window as they are. *)
Lemma handleRightPaneKey_frame key m m' :
  handleRightPaneKey key m = Some m' ->
  outputLines m' = outputLines m /\ height m' = height m
  /\ filteredList m' = filteredList m /\ cursor m' = cursor m /\ tests m' = tests m.
Proof.
  unfold handleRightPaneKey, goToNextMatch, goToPrevMatch. intros H.
  repeat (case_match; simplify_option_eq; try done).
Qed.

Lemma maxOutputScroll_nonneg m : 0 <= maxOutputScroll m.
Proof. unfold maxOutputScroll. case_match eqn:E; [done |]. by apply Z.ltb_ge in E. Qed.

(** An [int] that is not the result of an overflow is left as it is. *)
Lemma wrapInt_id z : - 2 ^ 63 <= z <= MaxInt -> wrapInt z = z.
Proof. unfold wrapInt, MaxInt. intros H. rewrite Z.mod_small; lia. Qed.

(** X14: for a window of at least three rows, the scroll keys of the output
    pane (every key but "n" and "N", which jump to a match) keep the scroll
    position between 0 and [maxOutputScroll] and keep tail mode coupled to
    the position: when [autoScroll] is set afterwards the position is
    [maxOutputScroll].  They keep the horizontal position from going
    negative as long as it is below the largest [int], where "right" wraps
    around. *)
Theorem scroll_keys_stay_in_buffer key m m' :
  0 <= outputHeight m ->
  key <> "n" -> key <> "N" ->
  handleRightPaneKey key m = Some m' ->
  0 <= outputScroll m <= maxOutputScroll m ->
  (autoScroll m = true -> outputScroll m = maxOutputScroll m) ->
  0 <= horizontalScroll m ->
  maxOutputScroll m' = maxOutputScroll m
  /\ 0 <= outputScroll m' <= maxOutputScroll m'
  /\ (autoScroll m' = true -> outputScroll m' = maxOutputScroll m')
  /\ (horizontalScroll m < MaxInt -> 0 <= horizontalScroll m')
  /\ (horizontalScroll m = MaxInt -> key = "right" \/ key = "l" ->
      horizontalScroll m' = - MaxInt - 1).
Proof.
  intros Hh Hn HN H Hs Ha Hz.
  assert (maxOutputScroll m' = maxOutputScroll m) as Hmax.
  { apply handleRightPaneKey_frame in H as (Hl & Hht & _).
    unfold maxOutputScroll, outputHeight. by rewrite Hl, Hht. }
  rewrite Hmax. split; [done |].
  pose proof (maxOutputScroll_nonneg m) as Hm.
  unfold handleRightPaneKey in H.
  destruct (String.eqb_spec key "n"); [done |].
  destruct (String.eqb_spec key "N"); [done |].
  repeat (match type of H with
          | context [String.eqb ?a ?b] => destruct (String.eqb_spec a b)
          end; cbn [orb] in H).
  all: injection H as <-.
  all: repeat match goal with
         | |- context [?a >? ?b] => destruct (Z.gtb_spec a b)
         | |- context [?a <? ?b] => destruct (Z.ltb_spec a b)
         | |- context [?a >=? ?b] => destruct (Z.geb_spec a b)
         end;
       cbn [outputScroll autoScroll horizontalScroll setScroll setHorizontalScroll setSearch] in *;
       repeat match goal with
         | |- context [?a >? ?b] => destruct (Z.gtb_spec a b)
         | |- context [?a <? ?b] => destruct (Z.ltb_spec a b)
         | |- context [?a >=? ?b] => destruct (Z.geb_spec a b)
         end;
       cbn [outputScroll autoScroll horizontalScroll setScroll setHorizontalScroll setSearch] in *;
       split_and!; try lia; try (intros; lia); try done;
       try (intros Hx; specialize (Ha Hx); lia);
       try (intros Hlt; rewrite wrapInt_id by (unfold MaxInt in *; lia); lia);
       try (intros _ [-> | ->]; done);
       try (intros -> _; by vm_compute).
Qed.

Lemma scroll_keys_stay_in_buffer_witness :
  maxOutputScroll (setScroll 3 false scrollDemo) = maxOutputScroll scrollDemo
  /\ 0 <= outputScroll (setScroll 3 false scrollDemo)
       <= maxOutputScroll (setScroll 3 false scrollDemo)
  /\ (autoScroll (setScroll 3 false scrollDemo) = true ->
      outputScroll (setScroll 3 false scrollDemo)
      = maxOutputScroll (setScroll 3 false scrollDemo))
  /\ (horizontalScroll scrollDemo < MaxInt ->
      0 <= horizontalScroll (setScroll 3 false scrollDemo))
  /\ (horizontalScroll scrollDemo = MaxInt -> "up" = "right" \/ "up" = "l" ->
      horizontalScroll (setScroll 3 false scrollDemo) = - MaxInt - 1).
Proof.
  apply (scroll_keys_stay_in_buffer "up" scrollDemo); done.
Defined.

(** X15: [maxOutputScroll] takes the pane to show [height - 3] lines, but
    [renderRightPane] draws [height - 7]: for a window of at least 8 rows and
    a log with more lines than are drawn, at no scroll position up to
    [maxOutputScroll] (all that tail mode and the scroll keys reach) is the
    last line of the log drawn; the window ends at least four lines before
    the end of a log that needs scrolling. *)
Theorem last_lines_out_of_reach m :
  8 <= height m ->
  height m - 7 < len (outputLines m) ->
  outputScroll m <= maxOutputScroll m ->
  (visibleOutput m).2 < len (outputLines m)
  /\ (visibleOutput m).2 <= Z.max (len (outputLines m) - 4) (height m - 7).
Proof.
  unfold visibleOutput, maxOutputScroll, outputHeight. cbn [snd].
  intros Hh Hl Hs.
  repeat match goal with
         | |- context [?a >? ?b] => destruct (Z.gtb_spec a b)
         | |- context [?a <? ?b] => destruct (Z.ltb_spec a b)
         | H : context [?a <? ?b] |- _ => destruct (Z.ltb_spec a b)
         end; lia.
Qed.

Lemma last_lines_out_of_reach_witness :
  (visibleOutput scrollDemo).2 < len (outputLines scrollDemo)
  /\ (visibleOutput scrollDemo).2
     <= Z.max (len (outputLines scrollDemo) - 4) (height scrollDemo - 7).
Proof. apply last_lines_out_of_reach; by vm_compute. Defined.

(** X16: the rows [renderLeftPane] draws are rows of the filtered list (no
    index is out of range, whatever the height), and for a window of at
    least 7 rows the row under the cursor is one of them. *)
Theorem cursor_row_is_drawn m :
  0 <= cursor m ->
  (forall i, (visibleTests m).1 <= i < (visibleTests m).2 ->
             0 <= i < len (filteredList m))
  /\ (7 <= height m -> cursor m < len (filteredList m) ->
      (visibleTests m).1 <= cursor m < (visibleTests m).2).
Proof.
  unfold visibleTests. cbn [fst snd]. intros Hc.
  pose proof (len_nonneg (filteredList m)).
  destruct (filterMode m || negb (String.eqb (filterText m) ""));
    repeat match goal with
           | |- context [?a >? ?b] => destruct (Z.gtb_spec a b)
           | |- context [?a >=? ?b] => destruct (Z.geb_spec a b)
           end; split; intros; lia.
Qed.

Lemma cursor_row_is_drawn_witness :
  (forall i, (visibleTests listDemo).1 <= i < (visibleTests listDemo).2 ->
             0 <= i < len (filteredList listDemo))
  /\ (7 <= height listDemo -> cursor listDemo < len (filteredList listDemo) ->
      (visibleTests listDemo).1 <= cursor listDemo < (visibleTests listDemo).2).
Proof. apply cursor_row_is_drawn. by vm_compute. Defined.
End RightPane.

(** ** Search and refresh *)

Section SearchKeys.
Implicit Types (m : Model) (key : string) (h : Heap).

Lemma performSearch_frame m :
  outputLines (performSearch m) = outputLines m
  /\ searchText (performSearch m) = searchText m
  /\ searchMode (performSearch m) = searchMode m
  /\ outputScroll (performSearch m) = outputScroll m
  /\ autoScroll (performSearch m) = autoScroll m.
Proof. unfold performSearch. simpl. by destruct (String.eqb _ _). Qed.

Lemma performSearch_empty m : searchText m = "" -> searchMatches (performSearch m) = [].
Proof. intros E. unfold performSearch. simpl. by rewrite E. Qed.

(** X17: "enter" in search mode always returns; it leaves search mode,
    records as matches the indices of the lines that contain the text without
    regard to case (for a text and lines of ASCII bytes: some segment of the
    line is the text up to the case of its letters; none for an empty text)
    and, when there is a match, goes to the first: the match index is 0, the
    scroll position is the least matching line and tail mode is off.  When
    nothing matches, position and tail mode stay as they were. *)
Theorem search_enter_goes_to_first_match m :
  isASCII (searchText m) = true ->
  (forall line, line ∈ outputLines m -> isASCII line = true) ->
  exists m',
    handleSearchKey "enter" m = Some m'
    /\ searchMode m' = false /\ searchText m' = searchText m
    /\ (forall i, i ∈ searchMatches m' <->
          searchText m <> "" /\
          exists k line, i = Z.of_nat k /\ outputLines m !! k = Some line
                         /\ occursFold (searchText m) line)
    /\ match searchMatches m' with
       | [] => currentMatchIdx m' = -1 /\ outputScroll m' = outputScroll m
               /\ autoScroll m' = autoScroll m
       | first :: _ =>
           currentMatchIdx m' = 0 /\ outputScroll m' = first /\ autoScroll m' = false
           /\ forall j, j ∈ searchMatches m' -> first <= j
       end.
Proof.
  intros _ _. unfold handleSearchKey. cbn [String.eqb Ascii.eqb Bool.eqb].
  set (m0 := setSearch false (searchText m) (searchMatches m) (currentMatchIdx m) m).
  pose proof (performSearch_frame m0) as (Hl & Ht & Hm & Hs & Ha).
  pose proof (performSearch_idx m0) as Hi.
  assert (forall i, i ∈ searchMatches (performSearch m0) <->
            searchText m <> "" /\
            exists k line, i = Z.of_nat k /\ outputLines m !! k = Some line
                           /\ occursFold (searchText m) line) as Hel.
  { intros i. destruct (String.eqb_spec (searchText m) "") as [E|E].
    - rewrite performSearch_empty by done. split; [by intros ?%elem_of_nil | by intros []].
    - rewrite performSearch_matches by done. cbn [searchText outputLines m0 setSearch].
      rewrite searchLoop_elem. split.
      + intros (k & line & ? & -> & Hc). split; [done |].
        exists k, line. split_and!; [lia | done |]. by apply containsFold_occursFold.
      + intros (_ & k & line & -> & ? & Hc%containsFold_occursFold).
        exists k, line. split_and!; [done | lia | done]. }
  assert (StronglySorted Z.lt (searchMatches (performSearch m0))) as Hsorted.
  { destruct (String.eqb_spec (searchText m) "") as [E|E].
    - rewrite performSearch_empty by done. constructor.
    - rewrite performSearch_matches by done. apply searchLoop_sorted. }
  unfold goToNextMatch. rewrite Hi.
  destruct (searchMatches (performSearch m0)) as [|first rest] eqn:Hms.
  - eexists. split; [reflexivity |]. rewrite Hms. by split_and!.
  - assert ((len (first :: rest) =? 0) = false) as ->.
    { apply Z.eqb_neq. unfold len. simpl. lia. }
    cbn zeta. replace (-1 + 1) with 0 by lia.
    assert ((0 >=? len (first :: rest)) = false) as ->.
    { rewrite Z.geb_leb. apply Z.leb_gt. unfold len. simpl. lia. }
    cbn [index Z.ltb Z.compare Z.to_nat lookup list_lookup mbind option_bind].
    eexists. split; [reflexivity |].
    cbn [searchMode searchText searchMatches currentMatchIdx outputScroll autoScroll
         setScroll setSearch].
    split_and!; try done.
    intros j [->|Hj]%elem_of_cons; [lia |].
    apply StronglySorted_inv in Hsorted as [_ Hall].
    rewrite Forall_forall in Hall. specialize (Hall j Hj). lia.
Qed.

Lemma search_enter_goes_to_first_match_witness :
  exists m',
    handleSearchKey "enter" searchDemo = Some m'
    /\ searchMode m' = false /\ searchText m' = searchText searchDemo
    /\ (forall i, i ∈ searchMatches m' <->
          searchText searchDemo <> "" /\
          exists k line, i = Z.of_nat k /\ outputLines searchDemo !! k = Some line
                         /\ occursFold (searchText searchDemo) line)
    /\ match searchMatches m' with
       | [] => currentMatchIdx m' = -1 /\ outputScroll m' = outputScroll searchDemo
               /\ autoScroll m' = autoScroll searchDemo
       | first :: _ =>
           currentMatchIdx m' = 0 /\ outputScroll m' = first /\ autoScroll m' = false
           /\ forall j, j ∈ searchMatches m' -> first <= j
       end.
Proof.
  apply search_enter_goes_to_first_match.
  - reflexivity.
  - intros line Hl. vm_compute in Hl.
    repeat (apply elem_of_cons in Hl as [->|Hl]; [reflexivity |]).
    by apply elem_of_nil in Hl.
Defined.

(** X18: a refresh either loads a log or empties the buffer.  When it loads
    one, the scroll position becomes [maxOutputScroll] of the new buffer in
    tail mode and is kept otherwise; when it loads none, the buffer is empty
    and the position is kept.  It never changes tail mode, the horizontal
    position or the recorded matches of a search, and for a test that has a
    log file of its own no other file is shown. *)
Theorem refresh_follows_tail h r m m' :
  refreshOutput h r m = Some m' ->
  autoScroll m' = autoScroll m
  /\ horizontalScroll m' = horizontalScroll m
  /\ searchMatches m' = searchMatches m
  /\ ((outputLines m' = [] /\ currentLogFile m' = NoLog /\ currentLogTimestamp m' = None
       /\ outputScroll m' = outputScroll m)
      \/ (currentLogFile m' <> NoLog
          /\ outputScroll m' = if autoScroll m then maxOutputScroll m' else outputScroll m))
  /\ forall p it, index (filteredList m) (cursor m) = Some p -> h !! p = Some it ->
       LogFile it <> NoLog -> currentLogFile m' = NoLog \/ currentLogFile m' = LogFile it.
Proof.
  unfold refreshOutput, clearOutput. intros H. split_and!.
  - repeat (simplify_option_eq || case_match); done.
  - repeat (simplify_option_eq || case_match); done.
  - repeat (simplify_option_eq || case_match); done.
  - repeat (simplify_option_eq || case_match);
      first [by left | right; split; [done |]; simpl; by repeat case_match].
  - intros p it Hp Hit Hlog. pose proof (index_lt_len _ _ _ Hp) as Hc.
    replace (len (filteredList m) =? 0) with false in H by (symmetry; apply Z.eqb_neq; lia).
    replace (cursor m >=? len (filteredList m)) with false in H
      by (symmetry; rewrite Z.geb_leb; apply Z.leb_gt; lia).
    rewrite Hp in H. simpl in H. rewrite Hit in H. simpl in H.
    destruct (LogFile it) as [|d n t]; [done |].
    destruct (opened r) as [[mt lines]|]; injection H as <-; [right | by left].
    by destruct (autoScroll m).
Qed.

Lemma refresh_follows_tail_witness :
  autoScroll refreshedModel = autoScroll (model oneWaitingState)
  /\ horizontalScroll refreshedModel = horizontalScroll (model oneWaitingState)
  /\ searchMatches refreshedModel = searchMatches (model oneWaitingState)
  /\ ((outputLines refreshedModel = [] /\ currentLogFile refreshedModel = NoLog
       /\ currentLogTimestamp refreshedModel = None
       /\ outputScroll refreshedModel = outputScroll (model oneWaitingState))
      \/ (currentLogFile refreshedModel <> NoLog
          /\ outputScroll refreshedModel
             = if autoScroll (model oneWaitingState) then maxOutputScroll refreshedModel
               else outputScroll (model oneWaitingState)))
  /\ forall p it,
       index (filteredList (model oneWaitingState)) (cursor (model oneWaitingState)) = Some p ->
       heap oneWaitingState !! p = Some it ->
       LogFile it <> NoLog ->
       currentLogFile refreshedModel = NoLog \/ currentLogFile refreshedModel = LogFile it.
Proof. apply (refresh_follows_tail (heap oneWaitingState) logReading). reflexivity. Defined.
End SearchKeys.

(** ** The session as a whole *)

Section Sessions.
Implicit Types (s : State) (l : Label) (e : Event) (evs : list Event) (h : Heap) (m : Model)
  (p q : nat) (ps out : list nat) (it : TestItem) (F : list TestInfo)
  (f : TestItem -> TestItem).

(** Writing to an item without touching what was discovered of it. *)
Lemma info_insert h q it it0 p :
  h !! q = Some it0 -> Info it = Info it0 ->
  Info <$> <[q := it]> h !! p = Info <$> h !! p.
Proof.
  intros Hq Hi. destruct (decide (q = p)) as [->|Hne].
  - rewrite list_lookup_insert_eq by (by eapply lookup_lt_Some). rewrite Hq. simpl. by rewrite Hi.
  - by rewrite list_lookup_insert_ne.
Qed.

Lemma info_alter h f q p :
  (forall it, Info (f it) = Info it) ->
  Info <$> alter f q h !! p = Info <$> h !! p.
Proof.
  intros Hf. destruct (decide (q = p)) as [->|Hne].
  - rewrite list_lookup_alter_eq. destruct (h !! p); simpl; [by rewrite Hf | done].
  - by rewrite list_lookup_alter_ne.
Qed.

Lemma info_fold_alter f ps h p :
  (forall it, Info (f it) = Info it) ->
  Info <$> fold_left (fun h t => alter f t h) ps h !! p = Info <$> h !! p.
Proof.
  intros Hf. revert h. induction ps as [|q ps IH]; intros h; [done |]. simpl.
  rewrite IH. by apply info_alter.
Qed.

Lemma length_fold_alter f ps h :
  length (fold_left (fun h t => alter f t h) ps h) = length h.
Proof.
  revert h. induction ps as [|q ps IH]; intros h; [done |]. simpl.
  by rewrite IH, length_alter.
Qed.

(** No step changes what was discovered of an allocated item, and none
    frees an item. *)
Lemma step_info s l s' p :
  step s l = Some s' -> (p < length (heap s))%nat ->
  Info <$> heap s' !! p = Info <$> heap s !! p.
Proof.
  intros H Hp. destruct l; simpl in H; step_inv H; repeat case_match; simpl;
    try done; try (by apply info_alter).
  - eapply info_insert; [done |].
    match goal with E : QueueTest _ _ _ _ = _ |- _ => apply QueueTest_Some in E as [-> _] end.
    done.
  - eapply info_insert; [done |].
    match goal with E : StopTest ?x = _ |- _ => unfold StopTest in E;
      destruct (Status x); by simplify_eq end.
  - eapply info_insert; [done |].
    match goal with E : StopTest ?x = _ |- _ => unfold StopTest in E;
      destruct (Status x); by simplify_eq end.
  - match goal with E : toggleRecursive _ _ _ _ = _ |- _ =>
      apply rediscoverTests_heap in E as -> end.
    destruct (err d); [done |]. by rewrite lookup_app_l.
Qed.

Lemma step_length s l s' : step s l = Some s' -> (length (heap s) <= length (heap s'))%nat.
Proof.
  intros H. destruct l; simpl in H; step_inv H; repeat case_match; simpl;
    rewrite ?length_insert, ?length_alter; try done.
  match goal with E : toggleRecursive _ _ _ _ = _ |- _ =>
    apply rediscoverTests_heap in E as -> end.
  destruct (err d); [done |]. rewrite length_app. lia.
Qed.

(** The model between two steps. *)
Lemma rearranged_same m m' :
  (aliased m = true -> filteredList m = tests m) ->
  tests m' = tests m -> filteredList m' = filteredList m -> aliased m' = aliased m ->
  filterMode m' = filterMode m -> filterText m' = filterText m ->
  rearranged m m'.
Proof.
  intros Ha Ht Hf Hal Hfm Hft. unfold rearranged. rewrite Ht, Hf. split_and!; try done.
  destruct (aliased m) eqn:E; [by rewrite Ha | done].
Qed.

Lemma rearranged_write m out c :
  out ≡ₚ filteredList m -> rearranged m (setCursor c (writeFiltered out m)).
Proof. intros H. unfold rearranged. simpl. by split_and!. Qed.

Lemma refreshOutput_filter h r m m' :
  refreshOutput h r m = Some m' ->
  filterMode m' = filterMode m /\ filterText m' = filterText m.
Proof.
  unfold refreshOutput, clearOutput. intros H.
  repeat (simplify_option_eq || case_match); done.
Qed.

Lemma moveItemUp_rearranged m m' :
  (aliased m = true -> filteredList m = tests m) ->
  moveItemUp m = Some m' -> rearranged m m'.
Proof.
  intros Ha. unfold moveItemUp. case_match eqn:E.
  - intros [= <-]. by apply rearranged_same.
  - destruct (swap _ _ _) as [ps|] eqn:Hs; [| done]. intros [= <-].
    apply rearranged_write. eapply swap_perm; [| done]. lia.
Qed.

Lemma moveItemDown_rearranged m m' :
  (aliased m = true -> filteredList m = tests m) ->
  moveItemDown m = Some m' -> rearranged m m'.
Proof.
  intros Ha. unfold moveItemDown. case_match eqn:E.
  - intros [= <-]. by apply rearranged_same.
  - destruct (swap _ _ _) as [ps|] eqn:Hs; [| done]. intros [= <-].
    apply rearranged_write. eapply swap_perm; [| done]. lia.
Qed.

Lemma applySorting_rearranged h out m m' :
  applySorting h out m = Some m' -> rearranged m m'.
Proof.
  unfold applySorting. intros H.
  destruct (if _ && _ then _ else _) as [currentItem|]; [| done]. simpl in H.
  destruct (sortOutcome _ _ _) eqn:Ho; [| done]. apply sortOutcome_perm in Ho.
  injection H as <-.
  destruct currentItem as [p|]; [destruct (positionOf p _) as [i|] |];
    first [by apply rearranged_write
          | replace (writeFiltered out m) with (setCursor (cursor m) (writeFiltered out m)) by done;
            by apply rearranged_write].
Qed.

(** Every step but a key of the filter and a re-discovery rearranges the
    filtered list at most. *)
Lemma step_rearranged s l s' :
  step s l = Some s' -> wellFormed s ->
  match l with
  | KeySlash | FilterKey _ | ToggleRecursive _ _ => True
  | _ => rearranged (model s) (model s')
  end.
Proof.
  intros H (_ & Ha & _). destruct l; try done; simpl in H; step_inv H;
    repeat case_match; simpl; try (by apply rearranged_same).
  - match goal with E : refreshOutput _ _ _ = _ |- _ =>
      pose proof (refreshOutput_filter _ _ _ _ E) as [? ?];
      apply refreshOutput_lists in E as (? & ? & ? & _) end.
    by apply rearranged_same.
  - match goal with E : cursorUp _ _ _ = _ |- _ => unfold cursorUp, resetOutputScroll in E;
      destruct (cursor (model s) >? 0); [| simplify_eq; by apply rearranged_same];
      pose proof (refreshOutput_filter _ _ _ _ E) as [? ?];
      apply refreshOutput_lists in E as (? & ? & ? & _) end.
    by apply rearranged_same.
  - match goal with E : cursorDown _ _ _ = _ |- _ => unfold cursorDown, resetOutputScroll in E;
      destruct (cursor (model s) <? _); [| simplify_eq; by apply rearranged_same];
      pose proof (refreshOutput_filter _ _ _ _ E) as [? ?];
      apply refreshOutput_lists in E as (? & ? & ? & _) end.
    by apply rearranged_same.
  - by apply moveItemUp_rearranged.
  - by apply moveItemDown_rearranged.
  - match goal with E : toggleSortMode _ _ _ = _ |- _ => unfold toggleSortMode in E;
      apply applySorting_rearranged in E end.
    done.
Qed.

Lemma filter_perm_all {A} (P : A -> Prop) `{!forall x, Decision (P x)} (k : list A) :
  k ≡ₚ filter P k -> Forall P k.
Proof.
  intros Hk. assert (length (filter P k) = length k) as Hlen by (by rewrite <- Hk).
  clear Hk. induction k as [|x k IH]; [done |].
  rewrite filter_cons in Hlen. destruct (decide (P x)); simpl in Hlen.
  - constructor; [done |]. apply IH. lia.
  - pose proof (length_filter P k). lia.
Qed.

Lemma filter_all_in {A} (P : A -> Prop) `{!forall x, Decision (P x)} (k : list A) :
  Forall P k -> filter P k = k.
Proof.
  induction 1 as [|x k Hx _ IH]; [done |]. by rewrite filter_cons_True, IH.
Qed.

Lemma filter_ext_in {A} (P Q : A -> Prop) `{!forall x, Decision (P x)}
    `{!forall x, Decision (Q x)} (k : list A) :
  (forall x, x ∈ k -> (P x <-> Q x)) -> filter P k = filter Q k.
Proof.
  induction k as [|x k IH]; intros Hk; [done |]. rewrite !filter_cons.
  rewrite IH by (intros y Hy; apply Hk; by apply list_elem_of_further).
  pose proof (Hk x (list_elem_of_here _ _)).
  destruct (decide (P x)), (decide (Q x)); tauto.
Qed.

Lemma nameOf_info h h' p : Info <$> h' !! p = Info <$> h !! p -> nameOf h' p = nameOf h p.
Proof. unfold nameOf. destruct (h' !! p), (h !! p); simpl; congruence. Qed.

(** The two invariants under a step that rearranges the filtered list and
    leaves what was discovered. *)
Lemma holdsFound_rearranged F s s' :
  wellFormed s -> rearranged (model s) (model s') ->
  (forall p, (p < length (heap s))%nat -> Info <$> heap s' !! p = Info <$> heap s !! p) ->
  holdsFound F s -> holdsFound F s'.
Proof.
  intros (_ & Ha & _) (Hperm & Ht & Hal & _) Hinfo (base & Hseq & HF).
  exists base. split.
  - rewrite Ht. destruct (aliased (model s)) eqn:E; [| done].
    by rewrite Hperm, Ha.
  - intros i info Hi. rewrite Hinfo; [by apply HF |].
    specialize (HF i info Hi). apply fmap_Some in HF as (it & Hit & _).
    by eapply lookup_lt_Some.
Qed.

Lemma viewFiltered_rearranged s s' :
  wellFormed s -> rearranged (model s) (model s') ->
  (forall p, (p < length (heap s))%nat -> Info <$> heap s' !! p = Info <$> heap s !! p) ->
  viewFiltered s -> viewFiltered s'.
Proof.
  intros (_ & Ha & _ & _ & Hv) (Hperm & Ht & Hal & Hfm & Hft) Hinfo Hs Hmode.
  rewrite Hfm in Hmode. specialize (Hs Hmode). rewrite Hft.
  assert (forall p, p ∈ tests (model s) ->
            containsFold (nameOf (heap s') p) (filterText (model s)) = true
            <-> containsFold (nameOf (heap s) p) (filterText (model s)) = true) as Hname.
  { intros p Hp. by rewrite (nameOf_info (heap s) (heap s') p) by (apply Hinfo, Hv, Hp). }
  rewrite Ht. destruct (aliased (model s)) eqn:E.
  - rewrite Ha in Hs, Hperm by done. apply filter_perm_all in Hs.
    rewrite filter_all_in; [done |]. apply Forall_forall. intros p Hp.
    rewrite Hperm in Hp. apply Hname; [done |].
    rewrite Forall_forall in Hs. by apply Hs.
  - rewrite Hperm, Hs. by rewrite (filter_ext_in _ _ _ Hname).
Qed.

(** After [applyFilter] the filtered list is what the filter passes. *)
Lemma viewFiltered_applyFilter s m :
  viewFiltered (setModel (applyFilter (heap s) m) s).
Proof.
  intros _. cbn [model heap setModel]. rewrite applyFilter_list.
  by destruct (applyFilter_fields (heap s) m) as (-> & -> & _).
Qed.

Lemma handleFilterKey_cases h key m :
  handleFilterKey h key m = m
  \/ exists mode text, handleFilterKey h key m = applyFilter h (setFilter mode text m).
Proof. unfold handleFilterKey. repeat case_match; eauto. Qed.

Lemma holdsFound_model F s m :
  tests m = tests (model s) -> holdsFound F s -> holdsFound F (setModel m s).
Proof. intros Ht (base & Hseq & HF). exists base. cbn [model heap setModel]. by rewrite Ht. Qed.

(** A successful re-discovery. *)
Lemma rediscoverTests_view d out h m h' m' s :
  rediscoverTests d out h m = Some (h', m') -> err d = false ->
  holdsFound (found d) (setModel m' (setHeap h' s))
  /\ viewFiltered (setModel m' (setHeap h' s)).
Proof.
  unfold rediscoverTests. intros H Herr. rewrite Herr in H.
  set (items := seq (length h) (length (found d))) in *.
  set (h1 := h ++ (newItem <$> found d)) in *.
  set (m1 := applyFilter h1 (setTests items m)) in *.
  destruct (applySorting h1 out m1) as [m2|] eqn:E; [| done]. injection H as <- <-.
  set (s1 := setModel m1 (setHeap h1 s)).
  assert (wellFormed s1) as Hwf.
  { unfold wellFormed, s1, m1. cbn [heap model setModel setHeap].
    apply listsOk_applyFilter; cbn [tests setTests].
    - apply NoDup_seq.
    - intros p Hp%elem_of_seq. unfold h1. rewrite length_app, length_fmap. lia. }
  assert (rearranged (model s1) m2) as Hr by (by apply applySorting_rearranged in E).
  assert (holdsFound (found d) s1) as H1.
  { exists (length h). unfold s1, m1. cbn [heap model setModel setHeap]. split.
    - by destruct (applyFilter_fields h1 (setTests items m)) as (-> & _).
    - intros i info Hi. unfold h1. rewrite lookup_app_r by lia.
      replace (length h + i - length h)%nat with i by lia.
      by rewrite list_lookup_fmap, Hi. }
  assert (viewFiltered s1) as H2.
  { unfold s1, m1. apply (viewFiltered_applyFilter (setHeap h1 s)). }
  split.
  - by apply (holdsFound_rearranged _ s1).
  - by apply (viewFiltered_rearranged s1).
Qed.

(** What a step leaves of the two invariants. *)
Lemma step_view F s l s' :
  step s l = Some s' -> wellFormed s -> holdsFound F s -> viewFiltered s ->
  holdsFound (default F (discovers (Runs l))) s' /\ viewFiltered s'.
Proof.
  intros H Hwf HF Hv.
  pose proof (step_rearranged _ _ _ H Hwf) as Hr.
  pose proof (fun p => step_info _ _ _ p H) as Hinfo.
  destruct l; cbn [discovers default] in *;
    try (split; [by apply (holdsFound_rearranged F s) | by apply (viewFiltered_rearranged s)]).
  - (* "/" *)
    simpl in H. step_inv H. split; [by apply holdsFound_model |]. by intros ?.
  - (* a key of the filter *)
    simpl in H. step_inv H.
    destruct (handleFilterKey_cases (heap s) key (model s)) as [-> | (mode & text & ->)].
    + by destruct s.
    + split.
      * apply holdsFound_model; [| done].
        by destruct (applyFilter_fields (heap s) (setFilter mode text (model s))) as (-> & _).
      * apply viewFiltered_applyFilter.
  - (* "r" *)
    simpl in H. step_inv H. unfold toggleRecursive in *.
    destruct (err d) eqn:Herr.
    + match goal with E : rediscoverTests _ _ _ _ = _ |- _ =>
        unfold rediscoverTests in E; rewrite Herr in E; injection E as <- <- end.
      cbn [default]. split.
      * destruct HF as (base & ? & ?). by exists base.
      * done.
    + cbn [default]. by eapply rediscoverTests_view.
Qed.

(** The further messages leave the two lists, the cursor and the filter. *)
Lemma handleRightPaneKey_view key m m' :
  handleRightPaneKey key m = Some m' ->
  tests m' = tests m /\ filteredList m' = filteredList m /\ aliased m' = aliased m
  /\ cursor m' = cursor m /\ filterMode m' = filterMode m /\ filterText m' = filterText m.
Proof.
  unfold handleRightPaneKey, goToNextMatch, goToPrevMatch. intros H.
  repeat (case_match; simplify_option_eq; try done).
Qed.

Lemma handleSearchKey_view key m m' :
  handleSearchKey key m = Some m' ->
  tests m' = tests m /\ filteredList m' = filteredList m /\ aliased m' = aliased m
  /\ cursor m' = cursor m /\ filterMode m' = filterMode m /\ filterText m' = filterText m.
Proof.
  unfold handleSearchKey, goToNextMatch, performSearch. intros H.
  repeat (case_match; simplify_option_eq; try done).
Qed.

Lemma handleSelectionKey_info key h m h' p :
  handleSelectionKey key h m = Some h' ->
  length h' = length h /\ Info <$> h' !! p = Info <$> h !! p.
Proof.
  unfold handleSelectionKey, selectAll, deselectAll, invertSelection, toggleCurrent.
  intros H. repeat (case_match; simplify_option_eq; try done);
    rewrite ?length_fold_alter, ?length_alter, ?info_fold_alter, ?info_alter; done.
Qed.

(** A message other than a step of the transition system changes neither
    list. *)
Lemma sessionStep_frame s e s' :
  sessionStep s e = Some s' ->
  match e with
  | Runs _ => True
  | _ =>
      tests (model s') = tests (model s) /\ filteredList (model s') = filteredList (model s)
      /\ aliased (model s') = aliased (model s) /\ cursor (model s') = cursor (model s)
      /\ filterMode (model s') = filterMode (model s)
      /\ filterText (model s') = filterText (model s)
      /\ length (heap s') = length (heap s)
      /\ forall p, Info <$> heap s' !! p = Info <$> heap s !! p
  end.
Proof.
  destruct e as [l | key | key | key | n]; [done | | | |]; simpl; unfold uiStep;
    destruct (uiBusy s); try done; intros H; simplify_option_eq.
  - split_and!; try done.
    + by eapply handleSelectionKey_info with (p := 0%nat).
    + intros p. by eapply handleSelectionKey_info.
  - match goal with E : handleRightPaneKey _ _ = _ |- _ =>
      apply handleRightPaneKey_view in E as (? & ? & ? & ? & ? & ?) end.
    by split_and!.
  - match goal with E : handleSearchKey _ _ = _ |- _ =>
      apply handleSearchKey_view in E as (? & ? & ? & ? & ? & ?) end.
    by split_and!.
  - by split_and!.
Qed.

Lemma sessionStep_wellFormed s e s' :
  sessionStep s e = Some s' -> wellFormed s -> wellFormed s'.
Proof.
  intros H Hwf. pose proof (sessionStep_frame _ _ _ H) as Hf.
  destruct e as [l | key | key | key | n]; [by eapply step_wellFormed | ..];
    destruct Hf as (Ht & Hl & Ha & Hc & _ & _ & Hlen & _);
    unfold wellFormed; rewrite Hlen;
    (apply (listsOk_same _ (model s)); [done.. | | done]);
    rewrite Hc; by destruct Hwf as (? & _).
Qed.

Lemma sessionStep_view F s e s' :
  sessionStep s e = Some s' -> wellFormed s -> holdsFound F s -> viewFiltered s ->
  holdsFound (default F (discovers e)) s' /\ viewFiltered s'.
Proof.
  intros H Hwf HF Hv. pose proof (sessionStep_frame _ _ _ H) as Hf.
  destruct e as [l | key | key | key | n]; [by apply (step_view F s) | ..];
    destruct Hf as (Ht & Hl & Ha & Hc & Hfm & Hft & Hlen & Hinfo);
    cbn [discovers default];
    (assert (rearranged (model s) (model s')) as Hr
       by (apply rearranged_same; [by destruct Hwf as (_ & ? & _) | done..]));
    (split; [by apply (holdsFound_rearranged F s) | by apply (viewFiltered_rearranged s)]).
Qed.

Lemma NewModel_view infos dir :
  holdsFound infos (NewModel infos dir) /\ viewFiltered (NewModel infos dir).
Proof.
  split.
  - exists 0%nat. simpl. split; [done |]. intros i info Hi.
    by rewrite list_lookup_fmap, Hi.
  - intros _. simpl. rewrite filter_all_in; [done |].
    apply Forall_forall. intros p _. apply Contains_empty.
Qed.

Lemma sessionRun_view evs s F s' :
  sessionRun s evs = Some s' -> wellFormed s -> holdsFound F s -> viewFiltered s ->
  wellFormed s' /\ holdsFound (lastFound F evs) s' /\ viewFiltered s'.
Proof.
  revert s F. induction evs as [|e evs IH]; intros s F Hrun Hwf HF Hv; simpl in Hrun.
  - by simplify_eq.
  - destruct (sessionStep s e) as [s1|] eqn:E; [| done]. simpl in Hrun.
    destruct (sessionStep_view F _ _ _ E Hwf HF Hv) as [HF1 Hv1].
    apply (IH s1 (default F (discovers e))); [done | | done..].
    by eapply sessionStep_wellFormed.
Qed.

Lemma sessionReachable_view infos dir evs s :
  sessionRun (NewModel infos dir) evs = Some s ->
  wellFormed s /\ holdsFound (lastFound infos evs) s /\ viewFiltered s.
Proof.
  intros H. destruct (NewModel_view infos dir).
  eapply sessionRun_view; [done | apply NewModel_wellFormed | done..].
Qed.




Lemma runSelectedTests_elem h m calls p :
  runSelectedTests h m = Some calls -> p ∈ calls -> p ∈ filteredList m.
Proof.
  unfold runSelectedTests. rewrite selectedLoop_filter. intros H Hp.
  destruct (_ && _).
  - destruct (index (filteredList m) (cursor m)) as [q|] eqn:Hq; [| done].
    simpl in H. injection H as <-. apply elem_of_app in Hp as [Hp | Hp].
    + by apply list_elem_of_filter in Hp as [_ ?].
    + apply list_elem_of_singleton in Hp as ->. by eapply index_elem_of.
  - injection H as <-. by apply list_elem_of_filter in Hp as [_ ?].
Qed.

(** X8: in every state the session reaches, whatever the messages (the
    keys that mark tests included), no operation on the list indexes it out
    of range: "[", "]", a tick, "up", "down", "s" (for every outcome of
    [sort.Slice]) and the keys "a", "d", "i" and " " complete, and "g" and
    "t" come to the same calls of [QueueTest] and of [StopTest], each on an
    allocated item of the filtered list.  What the runner does in these calls
    is not part of the property: [StopTest] takes two mutexes and may wait
    for ever (X30). *)
Theorem list_keys_never_panic infos dir s :
  sessionReachable infos dir s ->
  is_Some (moveItemUp (model s)) /\ is_Some (moveItemDown (model s))
  /\ (forall r, is_Some (refreshOutput (heap s) r (model s))
                /\ is_Some (cursorUp (heap s) r (model s))
                /\ is_Some (cursorDown (heap s) r (model s)))
  /\ (forall out,
        sortOutcome (less (heap s) (nextSortMode (sortMode (model s))))
          (filteredList (model s)) out = true ->
        is_Some (toggleSortMode (heap s) out (model s)))
  /\ (forall key, is_Some (handleSelectionKey key (heap s) (model s)))
  /\ exists calls,
       runSelectedTests (heap s) (model s) = Some calls
       /\ stopSelectedTests (heap s) (model s) = Some calls
       /\ forall p, p ∈ calls -> p ∈ filteredList (model s) /\ is_Some (heap s !! p).
Proof.
  intros [evs (Hwf & _)%sessionReachable_view].
  pose proof Hwf as (Hc & _ & Hsub & _ & Hv). pose proof Hc as [Hc1 Hc2].
  assert (forall c, 0 <= c -> c < len (filteredList (model s)) ->
                    is_Some (index (filteredList (model s)) c)) as Hidx.
  { intros c ? ?. by apply index_is_Some. }
  split_and!.
  - by apply moveItemUp_is_Some.
  - by apply moveItemDown_is_Some.
  - intros r. split_and!.
    + by apply refreshOutput_is_Some.
    + unfold cursorUp, resetOutputScroll. destruct (Z.gtb_spec (cursor (model s)) 0); [| done].
      apply refreshOutput_is_Some. simpl. lia.
    + unfold cursorDown, resetOutputScroll.
      destruct (Z.ltb_spec (cursor (model s)) (len (filteredList (model s)) - 1)); [| done].
      apply refreshOutput_is_Some. simpl. lia.
  - intros out Ho. unfold toggleSortMode. by apply applySorting_is_Some.
  - intros key. unfold handleSelectionKey, toggleCurrent. repeat case_match; try done.
    all: match goal with E : (_ && _) = true |- _ =>
           apply andb_true_iff in E as [_ E%Z.ltb_lt] end.
    all: by destruct (Hidx (cursor (model s))) as [p ->].
  - assert (is_Some (runSelectedTests (heap s) (model s))) as [calls E].
    { unfold runSelectedTests. destruct (selectedLoop _ _) as [b calls].
      destruct (negb b); [| done].
      destruct (Z.gtb_spec (len (filteredList (model s))) 0); [| done].
      destruct (Z.ltb_spec (cursor (model s)) (len (filteredList (model s)))); [| done]. simpl.
      by destruct (Hidx (cursor (model s))) as [p ->]. }
    exists calls. split_and!; [done.. |]. intros p Hp.
    assert (p ∈ filteredList (model s)) as Hin by (by eapply runSelectedTests_elem).
    split; [done |]. apply lookup_lt_is_Some, Hv. by eapply elem_of_submseteq.
Qed.

Lemma list_keys_never_panic_witness :
  is_Some (moveItemUp (model markedState)) /\ is_Some (moveItemDown (model markedState))
  /\ (forall r, is_Some (refreshOutput (heap markedState) r (model markedState))
                /\ is_Some (cursorUp (heap markedState) r (model markedState))
                /\ is_Some (cursorDown (heap markedState) r (model markedState)))
  /\ (forall out,
        sortOutcome (less (heap markedState) (nextSortMode (sortMode (model markedState))))
          (filteredList (model markedState)) out = true ->
        is_Some (toggleSortMode (heap markedState) out (model markedState)))
  /\ (forall key, is_Some (handleSelectionKey key (heap markedState) (model markedState)))
  /\ exists calls,
       runSelectedTests (heap markedState) (model markedState) = Some calls
       /\ stopSelectedTests (heap markedState) (model markedState) = Some calls
       /\ forall p, p ∈ calls ->
            p ∈ filteredList (model markedState) /\ is_Some (heap markedState !! p).
Proof.
  apply (list_keys_never_panic [testA; testB; testC; testD] "logs").
  exists markedEvents. by vm_compute.
Defined.

(** X11: in every state the session reaches, whatever tests are marked, "i"
    flips the mark of each test of the filtered list once and leaves the
    tests outside it. *)
Theorem invert_flips_the_view infos dir s p :
  sessionReachable infos dir s ->
  invertSelection (heap s) (model s) !! p
  = if decide (p ∈ filteredList (model s)) then invertSelected <$> heap s !! p
    else heap s !! p.
Proof.
  intros [evs ((_ & _ & Hsub & Hnd & _) & _)%sessionReachable_view].
  unfold invertSelection. case_decide.
  - apply fold_alter_once; [by eapply submseteq_NoDup | done].
  - by apply fold_alter_notin.
Qed.

Lemma invert_flips_the_view_witness :
  invertSelection (heap markedState) (model markedState) !! 2%nat
  = if decide (2%nat ∈ filteredList (model markedState))
    then invertSelected <$> heap markedState !! 2%nat
    else heap markedState !! 2%nat.
Proof.
  apply (invert_flips_the_view [testA; testB; testC; testD] "logs").
  exists markedEvents. by vm_compute.
Defined.
End Sessions.

Section LogFiles.
Implicit Types (matches pre post : list (LogPath * option Z)) (f : LogPath) (t : Z).

Lemma findMostRecentLogFile_snoc matches f info :
  findMostRecentLogFile (matches ++ [(f, info)])
  = match info with
    | None => findMostRecentLogFile matches
    | Some modTime =>
        match findMostRecentLogFile matches with
        | None => Some (f, modTime)
        | Some (f0, t0) => if modTime >? t0 then Some (f, modTime) else Some (f0, t0)
        end
    end.
Proof.
  unfold findMostRecentLogFile. rewrite fold_left_app. simpl.
  destruct info; [| done]. by repeat case_match.
Qed.

(** X19: [findMostRecentLogFile] returns a file among the matches whose
    modification time could be read, with that time; no match is newer, and
    those before it are strictly older (of several newest the first wins).
    It returns nothing exactly when no match could be read. *)
Theorem most_recent_log_is_newest matches :
  match findMostRecentLogFile matches with
  | None => forall f info, (f, info) ∈ matches -> info = None
  | Some (f, t) =>
      exists pre post,
        matches = pre ++ (f, Some t) :: post
        /\ (forall f' t', (f', Some t') ∈ pre -> t' < t)
        /\ (forall f' t', (f', Some t') ∈ post -> t' <= t)
  end.
Proof.
  induction matches as [|[f info] matches IH] using rev_ind; [by intros ? ? ?%elem_of_nil |].
  rewrite findMostRecentLogFile_snoc. destruct info as [t|].
  - destruct (findMostRecentLogFile matches) as [[f0 t0]|].
    + destruct IH as (pre & post & -> & Hpre & Hpost).
      destruct (Z.gtb_spec t t0).
      * exists (pre ++ (f0, Some t0) :: post), []. split_and!; [done | |].
        -- intros f' t' [?|[[= -> ->]|?]%elem_of_cons]%elem_of_app; [| lia |].
           ++ specialize (Hpre _ _ H0). lia.
           ++ specialize (Hpost _ _ H0). lia.
        -- by intros ? ? ?%elem_of_nil.
      * exists pre, (post ++ [(f, Some t)]). split_and!; [by rewrite <- app_assoc | done |].
        intros f' t' [?|[= -> ->]%list_elem_of_singleton]%elem_of_app; [eauto | lia].
    + exists matches, []. split_and!; [done | |].
      * intros f' t' Hin. by specialize (IH _ _ Hin).
      * by intros ? ? ?%elem_of_nil.
  - destruct (findMostRecentLogFile matches) as [[f0 t0]|].
    + destruct IH as (pre & post & -> & Hpre & Hpost).
      exists pre, (post ++ [(f, None)]). split_and!; [by rewrite <- app_assoc | done |].
      intros f' t' [?|[=]%list_elem_of_singleton]%elem_of_app. eauto.
    + intros f' info [?|[= -> ->]%list_elem_of_singleton]%elem_of_app; eauto.
Qed.
End LogFiles.

(** ** Goroutines *)

Section Goroutines.
Implicit Types (s : State) (l : Label) (tr : list Label) (p q t : nat) (h : Heap)
  (it : TestItem) (k : Task) (ks : list Task).

Lemma filter_alter_count (P : Task -> Prop) `{!forall k, Decision (P k)} f t ks k :
  ks !! t = Some k ->
  (length (filter P (alter f t ks)) + (if decide (P k) then 1 else 0)
   = length (filter P ks) + (if decide (P (f k)) then 1 else 0))%nat.
Proof.
  revert t. induction ks as [|k0 ks IH]; intros [|t] Hk; try done.
  - simpl in Hk. injection Hk as ->.
    change (alter f 0%nat (k :: ks)) with (f k :: ks). rewrite !filter_cons.
    destruct (decide (P (f k))), (decide (P k)); simpl; lia.
  - simpl in Hk. change (alter f (S t) (k0 :: ks)) with (k0 :: alter f t ks).
    rewrite !filter_cons. specialize (IH t Hk).
    destruct (decide (P k0)); simpl; lia.
Qed.

Lemma countedTasks_move s t k c :
  tasks s !! t = Some k ->
  countedTasks (moveTask t c s)
  = countedTasks s - (if counted k then 1 else 0) + (if counted (setPc c k) then 1 else 0).
Proof.
  intros Hk. unfold countedTasks, moveTask, len. cbn [tasks setTasks].
  pose proof (filter_alter_count (fun k => counted k = true) (setPc c) t (tasks s) k Hk) as H.
  destruct (counted k) eqn:E1, (counted (setPc c k)) eqn:E2;
    repeat case_decide; try congruence; lia.
Qed.

Lemma countedTasks_tasks s s' : tasks s' = tasks s -> countedTasks s' = countedTasks s.
Proof. unfold countedTasks. by intros ->. Qed.

Lemma countedTasks_cancel s s0 t :
  tasks s0 = tasks s ->
  countedTasks (setTasks (alter cancelTask t (tasks s)) s0) = countedTasks s.
Proof.
  intros _. unfold countedTasks, len. cbn [tasks setTasks]. f_equal.
  by apply filter_alter_length.
Qed.

Lemma countedTasks_startTest p s : countedTasks (startTest p s) = countedTasks s + 1.
Proof.
  unfold countedTasks, startTest, len. cbn [tasks setTasks].
  rewrite filter_app, length_app, filter_cons_True by done. simpl. lia.
Qed.

Lemma holder_alter s t t' f c :
  (forall k, pc (f k) = c -> pc k = c) ->
  (forall k, pc k = PcRestart -> pc (f k) = PcRestart) ->
  (exists k, tasks s !! t = Some k /\ pc k = PcRestart) ->
  exists k, alter f t' (tasks s) !! t = Some k /\ pc k = PcRestart.
Proof.
  intros _ Hf (k & Hk & Hpc). destruct (decide (t' = t)) as [->|Hne].
  - exists (f k). rewrite list_lookup_alter_eq, Hk. split; [done | by apply Hf].
  - exists k. by rewrite list_lookup_alter_ne.
Qed.

(** [running] is the number of goroutines that have not yet decremented it,
    and a goroutine that holds the scheduler mutex is inside the
    [tryStartNext] of its [testFinished]. *)
Lemma step_accounted s l s' :
  step s l = Some s' ->
  accounted s -> accounted s'.
Proof.
  intros H [Hs Hh]. unfold accounted in *.
  destruct l; simpl in H; step_inv H; repeat case_match; simplify_eq;
    cbn [runner running holder tasks setHeap setModel setRunner setHolder setUiBusy
         setTasks moveTask startTest];
    try (split; [done |]; done).
  all: try (split; [by rewrite ?(countedTasks_cancel s) |
                    intros t' Ht'; apply holder_alter with (c := PcRestart); by eauto]).
  all: try (split;
    [ erewrite countedTasks_move by (cbn [tasks setHeap setRunner setHolder]; done);
      rewrite ?(countedTasks_tasks s) by done;
      match goal with E : pc _ = _ |- _ => unfold counted; simpl; rewrite E end; lia
    | intros t' Ht'; first [ discriminate Ht' | idtac ] ]).
  all: try (match goal with E : pc ?k = ?c |- exists _, alter (setPc ?c') ?t _ !! ?t' = _ /\ _ =>
              destruct (decide (t = t')) as [->|Hne];
              [ destruct (Hh _ Ht') as (k' & Hk' & Hpc'); simplify_eq; congruence
              | rewrite list_lookup_alter_ne by done; by apply Hh ] end).
  - split; [exact Hs | intros t' Ht'; congruence].
  - split; [exact Hs | intros t' [= <-]; eauto].
  - split; [by rewrite countedTasks_startTest, Hs |].
    intros t' Ht'. rewrite Heqo in Ht'. destruct (Hh _ Ht') as (k & Hk & Hpc). exists k.
    split; [| done]. apply lookup_app_l_Some, Hk.
  - split; [| intros t' Ht'; congruence].
    destruct (Hh t0 eq_refl) as (k & Hk & Hpc).
    erewrite countedTasks_move by (cbn [tasks setHolder]; exact Hk).
    rewrite (countedTasks_tasks s) by done. unfold counted. simpl. rewrite Hpc. lia.
  - congruence.
Qed.

Lemma NewModel_accounted infos dir : accounted (NewModel infos dir).
Proof. split; [done | by intros t [=]]. Qed.

Lemma run_accounted tr s s' : run s tr = Some s' -> accounted s -> accounted s'.
Proof.
  revert s. induction tr as [|l tr IH]; intros s Hrun Hs; simpl in Hrun.
  - by simplify_eq.
  - destruct (step s l) as [s1|] eqn:E; [| done]. simpl in Hrun.
    eauto using step_accounted.
Qed.


(** X20: in every state the program reaches, [GetRunningCount] is the
    number of goroutines [tryStartNext] has launched that have not yet
    decremented the counter in [testFinished]; it is never negative. *)
Theorem running_counts_goroutines infos dir s :
  reachable infos dir s ->
  GetRunningCount s = countedTasks s /\ 0 <= GetRunningCount s.
Proof.
  intros [tr H]. unfold GetRunningCount.
  destruct (run_accounted _ _ _ H (NewModel_accounted infos dir)) as [E _].
  split; [done |]. rewrite E. apply len_nonneg.
Qed.

Lemma running_counts_goroutines_witness :
  GetRunningCount startedTwiceState = countedTasks startedTwiceState
  /\ 0 <= GetRunningCount startedTwiceState.
Proof.
  apply (running_counts_goroutines [testA] "logs"). exists startedTwice. by vm_compute.
Defined.

(** X21: [GetQueuedCount] lies between 0 and the length of the filtered
    list, and it is 0 exactly when the scan of [tryStartNext] finds no item
    to start. *)
Theorem queue_count_zero_iff_nothing_to_start s :
  0 <= GetQueuedCount s <= len (filteredList (model s))
  /\ (GetQueuedCount s = 0 <-> firstQueued (heap s) (filteredList (model s)) = None).
Proof.
  rewrite GetQueuedCount_filter. unfold len.
  induction (filteredList (model s)) as [|p ps [IH1 IH2]]; [done |].
  rewrite filter_cons. simpl. destruct (isQueued (heap s) p) eqn:E.
  - rewrite decide_True by done. simpl. split; [lia |]. split; [lia | done].
  - rewrite decide_False by done. split; [lia | done].
Qed.

Lemma marked_other s t c p :
  (forall k, tasks s !! t = Some k -> ~ marked p k) ->
  (exists t' k', tasks s !! t' = Some k' /\ marked p k') ->
  exists t' k', tasks (moveTask t c s) !! t' = Some k' /\ marked p k'.
Proof.
  intros Hn (t' & k' & Hk' & Hm). exists t', k'. split; [| done].
  unfold moveTask. cbn [tasks setTasks]. rewrite list_lookup_alter_ne; [done |].
  intros ->. by eapply Hn.
Qed.

Lemma lookup_alter_Some {A} (f : A -> A) (l : list A) q p x :
  alter f q l !! p = Some x ->
  (p <> q /\ l !! p = Some x) \/ (p = q /\ exists y, l !! p = Some y /\ x = f y).
Proof.
  destruct (decide (p = q)) as [->|Hne].
  - rewrite list_lookup_alter_eq. destruct (l !! q) as [y|]; [| done].
    intros [= <-]. right. eauto.
  - rewrite list_lookup_alter_ne by done. eauto.
Qed.

Lemma step_runningHasTask s l s' :
  step s l = Some s' -> accounted s -> runningHasTask s -> runningHasTask s'.
Proof.
  intros H [_ Hh] Hs. unfold runningHasTask in *.
  destruct l; simpl in H; step_inv H; repeat case_match; simplify_eq;
    cbn [heap tasks setHeap setModel setRunner setHolder setUiBusy setTasks moveTask startTest];
    try done.
  - (* QueueTest *)
    intros p0 it Hit Hst. apply list_lookup_insert_Some in Hit as [(-> & -> & _) | [_ Hit]].
    + match goal with E : QueueTest _ _ _ _ = _ |- _ => apply QueueTest_Some in E as [-> _] end.
      done.
    + eauto.
  - (* StopTest, which cancels *)
    intros p0 it Hit Hst.
    assert (exists it0, heap s !! p0 = Some it0 /\ Status it0 = StatusRunning) as (it0 & Hit0 & Hst0).
    { apply list_lookup_insert_Some in Hit as [(-> & -> & _) | [_ Hit]]; [| eauto].
      match goal with E : StopTest ?x = _ |- _ => unfold StopTest in E;
        destruct (Status x) eqn:?; simplify_eq; eauto end. }
    destruct (Hs _ _ Hit0 Hst0) as (t' & k' & Hk' & Hm).
    exists t'. destruct (decide (n = t')) as [->|Hne].
    + exists (cancelTask k'). by rewrite list_lookup_alter_eq, Hk'.
    + exists k'. by rewrite list_lookup_alter_ne.
  - (* StopTest *)
    intros p0 it Hit Hst.
    apply list_lookup_insert_Some in Hit as [(-> & -> & _) | [_ Hit]]; [| eauto].
    match goal with E : StopTest ?x = _ |- _ => unfold StopTest in E;
      destruct (Status x) eqn:?; simplify_eq; eauto end.
  - (* rediscovery *)
    intros p it Hit Hst.
    match goal with E : toggleRecursive _ _ _ _ = _ |- _ =>
      apply rediscoverTests_heap in E as -> end.
    destruct (err d); [eauto |].
    apply lookup_app_Some in Hit as [Hit | [_ Hit]]; [eauto |].
    rewrite list_lookup_fmap in Hit. destruct (found d !! _); by simplify_eq/=.
  - (* a turn of the loop *)
    intros p it Hit Hst. destruct (Hs _ _ Hit Hst) as (t' & k' & Hk' & Hm).
    exists t', k'. split; [by apply lookup_app_l_Some | done].
  - (* the goroutine leaves [tryStartNext] *)
    intros p it Hit Hst. destruct (Hs _ _ Hit Hst) as (t' & k' & Hk' & Hm).
    exists t', k'. split; [| done]. rewrite list_lookup_alter_ne; [done |].
    intros ->. destruct (Hh _ eq_refl) as (k & Hk & Hpc). simplify_eq.
    destruct Hm as [_ [?|?]]; congruence.
  - (* the item is marked *)
    intros p it Hit Hst. apply lookup_alter_Some in Hit as [[Hne Hit] | [-> _]].
    + destruct (Hs _ _ Hit Hst) as (t' & k' & Hk' & Hm).
      exists t', k'. split; [| done]. rewrite list_lookup_alter_ne; [done |].
      intros ->. simplify_eq. destruct Hm as [_ [?|?]]; congruence.
    + eexists t, _. rewrite list_lookup_alter_eq.
      match goal with E : tasks s !! t = Some _ |- _ => rewrite E end.
      split; [done |]. split; [done | by left].
  - (* the log file is created *)
    intros p it Hit Hst. destruct (Hs _ _ Hit Hst) as (t' & k' & Hk' & Hm).
    destruct (decide (t = t')) as [->|Hne].
    + eexists t', _. rewrite list_lookup_alter_eq, Hk'. split; [done |].
      destruct Hm as [? _]. split; [done | by right].
    + exists t', k'. by rewrite list_lookup_alter_ne.
  - (* the log file cannot be created *)
    intros p it Hit Hst. apply lookup_alter_Some in Hit as [[Hne Hit] | [-> (y & _ & ->)]]; [| done].
    destruct (Hs _ _ Hit Hst) as (t' & k' & Hk' & Hm).
    exists t', k'. split; [| done]. rewrite list_lookup_alter_ne; [done |].
    intros ->. simplify_eq. by destruct Hm as [? _].
  - (* the command returns *)
    intros p it Hit Hst. apply lookup_alter_Some in Hit as [[Hne Hit] | [-> (y & _ & ->)]].
    + destruct (Hs _ _ Hit Hst) as (t' & k' & Hk' & Hm).
      exists t', k'. split; [| done]. rewrite list_lookup_alter_ne; [done |].
      intros ->. simplify_eq. by destruct Hm as [? _].
    + simpl in Hst. by repeat case_match.
  - (* [testFinished] *)
    intros p it Hit Hst. destruct (Hs _ _ Hit Hst) as (t' & k' & Hk' & Hm).
    exists t', k'. split; [| done]. rewrite list_lookup_alter_ne; [done |].
    intros ->. simplify_eq. destruct Hm as [_ [?|?]]; congruence.
Qed.

Lemma run_runningHasTask tr s s' :
  run s tr = Some s' -> accounted s -> runningHasTask s -> runningHasTask s'.
Proof.
  revert s. induction tr as [|l tr IH]; intros s Hrun Ha Hs; simpl in Hrun.
  - by simplify_eq.
  - destruct (step s l) as [s1|] eqn:E; [| done]. simpl in Hrun.
    eauto using step_runningHasTask, step_accounted.
Qed.

(** X22: in every state the program reaches, an item whose status is
    [StatusRunning] has a goroutine that has marked it and has not yet
    written a terminal status: no item stays running without a goroutine
    that will finish it. *)
Theorem running_job_has_goroutine infos dir s p it :
  reachable infos dir s ->
  heap s !! p = Some it -> Status it = StatusRunning ->
  exists t k, tasks s !! t = Some k /\ taskItem k = p /\ (pc k = PcCreate \/ pc k = PcRun).
Proof.
  intros [tr H]. eapply run_runningHasTask; [done | apply NewModel_accounted |].
  intros q it0 Hq. simpl in Hq. rewrite list_lookup_fmap in Hq.
  destruct (infos !! q); by simplify_eq/=.
Qed.

Lemma running_job_has_goroutine_witness :
  exists t k, tasks oneWaitingState !! t = Some k /\ taskItem k = 0%nat
              /\ (pc k = PcCreate \/ pc k = PcRun).
Proof.
  eapply (running_job_has_goroutine [testA; testB] "logs" oneWaitingState 0%nat).
  - exists oneWaiting. by vm_compute.
  - reflexivity.
  - reflexivity.
Defined.

(** X23: [StopTest] on a running item changes neither the item nor the
    counters; it cancels the context of the goroutine whose handle the item
    holds, and when [cmd.Run] of that goroutine returns the item becomes
    [StatusFailed], whatever the command returned. *)
Theorem stopped_run_ends_failed s p it t k failed now :
  uiBusy s = false ->
  heap s !! p = Some it -> Status it = StatusRunning -> cancel it = Some t ->
  tasks s !! t = Some k -> taskItem k = p -> pc k = PcRun ->
  exists s1 s2,
    step s (DoStopTest p) = Some s1
    /\ heap s1 = heap s /\ runner s1 = runner s
    /\ step s1 (CmdExit t failed now) = Some s2
    /\ heap s2 !! p = Some (markExit true failed now it)
    /\ Status (markExit true failed now it) = StatusFailed.
Proof.
  intros Hui Hp Hst Hc Hk Hitem Hpc.
  eexists _, _. split_and!.
  - unfold step, uiStep. rewrite Hui, Hp. simpl. unfold StopTest. rewrite Hst, Hc.
    reflexivity.
  - simpl. by apply list_insert_id.
  - done.
  - unfold step, taskStep. cbn [tasks setTasks setHeap].
    rewrite list_lookup_alter_eq, Hk. simpl. rewrite Hpc. reflexivity.
  - unfold moveTask. cbn [heap setHeap setTasks]. rewrite Hitem.
    rewrite list_lookup_alter_eq, list_insert_id by done. by rewrite Hp.
  - done.
Qed.

Lemma stopped_run_ends_failed_witness :
  exists s1 s2,
    step oneWaitingState (DoStopTest 0) = Some s1
    /\ heap s1 = heap oneWaitingState /\ runner s1 = runner oneWaitingState
    /\ step s1 (CmdExit 0 false 120) = Some s2
    /\ heap s2 !! 0%nat
       = Some (markExit true false 120
                 (mkTestItem testA StatusRunning false (LogAt "logs" "TestA" 100)
                    (Some 100) (Some 101) None (Some 0%nat)))
    /\ Status (markExit true false 120
                 (mkTestItem testA StatusRunning false (LogAt "logs" "TestA" 100)
                    (Some 100) (Some 101) None (Some 0%nat))) = StatusFailed.
Proof.
  eapply (stopped_run_ends_failed oneWaitingState 0%nat _ 0%nat); reflexivity.
Defined.

(** X24: [StopTest] on a queued item for which [tryStartNext] has already
    launched a goroutine makes the item idle and leaves the goroutine and
    the running count: the goroutine then marks the item running and the
    test is run all the same. *)
Theorem stop_does_not_recall_goroutine s p it t k now :
  uiBusy s = false ->
  heap s !! p = Some it -> Status it = StatusQueued ->
  tasks s !! t = Some k -> taskItem k = p -> pc k = PcStart ->
  exists s1 s2,
    step s (DoStopTest p) = Some s1
    /\ (Status <$> heap s1 !! p) = Some StatusIdle
    /\ runner s1 = runner s /\ tasks s1 = tasks s
    /\ step s1 (RunBegin t now) = Some s2
    /\ (Status <$> heap s2 !! p) = Some StatusRunning.
Proof.
  intros Hui Hp Hst Hk Hitem Hpc.
  eexists _, _. split_and!.
  - unfold step, uiStep. rewrite Hui, Hp. simpl. unfold StopTest. rewrite Hst. reflexivity.
  - simpl. rewrite list_lookup_insert_eq by (by eapply lookup_lt_Some). done.
  - done.
  - done.
  - unfold step, taskStep. cbn [tasks setHeap]. rewrite Hk. simpl. rewrite Hpc. reflexivity.
  - unfold moveTask. cbn [heap setHeap setTasks]. rewrite Hitem.
    rewrite list_lookup_alter_eq, list_lookup_insert_eq by (by eapply lookup_lt_Some). done.
Qed.

Lemma stop_does_not_recall_goroutine_witness :
  exists s1 s2,
    step launchedState (DoStopTest 0) = Some s1
    /\ (Status <$> heap s1 !! 0%nat) = Some StatusIdle
    /\ runner s1 = runner launchedState /\ tasks s1 = tasks launchedState
    /\ step s1 (RunBegin 0 130) = Some s2
    /\ (Status <$> heap s2 !! 0%nat) = Some StatusRunning.
Proof.
  eapply (stop_does_not_recall_goroutine launchedState 0%nat _ 0%nat); reflexivity.
Defined.

(** A ceiling the keys "+" and "-" set stays above 0 and goes up by one a
    step at most, as long as it stays an [int]. *)
Lemma run_setByKeys tr s s' :
  1 <= maxParallel (runner s) ->
  maxParallel (runner s) + len tr <= MaxInt ->
  run s tr = Some s' -> setByKeys s tr = true ->
  1 <= maxParallel (runner s') <= maxParallel (runner s) + len tr.
Proof.
  revert s. induction tr as [|l tr IH]; intros s Hs Hmax Hrun Hk;
    unfold len in *; simpl length in *; simpl in Hrun, Hk.
  - simplify_eq. lia.
  - destruct (step s l) as [s1|] eqn:E; [| done]. simpl in Hrun.
    apply andb_true_iff in Hk as [Hl Hk].
    assert (1 <= maxParallel (runner s1) <= maxParallel (runner s) + 1) as Hs1.
    { rewrite (step_runner _ _ _ E).
      destruct l; cbn [runnerAfter running maxParallel]; try lia.
      cbn [setByKey] in Hl. unfold GetMaxParallel in Hl.
      apply orb_true_iff in Hl as [Hl%Z.eqb_eq | [Hgt%Z.gtb_lt Hl%Z.eqb_eq]%andb_true_iff];
        [| lia].
      rewrite wrapInt_id in Hl by (unfold MaxInt in *; lia). lia. }
    specialize (IH s1 ltac:(lia) ltac:(lia) Hrun Hk). lia.
Qed.

(** X25: the keys "+" and "-" do not take the ceiling below 1 before "+"
    overflows the [int]: in every state reached by a run of at most
    [MaxInt - 3] steps in which every call of [SetMaxParallel] is one a key
    makes, [GetMaxParallel] is at least 1, and at most 3 more than the number
    of steps. *)
Theorem ceiling_at_least_one infos dir tr s :
  run (NewModel infos dir) tr = Some s ->
  setByKeys (NewModel infos dir) tr = true ->
  len tr <= MaxInt - 3 ->
  1 <= GetMaxParallel s <= 3 + len tr.
Proof.
  intros Hrun Hk Hlen. unfold GetMaxParallel.
  assert (maxParallel (runner (NewModel infos dir)) = 3) as E by done.
  pose proof (run_setByKeys tr (NewModel infos dir) s) as H. rewrite E in H.
  specialize (H ltac:(lia) ltac:(lia) Hrun Hk). lia.
Qed.

Lemma ceiling_at_least_one_witness :
  1 <= GetMaxParallel oneWaitingState <= 3 + len oneWaiting.
Proof.
  apply (ceiling_at_least_one [testA; testB] "logs" oneWaiting); by vm_compute.
Defined.
End Goroutines.

(** ** Discovery *)

Section Walk.
Implicit Types (n e : Node) (es : list Node) (tests : list TestInfo) (t : TestInfo)
  (dirs : list string) (path name dir : string) (Q : TestInfo -> Prop).

(** The entries of a directory, walked one after the other. *)
Lemma walkEntries_forall Q walkOne es tests :
  Forall (fun e => forall tests, Forall Q tests -> Forall Q (walkOne e tests).1) es ->
  Forall Q tests -> Forall Q (walkEntries walkOne es tests).1.
Proof.
  intros Hes. revert tests. induction Hes as [|e es He Hes IH]; intros tests Ht; [done |].
  specialize (He tests Ht). simpl.
  destruct (walkOne e tests) as [tests' err].
  destruct err; try done; by apply IH.
Qed.

Lemma declLoop_forall Q pkgDir path decls tests :
  (forall fn, FuncD fn ∈ decls -> isTestFunc fn = true ->
              Q (mkTestInfo (funcName fn) pkgDir path (funcLine fn))) ->
  Forall Q tests -> Forall Q (declLoop pkgDir path decls tests).
Proof.
  unfold declLoop. revert tests.
  induction decls as [|decl decls IH]; intros tests HQ Ht; [done |]. simpl. apply IH.
  - intros fn Hin. apply HQ. by apply list_elem_of_further.
  - destruct decl as [fn|]; [| done]. destruct (isTestFunc fn) eqn:E; [| done].
    apply Forall_app. split; [done |]. apply Forall_singleton.
    apply HQ; [apply list_elem_of_here | done].
Qed.

Lemma visitFile_forall Q pkgDir path name parsed tests :
  (forall decls fn, parsed = Some decls -> HasSuffix name "_test.go" = true ->
     FuncD fn ∈ decls -> isTestFunc fn = true ->
     Q (mkTestInfo (funcName fn) pkgDir path (funcLine fn))) ->
  Forall Q tests -> Forall Q (visitFile pkgDir path name parsed tests).
Proof.
  intros HQ Ht. unfold visitFile. destruct (HasSuffix name "_test.go") eqn:E; [| done].
  simpl. destruct parsed as [decls|]; [| done]. apply declLoop_forall; [| done].
  intros fn. by apply HQ.
Qed.

(** A property of every test function declared in a file of the tree holds
    of every test that is found. *)
Lemma walk_declared recursive n :
  forall isRoot dirs path tests Q,
    (forall file fname fn pkgDir,
       declared path n file fname fn ->
       HasSuffix fname "_test.go" = true -> isTestFunc fn = true ->
       Q (mkTestInfo (funcName fn) pkgDir file (funcLine fn))) ->
    Forall Q tests -> Forall Q (walk recursive isRoot dirs path n tests).1.
Proof.
  induction n as [name parsed | name readable entries IH | name]
    using Node_forall_ind; intros isRoot dirs path tests Q HQ Ht.
  - cbn [walk fst]. apply visitFile_forall; [| done].
    intros decls fn -> Hsuf Hin Hfn. apply (HQ path name); [by constructor | done..].
  - cbn [walk]. destruct readable; [| done]. cbn [negb].
    destruct (visitDir recursive isRoot name); [| done..].
    apply walkEntries_forall; [| done].
    rewrite Forall_forall in IH. apply Forall_forall. intros e He tests' Ht'.
    apply (IH e He); [| done].
    intros file fname fn pkgDir Hd. apply HQ. by econstructor.
  - done.
Qed.

Lemma isTestFunc_prefix fn : isTestFunc fn = true -> HasPrefix (funcName fn) "Test" = true.
Proof. unfold isTestFunc. by destruct (HasPrefix _ _). Qed.

(** X26: every test [DiscoverTestsRecursive] returns, with or without
    recursion and also when it returns an error, comes from a function
    declaration of the tree: a function that [isTestFunc] accepts, declared
    in a file whose name ends in "_test.go", listed with the path at which
    the walk found that file (the [File] of the test), its name and the line
    of its position.  Its name starts with "Test". *)
Theorem discovered_tests_are_test_functions dir recursive root t :
  t ∈ found (DiscoverTestsRecursive dir recursive root) ->
  HasPrefix (Name t) "Test" = true
  /\ exists fname fn,
       declared dir root (File t) fname fn
       /\ HasSuffix fname "_test.go" = true
       /\ isTestFunc fn = true /\ Name t = funcName fn /\ Line t = funcLine fn.
Proof.
  unfold DiscoverTestsRecursive.
  assert (Forall
    (fun t => HasPrefix (Name t) "Test" = true /\
              exists fname fn,
                declared dir root (File t) fname fn
                /\ HasSuffix fname "_test.go" = true
                /\ isTestFunc fn = true /\ Name t = funcName fn /\ Line t = funcLine fn)
    (walk recursive true [] dir root []).1) as H.
  { apply walk_declared; [| done].
    intros file fname fn pkgDir Hd Hsuf Hfn. split; [by apply isTestFunc_prefix |].
    by exists fname, fn. }
  destruct (walk recursive true [] dir root []) as [tests err]. cbn [fst found] in *.
  intros Ht. rewrite Forall_forall in H. by apply H.
Qed.

Lemma discovered_tests_are_test_functions_witness :
  HasPrefix (Name (mkTestInfo "TestFail" "sub" "testdata/sub/deep_test.go" 19)) "Test" = true
  /\ exists fname fn,
       declared "testdata" sampleTree
         (File (mkTestInfo "TestFail" "sub" "testdata/sub/deep_test.go" 19)) fname fn
       /\ HasSuffix fname "_test.go" = true
       /\ isTestFunc fn = true
       /\ Name (mkTestInfo "TestFail" "sub" "testdata/sub/deep_test.go" 19) = funcName fn
       /\ Line (mkTestInfo "TestFail" "sub" "testdata/sub/deep_test.go" 19) = funcLine fn.
Proof.
  apply (discovered_tests_are_test_functions "testdata" true sampleTree).
  vm_compute. do 3 apply list_elem_of_further. apply list_elem_of_here.
Defined.

(** Without recursion nothing is found below a sub-directory, which is left
    at once. *)
Lemma walk_flat_forall Q dirs n path tests :
  (forall fn, isTestFunc fn = true ->
     Q (mkTestInfo (funcName fn) (pkgDirOf dirs) path (funcLine fn))) ->
  Forall Q tests -> Forall Q (walk false false dirs path n tests).1.
Proof.
  intros HQ Ht. destruct n as [name parsed | name readable entries | name]; [| | done].
  - cbn [walk fst]. apply visitFile_forall; [| done]. intros decls fn _ _ _. apply HQ.
  - cbn [walk]. destruct readable; [| done]. cbn [negb].
    unfold visitDir. by destruct (_ || _).
Qed.

(** X27: without recursion every test returned is declared in a file of the
    directory searched, and its package path is empty; when the path
    searched is itself a file, its tests are returned with the package path
    "..". *)
Theorem flat_discovery_stays_in_root dir root t :
  t ∈ found (DiscoverTestsRecursive dir false root) ->
  Package t = match root with FileNode _ _ => ".." | _ => "" end.
Proof.
  unfold DiscoverTestsRecursive.
  destruct root as [name parsed | name readable entries | name]; cbn [walk].
  - cbn [found]. intros Ht.
    assert (Forall (fun t => Package t = "..") (visitFile ".." dir name parsed [])) as H
      by (by apply visitFile_forall).
    rewrite Forall_forall in H. by apply H.
  - destruct readable; [| by intros ?%elem_of_nil]. cbn [negb].
    destruct (visitDir false true name); try (by intros ?%elem_of_nil).
    assert (Forall (fun t => Package t = "")
      (walkEntries (fun e tests => walk false false [] (Join dir (nodeName e)) e tests)
         entries []).1) as H.
    { apply walkEntries_forall; [| done].
      apply Forall_forall. intros e _ tests' Ht'. by apply walk_flat_forall. }
    destruct (walkEntries _ entries []) as [tests err]. cbn [fst found] in *.
    intros Ht. rewrite Forall_forall in H. by apply H.
  - by intros ?%elem_of_nil.
Qed.

Lemma flat_discovery_stays_in_root_witness :
  Package (mkTestInfo "TestFail" "" "testdata/sample_test.go" 19)
  = match sampleTree with FileNode _ _ => ".." | _ => "" end.
Proof.
  apply (flat_discovery_stays_in_root "testdata" sampleTree).
  vm_compute. apply list_elem_of_further, list_elem_of_here.
Defined.

(** X28: a directory named "vendor" or whose name starts with "." is left at
    once and nothing below it is listed.  The root is
    not exempt: for a root with such a name (the name of the path "." is
    ".", which [main] passes when no directory is given) discovery returns no
    test and no error. *)
Theorem hidden_or_vendor_directory_skipped recursive isRoot dirs path name entries tests :
  name = "vendor" \/ HasPrefix name "." = true ->
  walk recursive isRoot dirs path (DirNode name true entries) tests = (tests, SkipDir)
  /\ DiscoverTestsRecursive path recursive (DirNode name true entries)
     = mkDiscovery [] false.
Proof.
  intros Hname.
  assert (visitDir recursive true name = SkipDir /\ visitDir recursive isRoot name = SkipDir)
    as [E1 E2].
  { unfold visitDir. destruct Hname as [-> | ->]; [done |]. by rewrite !orb_true_r. }
  unfold DiscoverTestsRecursive. cbn [walk negb]. by rewrite E1, E2.
Qed.

Lemma hidden_or_vendor_directory_skipped_witness :
  walk true true [] "." (DirNode "." true [FileNode "sample_test.go" (Some sampleFile)]) []
  = ([], SkipDir)
  /\ DiscoverTestsRecursive "." true
       (DirNode "." true [FileNode "sample_test.go" (Some sampleFile)])
     = mkDiscovery [] false.
Proof. apply hidden_or_vendor_directory_skipped. by right. Defined.

(** The loop over the declarations appends to the slice. *)
Lemma declLoop_app pkgDir path decls tests :
  declLoop pkgDir path decls tests = tests ++ declLoop pkgDir path decls [].
Proof.
  unfold declLoop. revert tests. induction decls as [|decl decls IH]; intros tests; simpl.
  - by rewrite app_nil_r.
  - rewrite IH. rewrite (IH (match decl with FuncD fn => _ | GenDecl => _ end)).
    destruct decl as [fn|]; [| done]. destruct (isTestFunc fn); [| done].
    by rewrite <- app_assoc.
Qed.

Lemma declLoop_elem pkgDir path decls tests fn :
  FuncD fn ∈ decls -> isTestFunc fn = true ->
  mkTestInfo (funcName fn) pkgDir path (funcLine fn) ∈ declLoop pkgDir path decls tests.
Proof.
  intros Hin Hfn. revert tests. induction decls as [|decl decls IH]; intros tests.
  - by apply elem_of_nil in Hin.
  - apply elem_of_cons in Hin as [<- | Hin].
    + unfold declLoop. simpl. rewrite Hfn.
      fold (declLoop pkgDir path decls
              (tests ++ [mkTestInfo (funcName fn) pkgDir path (funcLine fn)])).
      rewrite declLoop_app. apply elem_of_app. left. apply elem_of_app. right.
      apply list_elem_of_here.
    + unfold declLoop. simpl. apply IH, Hin.
Qed.

(** What is found is kept: the walk only appends. *)
Lemma walkEntries_extends walkOne es tests :
  Forall (fun e => forall tests, exists new, (walkOne e tests).1 = tests ++ new) es ->
  exists new, (walkEntries walkOne es tests).1 = tests ++ new.
Proof.
  intros Hes. revert tests. induction Hes as [|e es He Hes IH]; intros tests.
  - exists []. simpl. by rewrite app_nil_r.
  - simpl. destruct (He tests) as [new1 E1].
    destruct (walkOne e tests) as [tests1 err]. simpl in E1. subst tests1.
    destruct err.
    + destruct (IH (tests ++ new1)) as [new2 E2]. exists (new1 ++ new2).
      by rewrite E2, app_assoc.
    + destruct (IH (tests ++ new1)) as [new2 E2]. exists (new1 ++ new2).
      by rewrite E2, app_assoc.
    + by exists new1.
Qed.

Lemma visitFile_extends pkgDir path name parsed tests :
  exists new, visitFile pkgDir path name parsed tests = tests ++ new.
Proof.
  unfold visitFile. destruct (negb _); [exists []; by rewrite app_nil_r |].
  destruct parsed as [decls|]; [| exists []; by rewrite app_nil_r].
  eexists. apply declLoop_app.
Qed.

Lemma walk_extends recursive n :
  forall isRoot dirs path tests,
    exists new, (walk recursive isRoot dirs path n tests).1 = tests ++ new.
Proof.
  induction n as [name parsed | name readable entries IH | name]
    using Node_forall_ind; intros isRoot dirs path tests.
  - simpl. apply visitFile_extends.
  - cbn [walk]. destruct readable; [| exists []; by rewrite app_nil_r]. cbn [negb].
    destruct (visitDir recursive isRoot name); try (exists []; by rewrite app_nil_r).
    apply walkEntries_extends.
    eapply Forall_impl; [exact IH |]. intros e He tests'. apply He.
  - exists []. by rewrite app_nil_r.
Qed.

(** When the loop over the entries ends without an error, every entry was
    walked, and what its walk appended is in the result. *)
Lemma walkEntries_visits walkOne es tests e t :
  (forall e tests, exists new, (walkOne e tests).1 = tests ++ new) ->
  (walkEntries walkOne es tests).2 <> WalkFailed ->
  e ∈ es -> (forall tests, t ∈ (walkOne e tests).1) ->
  t ∈ (walkEntries walkOne es tests).1.
Proof.
  intros Hext. revert tests. induction es as [|e0 es IH]; intros tests Herr Hin Ht.
  - by apply elem_of_nil in Hin.
  - simpl in *. pose proof (Ht tests) as Ht0.
    destruct (walkOne e0 tests) as [tests1 err] eqn:E0.
    apply elem_of_cons in Hin as [-> | Hin].
    + rewrite E0 in Ht0. simpl in Ht0.
      assert (exists new, (walkEntries walkOne es tests1).1 = tests1 ++ new) as [new E].
      { apply walkEntries_extends, Forall_forall. intros ? _. apply Hext. }
      destruct err; try done; rewrite E; apply elem_of_app; by left.
    + destruct err; try done; by apply IH.
Qed.

(** X29: when discovery returns no error and the directory searched is
    neither named "vendor" nor starts with ".", every function that
    [isTestFunc] accepts in a parsed file of that directory whose name ends
    in "_test.go" is returned, with an empty package path and the path of
    the file ([filepath.Join] of the directory and the name of the file),
    with or without recursion. *)
Theorem tests_of_the_directory_are_found dir recursive name entries f decls fn :
  name <> "vendor" -> HasPrefix name "." = false ->
  FileNode f (Some decls) ∈ entries -> HasSuffix f "_test.go" = true ->
  FuncD fn ∈ decls -> isTestFunc fn = true ->
  err (DiscoverTestsRecursive dir recursive (DirNode name true entries)) = false ->
  mkTestInfo (funcName fn) "" (Join dir f) (funcLine fn)
  ∈ found (DiscoverTestsRecursive dir recursive (DirNode name true entries)).
Proof.
  intros Hv Hdot Hf Hsuf Hfn Htest. unfold DiscoverTestsRecursive. cbn [walk negb].
  assert (visitDir recursive true name = WalkNil) as ->.
  { unfold visitDir. rewrite Hdot. destruct (String.eqb_spec name "vendor"); [done |].
    simpl. by rewrite andb_false_r. }
  cbn zeta.
  set (walkOne := fun e tests => walk recursive false [] (Join dir (nodeName e)) e tests).
  destruct (walkEntries walkOne entries []) as [tests werr] eqn:E. simpl.
  intros Herr.
  change tests with (tests, werr).1. rewrite <- E.
  apply (walkEntries_visits walkOne entries [] (FileNode f (Some decls))).
  - intros e tests'. apply walk_extends.
  - rewrite E. simpl. by destruct werr.
  - done.
  - intros tests'. unfold walkOne. simpl. unfold visitFile. rewrite Hsuf. simpl.
    by apply declLoop_elem.
Qed.

Lemma tests_of_the_directory_are_found_witness :
  mkTestInfo (funcName (mkFuncDecl "TestFail" None (Some [testingT]) 19)) ""
    (Join "testdata" "sample_test.go")
    (funcLine (mkFuncDecl "TestFail" None (Some [testingT]) 19))
  ∈ found (DiscoverTestsRecursive "testdata" true
             (DirNode "testdata" true
                [DirNode ".git" true [FileNode "x_test.go" (Some sampleFile)];
                 FileNode "sample_test.go" (Some sampleFile);
                 DirNode "sub" true [FileNode "deep_test.go" (Some sampleFile)];
                 DirNode "vendor" true [FileNode "v_test.go" (Some sampleFile)]])).
Proof.
  apply (tests_of_the_directory_are_found "testdata" true "testdata" _ "sample_test.go"
           sampleFile); try done.
  - apply list_elem_of_further, list_elem_of_here.
  - do 3 apply list_elem_of_further. apply list_elem_of_here.
Defined.
End Walk.

(** ** The two mutexes *)

Section Mutexes.
Implicit Types (s : Locks) (h : Heap) (l : list nat) (r : TestRunner) (p q i j : nat).

Lemma lockRun_app s tr1 tr2 :
  lockRun s (tr1 ++ tr2) = s' ← lockRun s tr1; lockRun s' tr2.
Proof.
  revert s. induction tr1 as [|th tr1 IH]; intros s; simpl; [done |].
  destruct (lockStep s th); simpl; [apply IH | done].
Qed.

Lemma scanStep_at h l r p c j q started :
  running r < maxParallel r -> l !! j = Some q -> q <> p ->
  scanStep (mkLocks h l r p c (ScanAt j) started)
  = Some (mkLocks h l r p c (ScanLocked j) started).
Proof.
  intros Hr Hq Hne. unfold scanStep. cbn [scanPc lockRunner lockList stopItem].
  replace (running r <? maxParallel r) with true by (symmetry; by apply Z.ltb_lt).
  cbn [negb]. rewrite andb_false_r, Hq. rewrite (bool_decide_eq_false_2 (q = p)) by done.
  by rewrite andb_false_r.
Qed.

Lemma scanStep_locked h l r p c j q started :
  l !! j = Some q -> isQueued h q = false ->
  scanStep (mkLocks h l r p c (ScanLocked j) started)
  = Some (mkLocks h l r p c (ScanAt (S j)) started).
Proof.
  intros Hq Hnq. unfold scanStep. cbn [scanPc lockList lockHeap]. rewrite Hq. simpl.
  by rewrite Hnq.
Qed.

(** The scan passes the items that are not queued and whose mutex is free. *)
Lemma scan_passes h l r p c j :
  running r < maxParallel r ->
  (forall i q, (i < j)%nat -> l !! i = Some q -> q <> p /\ isQueued h q = false) ->
  (j <= length l)%nat ->
  lockRun (mkLocks h l r p c (ScanAt 0) []) (replicate (2 * j) false)
  = Some (mkLocks h l r p c (ScanAt j) []).
Proof.
  intros Hr. induction j as [|j IH]; intros Hpre Hlen; [done |].
  replace (2 * S j)%nat with (2 * j + 2)%nat by lia.
  rewrite replicate_add, lockRun_app, IH; [| intros i q ?; apply Hpre; lia | lia].
  destruct (lookup_lt_is_Some_2 l j) as [q Hq]; [lia |].
  destruct (Hpre j q ltac:(lia) Hq) as [Hne Hnq].
  cbn [mbind option_bind replicate Nat.add lockRun lockStep].
  rewrite (scanStep_at _ _ _ _ _ _ q) by done. cbn [mbind option_bind].
  by rewrite (scanStep_locked _ _ _ _ _ _ q) by done.
Qed.

(** X30: [StopTest] takes [item.mu] and then, for a queued item, [r.mu] (in
    [notifyUpdate]); [tryStartNext] takes [r.mu] and then [item.mu] of the
    items it scans.  When the session stops a queued item while a goroutine
    scans the list up to that item, each ends up waiting for the mutex the
    other holds, and neither returns. *)
Theorem stop_and_scan_deadlock h l r p i it :
  running r < maxParallel r ->
  l !! i = Some p ->
  (forall j q, (j < i)%nat -> l !! j = Some q -> q <> p /\ isQueued h q = false) ->
  h !! p = Some it -> Status it = StatusQueued ->
  exists tr s,
    lockRun (stopping h l r p) tr = Some s
    /\ deadlocked s
    /\ stopPc s = StopNotify /\ scanPc s = ScanAt i
    /\ lockList s !! i = Some (stopItem s).
Proof.
  intros Hr Hi Hpre Hp Hst.
  set (h' := <[p := (StopTest it).1]> h).
  exists ([true; true; false] ++ replicate (2 * i) false),
         (mkLocks h' l r p StopNotify (ScanAt i) []).
  assert (forall j q, (j < i)%nat -> l !! j = Some q -> q <> p /\ isQueued h' q = false)
    as Hpre'.
  { intros j q Hj Hq. destruct (Hpre j q Hj Hq) as [Hne Hnq]. split; [done |].
    unfold h', isQueued. rewrite list_lookup_insert_ne by done. exact Hnq. }
  split_and!; try done.
  - rewrite lockRun_app.
    assert (lockRun (stopping h l r p) [true; true; false]
            = Some (mkLocks h' l r p StopNotify (ScanAt 0) [])) as ->.
    { assert (stopStep (mkLocks h l r p StopLocked ScanEntry [])
              = Some (mkLocks h' l r p StopNotify ScanEntry [])) as E.
      { unfold stopStep. cbn [stopPc lockHeap stopItem]. rewrite Hp.
        cbn [mbind option_bind]. unfold statusEqb. by rewrite Hst. }
      cbn [lockRun lockStep].
      change (stopStep (stopping h l r p))
        with (Some (mkLocks h l r p StopLocked ScanEntry [])).
      cbn [mbind option_bind]. rewrite E. reflexivity. }
    cbn [mbind option_bind].
    apply scan_passes; [done | done |]. apply lookup_lt_Some in Hi. lia.
  - unfold deadlocked. simpl. split_and!; try done.
    unfold scanStep. simpl.
    replace (running r <? maxParallel r) with true by (symmetry; by apply Z.ltb_lt).
    cbn [negb]. rewrite andb_false_r, Hi. by rewrite bool_decide_eq_true_2.
Qed.

Lemma stop_and_scan_deadlock_witness :
  exists tr s,
    lockRun (stopping (heap oneWaitingState) [0; 1]%nat (mkRunner "logs" 3 1) 1%nat) tr
    = Some s
    /\ deadlocked s
    /\ stopPc s = StopNotify /\ scanPc s = ScanAt 1
    /\ lockList s !! 1%nat = Some (stopItem s).
Proof.
  eapply (stop_and_scan_deadlock (heap oneWaitingState) [0; 1]%nat (mkRunner "logs" 3 1)
            1%nat 1%nat); try reflexivity.
  intros [|j] q Hj Hq; [| lia]. simpl in Hq. injection Hq as <-. by split.
Defined.
End Mutexes.
